(** * Squirtle: SVG path parsing, affine matrices and attribute scanners

    A shallow embedding of [squirtle/matrix.py], [squirtle/parse.py] and the
    path interpreter of [squirtle/svg.py].

    Modelling conventions.
    - A Python [float] is an IEEE 754 binary64 number.  The embedding of
      the parser and the interpreter computes over the real numbers ([R]),
      which is the exact-arithmetic reading of the code: rounding, overflow,
      infinities and NaN are outside it.  The places where Python raises
      instead of returning a number (division by zero, [math.sqrt] and
      [math.acos] outside their domains) are written out and return
      [Raise].  A statement on these definitions is about the control flow,
      the exceptions and the expressions the code evaluates; where a
      statement needs a law of exact arithmetic that rounding breaks, it
      says "in exact arithmetic".
    - Where rounding decides what the code does ([Matrix.inverse],
      [Matrix.__mul__], the calls of [math.acos] in [arc_to]), module
      [Binary64] embeds the same code over the kernel's binary64 numbers,
      whose operations are the correctly rounded ones of IEEE 754.
    - A Python [str] is a [string]; a character is its code point below 256.
    - A call returns a [result]: a value, an exception, or [Loops] when the
      call does not return.  A method of [SVG] is a function from the object
      to a result and the object as the call leaves it, the printed lines
      included: what was assigned or printed before an exception stays. *)

From Stdlib Require Import Reals Lra Lia ZArith Ascii.
From stdpp Require Import gmap strings list pretty.
From Stdlib Require Floats.

Open Scope R_scope.

(** ** Exceptions and results *)

Inductive exn : Type :=
  | ValueError
  | IndexError
  | ZeroDivisionError
  | AttributeError
  | TypeError
  | OverflowError
  | UnboundLocalError
  | GenericException.

(** What a call does: it returns a value, raises, or never returns. *)
Inductive result (A : Type) : Type :=
  | Ok (a : A)
  | Raise (e : exn)
  | Loops.
Arguments Ok {A} a.
Arguments Raise {A} e.
Arguments Loops {A}.

#[global] Instance result_ret : MRet result := fun A a => Ok a.
#[global] Instance result_bind : MBind result := fun A B k m =>
  match m with
  | Ok a => k a
  | Raise e => Raise e
  | Loops => Loops
  end.

(** ** Decisions and partial functions on reals *)

#[global] Instance Rlt_decision (a b : R) : Decision (a < b) := Rlt_dec a b.
#[global] Instance Rle_decision (a b : R) : Decision (a <= b) := Rle_dec a b.
#[global] Instance Req_decision : EqDecision R := Req_dec_T.

(** Python's [a / b] on floats, in exact arithmetic ([Binary64.py_div] is
    the binary64 reading). *)
Definition py_div (a b : R) : result R :=
  if decide (b = 0) then Raise ZeroDivisionError else Ok (a / b).

(** [int(x)] on a float: truncation towards zero. *)
Definition py_trunc (a : R) : Z :=
  if decide (0 <= a) then Int_part a else (- Int_part (- a))%Z.

(** [math.sqrt]. *)
Definition py_sqrt (a : R) : result R :=
  if decide (a < 0) then Raise ValueError else Ok (sqrt a).

(** [math.acos], in exact arithmetic ([Binary64.acos_returns] is the
    binary64 reading of its domain test). *)
Definition py_acos (a : R) : result R :=
  if decide (a < -1) then Raise ValueError
  else if decide (1 < a) then Raise ValueError
  else Ok (acos a).

(** ** Values shared by the parser and the interpreter *)

Definition point : Type := R * R.
Definition loop : Type := list point.

(** A fill or stroke value as [parse_color] and [parse_element] hold it: the
    caller's sentinel, [None], a gradient id (a [str]) or a list
    [[r, g, b, a]] of integers. *)
Inductive paint : Type :=
  | Sentinel
  | NoPaint
  | GradientRef (id : string)
  | Color (r g b a : Z).

(** A line written by [print]. *)
Inductive event : Type :=
  | ColorException (e : exn)
  | ElementException (tag : string)
  | Warning (message : string)
  | PathPrinted (path : list loop).

(** ** Python strings *)

Module PyStr.

Definition is_digit (c : ascii) : bool :=
  let n := nat_of_ascii c in (48 <=? n)%nat && (n <=? 57)%nat.

Definition is_letter (c : ascii) : bool :=
  let n := nat_of_ascii c in
  ((65 <=? n)%nat && (n <=? 90)%nat) || ((97 <=? n)%nat && (n <=? 122)%nat).

(** [str.isspace] on the code points below 256. *)
Definition is_space (c : ascii) : bool :=
  let n := nat_of_ascii c in
  ((9 <=? n)%nat && (n <=? 13)%nat) || ((28 <=? n)%nat && (n <=? 32)%nat)
  || (n =? 133)%nat || (n =? 160)%nat.

Definition is_empty (s : string) : bool :=
  match s with EmptyString => true | _ => false end.

Fixpoint contains (c : ascii) (s : string) : bool :=
  match s with
  | EmptyString => false
  | String a r => if Ascii.eqb a c then true else contains c r
  end.

Fixpoint count (c : ascii) (s : string) : nat :=
  match s with
  | EmptyString => 0%nat
  | String a r => if Ascii.eqb a c then S (count c r) else count c r
  end.

(** [s.split(sep)] for a one-character separator: never the empty list. *)
Fixpoint split (sep : ascii) (s : string) : list string :=
  match s with
  | EmptyString => [EmptyString]
  | String a r =>
      if Ascii.eqb a sep then EmptyString :: split sep r
      else match split sep r with
           | h :: t => String a h :: t
           | [] => [String a EmptyString]
           end
  end.

Fixpoint lstrip (s : string) : string :=
  match s with
  | String a r => if is_space a then lstrip r else s
  | EmptyString => EmptyString
  end.

Fixpoint rstrip (s : string) : string :=
  match s with
  | EmptyString => EmptyString
  | String a r =>
      match rstrip r with
      | EmptyString => if is_space a then EmptyString else String a EmptyString
      | r' => String a r'
      end
  end.

(** [s.strip()]. *)
Definition strip (s : string) : string := rstrip (lstrip s).

(** [s[n:]]. *)
Fixpoint drop (n : nat) (s : string) : string :=
  match n, s with
  | O, _ => s
  | S n', String _ r => drop n' r
  | S _, EmptyString => EmptyString
  end.

(** [s[:n]]. *)
Fixpoint take (n : nat) (s : string) : string :=
  match n, s with
  | S n', String a r => String a (take n' r)
  | _, _ => EmptyString
  end.

(** [s[:-1]]. *)
Fixpoint drop_last (s : string) : string :=
  match s with
  | EmptyString => EmptyString
  | String a EmptyString => EmptyString
  | String a r => String a (drop_last r)
  end.

(** [s[a:-1]]. *)
Definition slice_to_last (a : nat) (s : string) : string := drop a (drop_last s).

(** [s[a:b]] for [0 <= a <= b]. *)
Definition slice (a b : nat) (s : string) : string := take (b - a) (drop a s).

Definition startswith (p s : string) : bool := String.prefix p s.

Definition endswith (s p : string) : bool :=
  String.prefix (String.rev p) (String.rev s).

(** *** Integer and float literals *)

Definition digit_val (c : ascii) : option Z :=
  let n := Z.of_nat (nat_of_ascii c) in
  if is_digit c then Some (n - 48)%Z
  else if (97 <=? n)%Z && (n <=? 102)%Z then Some (n - 87)%Z
  else if (65 <=? n)%Z && (n <=? 70)%Z then Some (n - 55)%Z
  else None.

Definition digit_in (base : Z) (c : ascii) : option Z :=
  match digit_val c with
  | Some d => if (d <? base)%Z then Some d else None
  | None => None
  end.

(** Digits of [int(s, base)] after sign and prefix: at least one digit,
    single underscores between digits only.  [prev] tells whether the
    previous character was a digit. *)
Fixpoint int_digits (base : Z) (acc : Z) (prev : bool) (s : string) : option Z :=
  match s with
  | EmptyString => if prev then Some acc else None
  | String c r =>
      if Ascii.eqb c "_"%char then
        if prev then
          match r with
          | EmptyString => None
          | String c' _ =>
              match digit_in base c' with
              | Some _ => int_digits base acc false r
              | None => None
              end
          end
        else None
      else
        match digit_in base c with
        | Some d => int_digits base (acc * base + d)%Z true r
        | None => None
        end
  end.

Definition int_unsigned (base : Z) (s : string) : option Z :=
  match s with
  | String "0" (String x r) =>
      if (base =? 16)%Z && (Ascii.eqb x "x" || Ascii.eqb x "X") then
        match r with
        | String "_" r' => int_digits base 0 false r'
        | _ => int_digits base 0 false r
        end
      else int_digits base 0 false s
  | _ => int_digits base 0 false s
  end.

(** [int(s, base)] for [base] 10 or 16. *)
Definition py_int (base : Z) (s : string) : result Z :=
  let body :=
    match strip s with
    | String "+" r => int_unsigned base r
    | String "-" r => option_map Z.opp (int_unsigned base r)
    | r => int_unsigned base r
    end in
  match body with
  | Some z => Ok z
  | None => Raise ValueError
  end.

(** The decimal number [m * 10^e]. *)
Definition dec_value (m e : Z) : R :=
  if (0 <=? e)%Z then IZR (m * 10 ^ e) else IZR m / IZR (10 ^ (- e)).

(** Leading decimal digits of [s], single underscores between digits
    allowed: their value continuing [acc], how many digits there are, and
    what follows them. *)
Fixpoint digits_run (acc : Z) (n : nat) (s : string) : Z * nat * string :=
  match s with
  | String c r =>
      if is_digit c then
        digits_run (acc * 10 + (Z.of_nat (nat_of_ascii c) - 48))%Z (S n) r
      else if Ascii.eqb c "_" && negb (n =? 0)%nat then
        match r with
        | String c' _ => if is_digit c' then digits_run acc n r else (acc, n, s)
        | EmptyString => (acc, n, s)
        end
      else (acc, n, s)
  | EmptyString => (acc, n, s)
  end.

(** Exponent part of a float literal: empty, or [e]/[E], an optional sign
    and at least one digit. *)
Definition float_exponent (s : string) : option Z :=
  match s with
  | EmptyString => Some 0%Z
  | String c r =>
      if Ascii.eqb c "e" || Ascii.eqb c "E" then
        let '(neg, r1) :=
          match r with
          | String "-" r' => (true, r')
          | String "+" r' => (false, r')
          | _ => (false, r)
          end in
        match digits_run 0 0 r1 with
        | (_, O, _) => None
        | (v, _, EmptyString) => Some (if neg then - v else v)%Z
        | _ => None
        end
      else None
  end.

(** Mantissa and decimal exponent of an unsigned float literal:
    [digits], [digits.], [digits.digits] or [.digits], then the exponent. *)
Definition float_unsigned (s : string) : option (Z * Z) :=
  let '(ip, ni, r) := digits_run 0 0 s in
  let '(m, nf, r') :=
    match r with
    | String "." r1 => digits_run ip 0 r1
    | _ => (ip, 0%nat, r)
    end in
  if ((ni + nf)%nat =? 0)%nat then None
  else match float_exponent r' with
       | Some e => Some (m, (e - Z.of_nat nf)%Z)
       | None => None
       end.

Definition float_literal (s : string) : option (Z * Z) :=
  match strip s with
  | String "+" r => float_unsigned r
  | String "-" r =>
      match float_unsigned r with
      | Some (m, e) => Some ((- m)%Z, e)
      | None => None
      end
  | r => float_unsigned r
  end.

(** [float(s)] on decimal literals: the decimal number written, where
    Python returns the binary64 number nearest to it.  The spellings [inf],
    [infinity] and
    [nan] denote no real number: they are outside the model and are reported
    as [ValueError] here. *)
Definition py_float (s : string) : result R :=
  match float_literal s with
  | Some (m, e) => Ok (dec_value m e)
  | None => Raise ValueError
  end.

(** [float(x)] where [x] is a string or [None]. *)
Definition py_float_opt (x : option string) : result R :=
  match x with
  | Some s => py_float s
  | None => Raise TypeError
  end.

End PyStr.

(** ** parse.py *)

Module ParsePy.
Import PyStr.

(** The scanner of [re.findall] for the pattern of [parse_list]: a token is
    one letter [[A-Za-z]], or a number [-?[0-9]+\.?[0-9]*] followed by an
    optional exponent [e-?[0-9]*].  A state says where the scanner stands
    inside a number. *)
Inductive scan_state : Type :=
  | Idle         (* between tokens *)
  | Minus        (* a [-] that needs a digit *)
  | IntPart      (* [-?[0-9]+] *)
  | Frac         (* after the dot *)
  | ExpMark      (* just after [e] *)
  | ExpDigits.   (* after [e-] or [e] and digits *)

(** The state after [c] when [c] extends the number being read. *)
Definition extend (st : scan_state) (c : ascii) : option scan_state :=
  match st with
  | Idle => None
  | Minus => if is_digit c then Some IntPart else None
  | IntPart =>
      if is_digit c then Some IntPart
      else if Ascii.eqb c "." then Some Frac
      else if Ascii.eqb c "e" then Some ExpMark
      else None
  | Frac =>
      if is_digit c then Some Frac
      else if Ascii.eqb c "e" then Some ExpMark
      else None
  | ExpMark =>
      if is_digit c then Some ExpDigits
      else if Ascii.eqb c "-" then Some ExpDigits
      else None
  | ExpDigits => if is_digit c then Some ExpDigits else None
  end.

(** The token read so far, when the text read so far is a whole match. *)
Definition finished (st : scan_state) (cur : string) : list string :=
  match st with
  | Idle | Minus => []
  | _ => [String.rev cur]
  end.

(** [cur] holds the characters of the current number, last one first.
    [letters] says whether single letters are tokens too. *)
Fixpoint scan (letters : bool) (st : scan_state) (cur : string) (s : string)
  : list string :=
  match s with
  | EmptyString => finished st cur
  | String c r =>
      match extend st c with
      | Some st' => scan letters st' (String c cur) r
      | None =>
          finished st cur ++
          (if letters && is_letter c then
             String c EmptyString :: scan letters Idle EmptyString r
           else if is_digit c then scan letters IntPart (String c EmptyString) r
           else if Ascii.eqb c "-" then scan letters Minus (String c EmptyString) r
           else scan letters Idle EmptyString r)
      end
  end.

(** [parse_list]. *)
Definition parse_list (s : string) : list string := scan true Idle EmptyString s.

(** The scanner of the [points] attribute: the same pattern without the
    letter alternative. *)
Definition parse_numbers (s : string) : list string := scan false Idle EmptyString s.

(** [[float(x) for x in l]]. *)
Definition floats (l : list string) : result (list R) := mapM py_float l.

(** One turn of the loop of [parse_style]. *)
Definition style_item (sdict : gmap string string) (item : string)
  : result (gmap string string) :=
  if contains ":" item then
    match split ":" item with
    | [key; value] => Ok (<[key := value]> sdict)
    | _ => Raise ValueError
    end
  else Ok sdict.

Fixpoint style_items (sdict : gmap string string) (items : list string)
  : result (gmap string string) :=
  match items with
  | [] => Ok sdict
  | item :: rest => sdict' ← style_item sdict item; style_items sdict' rest
  end.

(** [parse_style]. *)
Definition parse_style (s : string) : result (gmap string string) :=
  style_items ∅ (split ";" s).

(** The [try] block of [parse_color]. *)
Definition color_body (c : string) : result paint :=
  if startswith "url(#" c then Ok (GradientRef (slice_to_last 5 c))
  else if startswith "rgb" c then
    vals ← mapM (fun x => py_int 10 (strip x)) (split "," (slice_to_last 4 c));
    match vals with
    | [r; g; b] => Ok (Color r g b 255)
    | _ => Raise ValueError
    end
  else if (String.length c =? 6)%nat then
    r ← py_int 16 (slice 0 2 c);
    g ← py_int 16 (slice 2 4 c);
    b ← py_int 16 (slice 4 6 c);
    Ok (Color r g b 255)
  else if (String.length c =? 3)%nat then
    r ← py_int 16 (slice 0 1 c);
    g ← py_int 16 (slice 1 2 c);
    b ← py_int 16 (slice 2 3 c);
    Ok (Color (r * 17) (g * 17) (b * 17) 255)
  else Raise GenericException.

(** [parse_color(c, default)]: the value returned or the exception raised,
    and the lines printed.  [c] is [None] or a string. *)
Definition parse_color (c : option string) (default : paint)
  : result paint * list event :=
  match c with
  | None => (Ok default, [])
  | Some c =>
      if is_empty c then (Ok default, [])
      else if String.eqb c "none" then (Ok NoPaint, [])
      else
        match strip c with
        | EmptyString => (Raise IndexError, [])
        | String c0 rest as c' =>
            match color_body (if Ascii.eqb c0 "#" then rest else c') with
            | Ok p => (Ok p, [])
            | Raise e => (Ok NoPaint, [ColorException e])
            | Loops => (Loops, [])
            end
        end
  end.

End ParsePy.

(** ** matrix.py *)

Module MatrixPy.
Import PyStr ParsePy.

Record Matrix : Type := mkMatrix { values : list R }.

(** The default of [Matrix.__init__]. *)
Definition identity : Matrix := mkMatrix [1; 0; 0; 1; 0; 0].

(** What [Matrix.__init__] is given: nothing, a string, or a sequence of
    numbers. *)
Inductive init_arg : Type :=
  | ArgNone
  | ArgStr (string : string)
  | ArgValues (l : list R).

(** [math.radians]. *)
Definition radians (deg : R) : R := deg * PI / 180.

(** The [rotate(] branch of [Matrix.__init__] from the angle and pivot. *)
Definition rotation (angle_deg cx cy : R) : Matrix :=
  let angle := radians angle_deg in
  let translate_x := (- cx * cos angle) + (cy * sin angle) + cx in
  let translate_y := (- cx * sin angle) - (cy * cos angle) + cy in
  let a := cos angle in
  let b := sin angle in
  let c := - sin angle in
  let d := cos angle in
  mkMatrix [a; b; c; d; translate_x; translate_y].

(** [try: angle_deg, cx, cy = [float(x) ...]] and its [except ValueError]
    handler, which reads the list again and takes its first item. *)
Definition rotate_args (args : string) : result (R * R * R) :=
  let attempt :=
    l ← floats (parse_list args);
    match l with
    | [angle_deg; cx; cy] => Ok (angle_deg, cx, cy)
    | _ => Raise ValueError
    end in
  match attempt with
  | Raise ValueError =>
      l ← floats (parse_list args);
      match l with
      | angle_deg :: _ => Ok (angle_deg, 0, 0)
      | [] => Raise IndexError
      end
  | r => r
  end.

(** [Matrix.__init__] on a string. *)
Definition init_str (string : string) : result Matrix :=
  if startswith "matrix(" string then
    l ← floats (parse_list (slice_to_last 7 string)); Ok (mkMatrix l)
  else if startswith "translate(" string then
    l ← floats (parse_list (slice_to_last 10 string));
    match l with
    | [x; y] => Ok (mkMatrix [1; 0; 0; 1; x; y])
    | _ => Raise ValueError
    end
  else if startswith "scale(" string then
    l ← floats (parse_list (slice_to_last 6 string));
    match l with
    | [sx; sy] => Ok (mkMatrix [sx; 0; 0; sy; 0; 0])
    | _ => Raise ValueError
    end
  else if startswith "rotate(" string then
    '(angle_deg, cx, cy) ← rotate_args (slice_to_last 7 string);
    Ok (rotation angle_deg cx cy)
  else Ok identity.

(** [Matrix(string)]. *)
Definition init (arg : init_arg) : result Matrix :=
  match arg with
  | ArgNone => Ok identity
  | ArgStr string => init_str string
  | ArgValues l => Ok (mkMatrix l)
  end.

(** [Matrix.__call__], in exact arithmetic. *)
Definition call (m : Matrix) (other : R * R) : result (R * R) :=
  match values m with
  | v0 :: v1 :: v2 :: v3 :: v4 :: v5 :: _ =>
      Ok (v0 * fst other + v2 * snd other + v4,
          v1 * fst other + v3 * snd other + v5)
  | _ => Raise IndexError
  end.

(** [Matrix.inverse], in exact arithmetic ([Binary64.inverse] is the
    binary64 reading).  [d] is computed first (needs four values); the list
    of quotients is then built left to right, so a zero [d] raises at the
    first quotient, before [values[4]] and [values[5]] are read. *)
Definition inverse (m : Matrix) : result Matrix :=
  match values m with
  | v0 :: v1 :: v2 :: v3 :: rest =>
      let d := v0 * v3 - v1 * v2 in
      q0 ← py_div v3 d;
      q1 ← py_div (- v1) d;
      q2 ← py_div (- v2) d;
      q3 ← py_div v0 d;
      match rest with
      | v4 :: v5 :: _ =>
          q4 ← py_div (v2 * v5 - v3 * v4) d;
          q5 ← py_div (v1 * v4 - v0 * v5) d;
          Ok (mkMatrix [q0; q1; q2; q3; q4; q5])
      | _ => Raise IndexError
      end
  | _ => Raise IndexError
  end.

(** [Matrix.__mul__], in exact arithmetic ([Binary64.mul] is the binary64
    reading): both value lists are unpacked into exactly six names. *)
Definition mul (m other : Matrix) : result Matrix :=
  match values m with
  | [a; b; c; d; e; f] =>
      match values other with
      | [u; v; w; x; y; z] =>
          Ok (mkMatrix [a * u + c * v; b * u + d * v; a * w + c * x;
                        b * w + d * x; a * y + c * z + e; b * y + d * z + f])
      | _ => Raise ValueError
      end
  | _ => Raise ValueError
  end.

End MatrixPy.

(** ** svg.py: the interpreter state *)

Module SvgPy.
Import PyStr ParsePy MatrixPy.

Definition BEZIER_POINTS : Z := 20.
Definition CIRCLE_POINTS : Z := 24.
Definition TOLERANCE : R := 1 / 1000.

(** [SvgPath]. *)
Record SvgPath : Type := mkSvgPath {
  sp_path : list loop;
  sp_stroke : paint;
  sp_polygon : option (list point);
  sp_fill : paint;
  sp_transform : Matrix;
  sp_id : string;
  sp_title : option string;
  sp_description : option string
}.

(** The attributes of an [SVG] object that the parser reads and writes,
    and the lines printed so far.  [self_last_c] is [None] until
    [curve_to] has set [last_cx] and [last_cy]. *)
Record SVG : Type := mkSVG {
  bezier_points : Z;
  circle_points : Z;
  invert_y : bool;
  bezier_coefficients : list (R * R * R * R);
  self_x : R;
  self_y : R;
  self_last_c : option (R * R);
  self_loop : loop;
  self_path : list loop;
  self_paths : list SvgPath;
  path_lookup : gmap string SvgPath;
  self_transform : Matrix;
  self_opacity : R;
  self_fill : paint;
  self_stroke : paint;
  path_id : string;
  path_title : option string;
  path_description : option string;
  self_width : R;
  self_height : R;
  printed : list event
}.

(** The object as [SVG.__init__] leaves it before [generate_disp_list].
    The attributes that [parse_doc], [parse_element] and [new_path] assign
    before any read ([x], [y], [loop], [transform], [opacity], ...) do not
    exist yet in Python; they start here with placeholder values. *)
Definition new_SVG (bezier circle : Z) (inv : bool) : SVG :=
  {| bezier_points := bezier; circle_points := circle; invert_y := inv;
     bezier_coefficients := []; self_x := 0; self_y := 0;
     self_last_c := None; self_loop := []; self_path := [];
     self_paths := []; path_lookup := ∅; self_transform := identity;
     self_opacity := 1; self_fill := NoPaint; self_stroke := NoPaint;
     path_id := ""; path_title := None; path_description := None;
     self_width := 0; self_height := 0; printed := [] |}.

(** Assignment to one attribute. *)
Definition set_bezier_coefficients (v : list (R * R * R * R)) (s : SVG) : SVG :=
  mkSVG (bezier_points s) (circle_points s) (invert_y s) v (self_x s) (self_y s) (self_last_c s) (self_loop s) (self_path s) (self_paths s) (path_lookup s) (self_transform s) (self_opacity s) (self_fill s) (self_stroke s) (path_id s) (path_title s) (path_description s) (self_width s) (self_height s) (printed s).
Definition set_self_x (v : R) (s : SVG) : SVG :=
  mkSVG (bezier_points s) (circle_points s) (invert_y s) (bezier_coefficients s) v (self_y s) (self_last_c s) (self_loop s) (self_path s) (self_paths s) (path_lookup s) (self_transform s) (self_opacity s) (self_fill s) (self_stroke s) (path_id s) (path_title s) (path_description s) (self_width s) (self_height s) (printed s).
Definition set_self_y (v : R) (s : SVG) : SVG :=
  mkSVG (bezier_points s) (circle_points s) (invert_y s) (bezier_coefficients s) (self_x s) v (self_last_c s) (self_loop s) (self_path s) (self_paths s) (path_lookup s) (self_transform s) (self_opacity s) (self_fill s) (self_stroke s) (path_id s) (path_title s) (path_description s) (self_width s) (self_height s) (printed s).
Definition set_self_last_c (v : option (R * R)) (s : SVG) : SVG :=
  mkSVG (bezier_points s) (circle_points s) (invert_y s) (bezier_coefficients s) (self_x s) (self_y s) v (self_loop s) (self_path s) (self_paths s) (path_lookup s) (self_transform s) (self_opacity s) (self_fill s) (self_stroke s) (path_id s) (path_title s) (path_description s) (self_width s) (self_height s) (printed s).
Definition set_self_loop (v : loop) (s : SVG) : SVG :=
  mkSVG (bezier_points s) (circle_points s) (invert_y s) (bezier_coefficients s) (self_x s) (self_y s) (self_last_c s) v (self_path s) (self_paths s) (path_lookup s) (self_transform s) (self_opacity s) (self_fill s) (self_stroke s) (path_id s) (path_title s) (path_description s) (self_width s) (self_height s) (printed s).
Definition set_self_path (v : list loop) (s : SVG) : SVG :=
  mkSVG (bezier_points s) (circle_points s) (invert_y s) (bezier_coefficients s) (self_x s) (self_y s) (self_last_c s) (self_loop s) v (self_paths s) (path_lookup s) (self_transform s) (self_opacity s) (self_fill s) (self_stroke s) (path_id s) (path_title s) (path_description s) (self_width s) (self_height s) (printed s).
Definition set_self_paths (v : list SvgPath) (s : SVG) : SVG :=
  mkSVG (bezier_points s) (circle_points s) (invert_y s) (bezier_coefficients s) (self_x s) (self_y s) (self_last_c s) (self_loop s) (self_path s) v (path_lookup s) (self_transform s) (self_opacity s) (self_fill s) (self_stroke s) (path_id s) (path_title s) (path_description s) (self_width s) (self_height s) (printed s).
Definition set_path_lookup (v : gmap string SvgPath) (s : SVG) : SVG :=
  mkSVG (bezier_points s) (circle_points s) (invert_y s) (bezier_coefficients s) (self_x s) (self_y s) (self_last_c s) (self_loop s) (self_path s) (self_paths s) v (self_transform s) (self_opacity s) (self_fill s) (self_stroke s) (path_id s) (path_title s) (path_description s) (self_width s) (self_height s) (printed s).
Definition set_self_transform (v : Matrix) (s : SVG) : SVG :=
  mkSVG (bezier_points s) (circle_points s) (invert_y s) (bezier_coefficients s) (self_x s) (self_y s) (self_last_c s) (self_loop s) (self_path s) (self_paths s) (path_lookup s) v (self_opacity s) (self_fill s) (self_stroke s) (path_id s) (path_title s) (path_description s) (self_width s) (self_height s) (printed s).
Definition set_self_opacity (v : R) (s : SVG) : SVG :=
  mkSVG (bezier_points s) (circle_points s) (invert_y s) (bezier_coefficients s) (self_x s) (self_y s) (self_last_c s) (self_loop s) (self_path s) (self_paths s) (path_lookup s) (self_transform s) v (self_fill s) (self_stroke s) (path_id s) (path_title s) (path_description s) (self_width s) (self_height s) (printed s).
Definition set_self_fill (v : paint) (s : SVG) : SVG :=
  mkSVG (bezier_points s) (circle_points s) (invert_y s) (bezier_coefficients s) (self_x s) (self_y s) (self_last_c s) (self_loop s) (self_path s) (self_paths s) (path_lookup s) (self_transform s) (self_opacity s) v (self_stroke s) (path_id s) (path_title s) (path_description s) (self_width s) (self_height s) (printed s).
Definition set_self_stroke (v : paint) (s : SVG) : SVG :=
  mkSVG (bezier_points s) (circle_points s) (invert_y s) (bezier_coefficients s) (self_x s) (self_y s) (self_last_c s) (self_loop s) (self_path s) (self_paths s) (path_lookup s) (self_transform s) (self_opacity s) (self_fill s) v (path_id s) (path_title s) (path_description s) (self_width s) (self_height s) (printed s).
Definition set_path_id (v : string) (s : SVG) : SVG :=
  mkSVG (bezier_points s) (circle_points s) (invert_y s) (bezier_coefficients s) (self_x s) (self_y s) (self_last_c s) (self_loop s) (self_path s) (self_paths s) (path_lookup s) (self_transform s) (self_opacity s) (self_fill s) (self_stroke s) v (path_title s) (path_description s) (self_width s) (self_height s) (printed s).
Definition set_path_title (v : option string) (s : SVG) : SVG :=
  mkSVG (bezier_points s) (circle_points s) (invert_y s) (bezier_coefficients s) (self_x s) (self_y s) (self_last_c s) (self_loop s) (self_path s) (self_paths s) (path_lookup s) (self_transform s) (self_opacity s) (self_fill s) (self_stroke s) (path_id s) v (path_description s) (self_width s) (self_height s) (printed s).
Definition set_path_description (v : option string) (s : SVG) : SVG :=
  mkSVG (bezier_points s) (circle_points s) (invert_y s) (bezier_coefficients s) (self_x s) (self_y s) (self_last_c s) (self_loop s) (self_path s) (self_paths s) (path_lookup s) (self_transform s) (self_opacity s) (self_fill s) (self_stroke s) (path_id s) (path_title s) v (self_width s) (self_height s) (printed s).
Definition set_self_width (v : R) (s : SVG) : SVG :=
  mkSVG (bezier_points s) (circle_points s) (invert_y s) (bezier_coefficients s) (self_x s) (self_y s) (self_last_c s) (self_loop s) (self_path s) (self_paths s) (path_lookup s) (self_transform s) (self_opacity s) (self_fill s) (self_stroke s) (path_id s) (path_title s) (path_description s) v (self_height s) (printed s).
Definition set_self_height (v : R) (s : SVG) : SVG :=
  mkSVG (bezier_points s) (circle_points s) (invert_y s) (bezier_coefficients s) (self_x s) (self_y s) (self_last_c s) (self_loop s) (self_path s) (self_paths s) (path_lookup s) (self_transform s) (self_opacity s) (self_fill s) (self_stroke s) (path_id s) (path_title s) (path_description s) (self_width s) v (printed s).
Definition set_printed (v : list event) (s : SVG) : SVG :=
  mkSVG (bezier_points s) (circle_points s) (invert_y s) (bezier_coefficients s) (self_x s) (self_y s) (self_last_c s) (self_loop s) (self_path s) (self_paths s) (path_lookup s) (self_transform s) (self_opacity s) (self_fill s) (self_stroke s) (path_id s) (path_title s) (path_description s) (self_width s) (self_height s) v.

(** A method: it returns or raises, and leaves the object as mutated up to
    that point. *)
Definition M (A : Type) : Type := SVG -> result A * SVG.

#[global] Instance M_ret : MRet M := fun A a s => (Ok a, s).
#[global] Instance M_bind : MBind M := fun A B k m s =>
  match m s with
  | (Ok a, s') => k a s'
  | (Raise e, s') => (Raise e, s')
  | (Loops, s') => (Loops, s')
  end.

Definition lift {A : Type} (r : result A) : M A := fun s => (r, s).
Definition get : M SVG := fun s => (Ok s, s).
Definition modify (f : SVG -> SVG) : M unit := fun s => (Ok tt, f s).
Definition print (ev : event) : M unit :=
  modify (fun s => set_printed (printed s ++ [ev]) s).

(** [for a in l: body(a)]. *)
Definition for_each {A : Type} (l : list A) (body : A -> M unit) : M unit :=
  (fix go (l : list A) : M unit :=
     match l with
     | [] => mret tt
     | a :: rest => _ ← body a; go rest
     end) l.

(** [range(n)]. *)
Definition range (n : Z) : list Z := seqZ 0 n.

(** [new_path]. *)
Definition new_path : M unit :=
  modify (fun s => set_self_loop [] (set_self_path [] (set_self_y 0 (set_self_x 0 s)))).

(** [close_path]: [self.loop[0]] needs a first point. *)
Definition close_path : M unit :=
  s ← get;
  match self_loop s with
  | [] => lift (Raise IndexError)
  | p0 :: _ =>
      let closed := self_loop s ++ [p0] in
      modify (fun s => set_self_loop [] (set_self_path (self_path s ++ [closed]) s))
  end.

(** [set_position]. *)
Definition set_position (x y : R) : M unit :=
  modify (fun s => set_self_loop (self_loop s ++ [(x, y)]) (set_self_y y (set_self_x x s))).

(** [line_to]. *)
Definition line_to (x y : R) : M unit := set_position x y.

(** The row [[t0, t1, t2, t3]] of [bezier_coefficients] for [t]. *)
Definition bernstein (t : R) : R * R * R * R :=
  ((1 - t) ^ 3, 3 * t * (1 - t) ^ 2, 3 * t ^ 2 * (1 - t), t ^ 3).

(** The first loop of [curve_to], run when [bezier_coefficients] is empty:
    [t = float(i) / self.bezier_points] for [i] in
    [range(self.bezier_points + 1)]. *)
Definition fill_bezier_coefficients : M unit :=
  s ← get;
  match bezier_coefficients s with
  | [] =>
      rows ← lift (mapM (fun i : Z =>
                t ← py_div (IZR i) (IZR (bezier_points s)); Ok (bernstein t))
              (range (bezier_points s + 1)));
      modify (set_bezier_coefficients rows)
  | _ :: _ => mret tt
  end.

(** The sample of the cubic for one row of coefficients, in exact
    arithmetic. *)
Definition bezier_point (p0 p1 p2 p3 : point) (t : R * R * R * R) : point :=
  let '(t0, t1, t2, t3) := t in
  (t0 * p0.1 + t1 * p1.1 + t2 * p2.1 + t3 * p3.1,
   t0 * p0.2 + t1 * p1.2 + t2 * p2.2 + t3 * p3.2).

(** [curve_to].  [px, py] are bound by the sampling loop only; with no row
    of coefficients the final assignment finds them unbound. *)
Definition curve_to (x1 y1 x2 y2 x y : R) : M unit :=
  _ ← fill_bezier_coefficients;
  _ ← modify (set_self_last_c (Some (x2, y2)));
  s ← get;
  let pts := bezier_point (self_x s, self_y s) (x1, y1) (x2, y2) (x, y)
               <$> bezier_coefficients s in
  _ ← modify (set_self_loop (self_loop s ++ pts));
  match last pts with
  | Some (px, py) => modify (fun s => set_self_y py (set_self_x px s))
  | None => lift (Raise UnboundLocalError)
  end.

(** The local function [angle] of [arc_to], in exact arithmetic
    ([Binary64.angle] is the binary64 reading of whether it returns). *)
Definition angle (u v : point) : result R :=
  n ← py_sqrt ((u.1 ^ 2 + u.2 ^ 2) * (v.1 ^ 2 + v.2 ^ 2));
  q ← py_div (u.1 * v.1 + u.2 * v.2) n;
  a ← py_acos q;
  Ok ((if decide (u.2 * v.1 < u.1 * v.2) then 1 else -1) * a).

(** The radicand [r2] of [arc_to] after the clamp [if r2 < 0: r2 = 0]. *)
Definition clamp_radicand (r2 : R) : R := if decide (r2 < 0) then 0 else r2.

(** What [arc_to] computes before it emits points, in exact arithmetic
    ([Binary64.arc_angles] is the binary64 reading up to the two calls of
    [angle]): the centre [(cx, cy)],
    the start angle [psi], the sweep [delta] and [n_points]. *)
Definition arc_parameters (circle : Z) (x1 y1 rx ry phi : R) (large_arc sweep : Z)
    (x2 y2 : R) : result (R * R * R * R * Z) :=
  let cp := cos phi in
  let sp := sin phi in
  let dx := 1 / 2 * (x1 - x2) in
  let dy := 1 / 2 * (y1 - y2) in
  let x_ := cp * dx + sp * dy in
  let y_ := - sp * dx + cp * dy in
  r2 ← py_div ((rx * ry) ^ 2 - (rx * y_) ^ 2 - (ry * x_) ^ 2)
              ((rx * y_) ^ 2 + (ry * x_) ^ 2);
  r ← py_sqrt (clamp_radicand r2);
  let r := if decide (large_arc = sweep) then - r else r in
  cx_ ← py_div (r * rx * y_) ry;
  cy_ ← py_div (- r * ry * x_) rx;
  let cx := cp * cx_ - sp * cy_ + 1 / 2 * (x1 + x2) in
  let cy := sp * cx_ + cp * cy_ + 1 / 2 * (y1 + y2) in
  ux ← py_div (x_ - cx_) rx;
  uy ← py_div (y_ - cy_) ry;
  psi ← angle (1, 0) (ux, uy);
  ux ← py_div (x_ - cx_) rx;
  uy ← py_div (y_ - cy_) ry;
  vx ← py_div (- x_ - cx_) rx;
  vy ← py_div (- y_ - cy_) ry;
  delta ← angle (ux, uy) (vx, vy);
  let delta :=
    if decide (sweep ≠ 0%Z) then
      (if decide (delta < 0) then delta + PI * 2 else delta)
    else delta in
  let delta :=
    if decide (sweep = 0%Z) then
      (if decide (0 < delta) then delta - PI * 2 else delta)
    else delta in
  let n_points := Z.max (py_trunc (Rabs (IZR circle * delta / (2 * PI)))) 1 in
  Ok (cx, cy, psi, delta, n_points).

(** [arc_to]. *)
Definition arc_to (rx ry phi : R) (large_arc sweep : Z) (x y : R) : M unit :=
  s ← get;
  '(cx, cy, psi, delta, n_points) ←
    lift (arc_parameters (circle_points s) (self_x s) (self_y s)
            rx ry phi large_arc sweep x y);
  let cp := cos phi in
  let sp := sin phi in
  for_each (range (n_points + 1)) (fun i =>
    step ← lift (py_div (IZR i * delta) (IZR n_points));
    let theta := psi + step in
    let ct := cos theta in
    let st := sin theta in
    line_to (cp * rx * ct - sp * ry * st + cx)
            (sp * rx * ct + cp * ry * st + cy)).

(** The test of the merge pass of [end_path], in exact arithmetic: [pt]
    stays when its squared
    distance to [loop[-1]] exceeds [TOLERANCE]. *)
Definition far (pt last : point) : bool :=
  bool_decide (TOLERANCE < (pt.1 - last.1) ^ 2 + (pt.2 - last.2) ^ 2).

(** The inner loop of the merge pass, [kept] being [loop[-1]]. *)
Fixpoint merge_after (kept : point) (pts : list point) : list point :=
  match pts with
  | [] => []
  | pt :: rest =>
      if far pt kept then pt :: merge_after pt rest else merge_after kept rest
  end.

(** The merge pass on one loop: [loop = [orig_loop[0]]], then every point
    of [orig_loop], the first one included, is tested in turn. *)
Definition merge_loop (orig_loop : loop) : loop :=
  match orig_loop with
  | [] => []
  | p0 :: _ => p0 :: merge_after p0 orig_loop
  end.

(** The merge pass on [self.path]: empty loops are skipped. *)
Fixpoint merge_path (path : list loop) : list loop :=
  match path with
  | [] => []
  | [] :: rest => merge_path rest
  | orig_loop :: rest => merge_loop orig_loop :: merge_path rest
  end.

(** Truth value of a fill or stroke. *)
Definition truthy (p : paint) : bool :=
  match p with
  | NoPaint => false
  | GradientRef id => negb (is_empty id)
  | Color _ _ _ _ | Sentinel => true
  end.

(** [if path: ...] on a list. *)
Definition nonempty {A : Type} (l : list A) : bool :=
  match l with [] => false | _ => true end.

(** [bezier_coefficients] is empty, or is the table that [curve_to] builds
    for [bezier_points]: the two values it takes in a run of the parser. *)
Definition coefficients_ready (s : SVG) : Prop :=
  bezier_coefficients s = [] \/
  bezier_coefficients s =
    (fun i : Z => bernstein (IZR i / IZR (bezier_points s)))
      <$> range (bezier_points s + 1).

(** A method that leaves [last_cx] and [last_cy] as they are. *)
Definition keeps_control {A : Type} (m : M A) : Prop :=
  forall s r s', m s = (r, s') -> self_last_c s' = self_last_c s.

(** *** The element tree *)

(** An [xml.etree] element: tag, attributes, text and children. *)
#[warnings="-register-all"] Inductive element : Type :=
  | Element (tag : string) (attrib : gmap string string) (text : option string)
            (children : list element).

Definition tag (e : element) : string :=
  match e with Element t _ _ _ => t end.
Definition attrib (e : element) : gmap string string :=
  match e with Element _ a _ _ => a end.
Definition text (e : element) : option string :=
  match e with Element _ _ t _ => t end.
Definition getchildren (e : element) : list element :=
  match e with Element _ _ _ c => c end.

(** [e.get(key)]. *)
Definition e_get (e : element) (key : string) : option string := attrib e !! key.

(** [e.findtext(path)] for a tag name: the text of the first child with
    that tag, the empty string when it has none. *)
Definition findtext (e : element) (path : string) : option string :=
  match filter (fun c => tag c = path) (getchildren e) with
  | c :: _ => Some (default "" (text c))
  | [] => None
  end.

Definition xmlns : string := "http://www.w3.org/2000/svg".

(** [parse_float]. *)
Definition parse_float (txt : string) : result R :=
  if endswith txt "px" then py_float (drop_last (drop_last txt))
  else py_float txt.

(** *** Path data *)

Definition ascii_letters : string :=
  "abcdefghijklmnopqrstuvwxyzABCDEFGHIJKLMNOPQRSTUVWXYZ".

(** [t in s] on strings. *)
Fixpoint is_substring (t s : string) : bool :=
  String.prefix t s ||
  match s with
  | String _ r => is_substring t r
  | EmptyString => false
  end.

(** [pathdata.pop(0)]. *)
Definition pop (pathdata : list string) : result (string * list string) :=
  match pathdata with
  | t :: rest => Ok (t, rest)
  | [] => Raise IndexError
  end.

(** [float(pathdata.pop(0))]. *)
Definition pop_float (pathdata : list string) : result (R * list string) :=
  '(t, rest) ← pop pathdata; v ← py_float t; Ok (v, rest).

(** [int(pathdata.pop(0))]. *)
Definition pop_int (pathdata : list string) : result (Z * list string) :=
  '(t, rest) ← pop pathdata; v ← py_int 10 t; Ok (v, rest).

(** [pnext()]. *)
Definition pnext (pathdata : list string) : result (R * R * list string) :=
  '(a, rest) ← pop_float pathdata;
  '(b, rest) ← pop_float rest;
  Ok (a, b, rest).

(** [(2 * self.x - self.last_cx, 2 * self.y - self.last_cy)], the first
    control point of the [S] and [s] branches. *)
Definition smooth_control : M point :=
  s ← get;
  match self_last_c s with
  | Some (last_cx, last_cy) =>
      mret (2 * self_x s - last_cx, 2 * self_y s - last_cy)
  | None => lift (Raise AttributeError)
  end.

(** One turn of the [while pathdata] loop after [opcode] is settled: the
    branch taken for [opcode]; it returns the tokens left. *)
Definition path_command (opcode : string) (pathdata : list string)
  : M (list string) :=
  if String.eqb opcode "M" then
    '(x, y, rest) ← lift (pnext pathdata);
    _ ← set_position x y; mret rest
  else if String.eqb opcode "m" then
    '(mx, my, rest) ← lift (pnext pathdata);
    s ← get;
    _ ← set_position (self_x s + mx) (self_y s + my); mret rest
  else if String.eqb opcode "C" then
    '(x1, y1, rest) ← lift (pnext pathdata);
    '(x2, y2, rest) ← lift (pnext rest);
    '(x, y, rest) ← lift (pnext rest);
    _ ← curve_to x1 y1 x2 y2 x y; mret rest
  else if String.eqb opcode "c" then
    s ← get;
    let mx := self_x s in
    let my := self_y s in
    '(x1, y1, rest) ← lift (pnext pathdata);
    '(x2, y2, rest) ← lift (pnext rest);
    '(x, y, rest) ← lift (pnext rest);
    _ ← curve_to (mx + x1) (my + y1) (mx + x2) (my + y2) (mx + x) (my + y);
    mret rest
  else if String.eqb opcode "S" then
    '(x1, y1) ← smooth_control;
    '(x2, y2, rest) ← lift (pnext pathdata);
    '(x, y, rest) ← lift (pnext rest);
    _ ← curve_to x1 y1 x2 y2 x y; mret rest
  else if String.eqb opcode "s" then
    s ← get;
    let mx := self_x s in
    let my := self_y s in
    '(x1, y1) ← smooth_control;
    '(x2, y2, rest) ← lift (pnext pathdata);
    '(x, y, rest) ← lift (pnext rest);
    _ ← curve_to x1 y1 (mx + x2) (my + y2) (mx + x) (my + y); mret rest
  else if String.eqb opcode "A" then
    '(rx, ry, rest) ← lift (pnext pathdata);
    '(phi, rest) ← lift (pop_float rest);
    '(large_arc, rest) ← lift (pop_int rest);
    '(sweep, rest) ← lift (pop_int rest);
    '(x, y, rest) ← lift (pnext rest);
    _ ← arc_to rx ry phi large_arc sweep x y; mret rest
  else if is_substring opcode "zZ" then
    _ ← close_path; mret pathdata
  else if String.eqb opcode "L" then
    '(x, y, rest) ← lift (pnext pathdata);
    _ ← line_to x y; mret rest
  else if String.eqb opcode "l" then
    '(x, y, rest) ← lift (pnext pathdata);
    s ← get;
    _ ← line_to (self_x s + x) (self_y s + y); mret rest
  else if String.eqb opcode "H" then
    '(x, rest) ← lift (pop_float pathdata);
    s ← get;
    _ ← line_to x (self_y s); mret rest
  else if String.eqb opcode "h" then
    '(x, rest) ← lift (pop_float pathdata);
    s ← get;
    _ ← line_to (self_x s + x) (self_y s); mret rest
  else if String.eqb opcode "V" then
    '(y, rest) ← lift (pop_float pathdata);
    s ← get;
    _ ← line_to (self_x s) y; mret rest
  else if String.eqb opcode "v" then
    '(y, rest) ← lift (pop_float pathdata);
    s ← get;
    _ ← line_to (self_x s) (self_y s + y); mret rest
  else
    _ ← print (Warning ("Unrecognised opcode: " +:+ opcode)); mret pathdata.

(** The [while pathdata] loop.  A turn may leave the tokens as they are, so
    the loop need not end: [fuel] bounds the turns, and a run that uses it
    up is reported as [Loops], with the lines printed up to there. *)
Fixpoint path_loop (fuel : nat) (opcode : string) (pathdata : list string)
  : M unit :=
  match pathdata with
  | [] => mret tt
  | t :: rest =>
      match fuel with
      | O => lift Loops
      | S fuel' =>
          let '(opcode, pathdata) :=
            if is_substring t ascii_letters then (t, rest)
            else (opcode, pathdata) in
          pathdata ← path_command opcode pathdata;
          path_loop fuel' opcode pathdata
      end
  end.

(** The loop of the [polyline] and [polygon] branch,
    [while pathdata: self.line_to( *pnext())], with [pnext] written out:
    every turn pops two tokens. *)
Fixpoint points_loop (pathdata : list string) : M unit :=
  match pathdata with
  | [] => mret tt
  | a :: rest =>
      x ← lift (py_float a);
      match rest with
      | [] => lift (Raise IndexError)
      | b :: rest' =>
          y ← lift (py_float b);
          _ ← line_to x y;
          points_loop rest'
      end
  end.

(** *** Elements *)

(** [float(e.get(key))]. *)
Definition attr_float (e : element) (key : string) : result R :=
  py_float_opt (e_get e key).

(** [float(e.get(key, 1))]. *)
Definition attr_float_or_1 (e : element) (key : string) : result R :=
  match e_get e key with
  | Some v => py_float v
  | None => Ok 1
  end.

(** A call of [parse_color] from a method: its lines are printed. *)
Definition color (c : option string) (default : paint) : M paint :=
  fun s => let '(r, evs) := parse_color c default in
           (r, set_printed (printed s ++ evs) s).

(** [p[3] = int(self.opacity * channel_opacity * p[3])] when [p] is a list. *)
Definition scale_alpha (opacity channel_opacity : R) (p : paint) : paint :=
  match p with
  | Color r g b a => Color r g b (py_trunc (opacity * channel_opacity * IZR a))
  | _ => p
  end.

(** [if p == default: p = d]. *)
Definition or_default (d p : paint) : paint :=
  match p with Sentinel => d | _ => p end.

(** [if isinstance(stroke, list) and stroke[3] == 0: stroke = fill]. *)
Definition stroke_or_fill (stroke fill : paint) : paint :=
  match stroke with
  | Color _ _ _ 0 => fill
  | _ => stroke
  end.

(** [min(a, b)]. *)
Definition py_min (a b : R) : R := if decide (b < a) then b else a.

(** [try: body  except Exception: print(...); raise] around the parse of the
    element with tag [t]. *)
Definition guarded (t : string) (body : M unit) : M unit :=
  fun s =>
    match body s with
    | (Raise ex, s') => (Raise ex, set_printed (printed s' ++ [ElementException t]) s')
    | r => r
    end.

Section Externals.

(** The GLU tessellator behind [triangulate] and the classes of
    [squirtle.gradient] are outside these sources: [triangulate] is any
    method from a list of loops to a list of points, [register_gradient] any
    method standing for
    [self.gradients[e.get('id')] = LinearGradient(e, self)] ([true]) or the
    same with [RadialGradient] ([false]). *)
Variable triangulate : list loop -> M (list point).
Variable register_gradient : bool -> element -> M unit.

(** [end_path], with the constructor of [SvgPath]. *)
Definition end_path : M unit :=
  _ ← modify (fun s => set_self_path (self_path s ++ [self_loop s]) s);
  s ← get;
  _ ← (if nonempty (self_path s) then
         let path := merge_path (self_path s) in
         let stroke := self_stroke s in
         polygon ← (if truthy (self_fill s) then
                      tlist ← triangulate path; mret (Some tlist)
                    else mret None);
         s ← get;
         let path_object :=
           {| sp_path := if truthy stroke then path else [];
              sp_stroke := stroke;
              sp_polygon := polygon;
              sp_fill := self_fill s;
              sp_transform := mkMatrix (values (self_transform s));
              sp_id := path_id s;
              sp_title := path_title s;
              sp_description := path_description s |} in
         _ ← print (PathPrinted (sp_path path_object));
         modify (fun s => set_path_lookup (<[path_id s := path_object]> (path_lookup s))
                            (set_self_paths (self_paths s ++ [path_object]) s))
       else mret tt);
  modify (set_self_path []).

(** Lines 299 to 332 of [parse_element]: paints, opacity, identity and
    transform of the element.  Returns [(oldtransform, oldopacity)]. *)
Definition enter_element (e : element) : M (Matrix * R) :=
  fill ← color (e_get e "fill") Sentinel;
  _ ← modify (set_self_fill fill);
  stroke ← color (e_get e "stroke") Sentinel;
  _ ← modify (set_self_stroke stroke);
  s ← get;
  let oldopacity := self_opacity s in
  o ← lift (attr_float_or_1 e "opacity");
  _ ← modify (set_self_opacity (self_opacity s * o));
  fill_opacity ← lift (attr_float_or_1 e "fill-opacity");
  stroke_opacity ← lift (attr_float_or_1 e "stroke-opacity");
  _ ← modify (fun s =>
        set_path_description (findtext e ("{" +:+ xmlns +:+ "}desc"))
          (set_path_title (findtext e ("{" +:+ xmlns +:+ "}title"))
             (set_path_id (default "" (e_get e "id")) s)));
  s ← get;
  let oldtransform := self_transform s in
  own ← lift (init (match e_get e "transform" with
                    | Some t => ArgStr t
                    | None => ArgNone
                    end));
  t ← lift (mul (self_transform s) own);
  _ ← modify (set_self_transform t);
  '(fill_opacity, stroke_opacity) ←
    match e_get e "style" with
    | Some style =>
        if is_empty style then mret (fill_opacity, stroke_opacity)
        else
          sdict ← lift (parse_style style);
          _ ← match sdict !! "fill" with
              | Some v => fill ← color (Some v) NoPaint; modify (set_self_fill fill)
              | None => mret tt
              end;
          fill_opacity ←
            match sdict !! "fill-opacity" with
            | Some v => f ← lift (py_float v); mret (fill_opacity * f)
            | None => mret fill_opacity
            end;
          _ ← match sdict !! "stroke" with
              | Some v => stroke ← color (Some v) NoPaint; modify (set_self_stroke stroke)
              | None => mret tt
              end;
          stroke_opacity ←
            match sdict !! "stroke-opacity" with
            | Some v => f ← lift (py_float v); mret (stroke_opacity * f)
            | None => mret stroke_opacity
            end;
          mret (fill_opacity, stroke_opacity)
    | None => mret (fill_opacity, stroke_opacity)
    end;
  _ ← modify (fun s =>
        let fill := or_default (Color 0 0 0 255) (self_fill s) in
        let stroke := or_default (Color 0 0 0 0) (self_stroke s) in
        let stroke := scale_alpha (self_opacity s) stroke_opacity stroke in
        let fill := scale_alpha (self_opacity s) fill_opacity fill in
        set_self_stroke (stroke_or_fill stroke fill) (set_self_fill fill s));
  mret (oldtransform, oldopacity).

(** The [path] branch of [parse_element].  A turn of the loop that neither
    raises nor pops a token is a turn on an unrecognised opcode, which
    repeats for ever; [length pathdata] turns are enough for every other
    run. *)
Definition draw_path (e : element) : M unit :=
  let pathdata := parse_list (default "" (e_get e "d")) in
  _ ← new_path;
  _ ← path_loop (length pathdata) "" pathdata;
  end_path.

(** The [rect] branch. *)
Definition draw_rect (e : element) : M unit :=
  x ← lift (attr_float e "x");
  y ← lift (attr_float e "y");
  h ← lift (attr_float e "height");
  w ← lift (attr_float e "width");
  match e_get e "rx", e_get e "ry" with
  | None, None =>
      _ ← new_path;
      _ ← set_position x y;
      _ ← line_to (x + w) y;
      _ ← line_to (x + w) (y + h);
      _ ← line_to x (y + h);
      _ ← line_to x y;
      end_path
  | rx, ry =>
      let rx' := match rx with None => ry | _ => rx end in
      let ry' := match ry with None => rx' | _ => ry end in
      rx ← lift (py_float_opt rx');
      ry ← lift (py_float_opt ry');
      let rx := py_min rx (w / 2) in
      let ry := py_min ry (h / 2) in
      _ ← new_path;
      _ ← set_position x (y + ry);
      _ ← line_to x (y + h - ry);
      _ ← arc_to rx ry 0 0 0 (x + rx) (y + h);
      _ ← line_to (x + w - rx) (y + h);
      _ ← arc_to rx ry 0 0 0 (x + w) (y + h - ry);
      _ ← line_to (x + w) (y + ry);
      _ ← arc_to rx ry 0 0 0 (x + w - rx) y;
      _ ← line_to (x + rx) y;
      _ ← arc_to rx ry 0 0 0 x (y + ry);
      end_path
  end.

(** The [polyline] and [polygon] branch. *)
Definition draw_points (e : element) : M unit :=
  match e_get e "points" with
  | None => lift (Raise TypeError)
  | Some pts =>
      _ ← new_path;
      _ ← points_loop (parse_numbers pts);
      _ ← (if endswith (tag e) "polygon" then close_path else mret tt);
      end_path
  end.

(** The [line] branch. *)
Definition draw_line (e : element) : M unit :=
  x1 ← lift (attr_float e "x1");
  y1 ← lift (attr_float e "y1");
  x2 ← lift (attr_float e "x2");
  y2 ← lift (attr_float e "y2");
  _ ← new_path;
  _ ← set_position x1 y1;
  _ ← line_to x2 y2;
  end_path.

(** The loop shared by the [circle] and [ellipse] branches, then
    [close_path] and [end_path]. *)
Definition draw_round (cx cy rx ry : R) : M unit :=
  _ ← new_path;
  s ← get;
  _ ← for_each (range (circle_points s)) (fun i =>
         theta ← lift (py_div (2 * IZR i * PI) (IZR (circle_points s)));
         line_to (cx + rx * cos theta) (cy + ry * sin theta));
  _ ← close_path;
  end_path.

(** The [circle] branch. *)
Definition draw_circle (e : element) : M unit :=
  cx ← lift (attr_float e "cx");
  cy ← lift (attr_float e "cy");
  r ← lift (attr_float e "r");
  draw_round cx cy r r.

(** The [ellipse] branch. *)
Definition draw_ellipse (e : element) : M unit :=
  cx ← lift (attr_float e "cx");
  cy ← lift (attr_float e "cy");
  rx ← lift (attr_float e "rx");
  ry ← lift (attr_float e "ry");
  draw_round cx cy rx ry.

(** The chain of tests on [e.tag] of [parse_element]. *)
Definition draw_element (e : element) : M unit :=
  if endswith (tag e) "path" then draw_path e
  else if endswith (tag e) "rect" then draw_rect e
  else if endswith (tag e) "polyline" || endswith (tag e) "polygon" then draw_points e
  else if endswith (tag e) "line" then draw_line e
  else if endswith (tag e) "circle" then draw_circle e
  else if endswith (tag e) "ellipse" then draw_ellipse e
  else if endswith (tag e) "linearGradient" then register_gradient true e
  else if endswith (tag e) "radialGradient" then register_gradient false e
  else mret tt.

(** [parse_element]. *)
Fixpoint parse_element (e : element) : M unit :=
  '(oldtransform, oldopacity) ← enter_element e;
  _ ← draw_element e;
  _ ← match e with
      | Element _ _ _ children =>
          for_each children (fun c => guarded (tag c) (parse_element c))
      end;
  modify (fun s => set_self_opacity oldopacity (set_self_transform oldtransform s)).

(** The loop [for c in ...getchildren(): try: self.parse_element(c) ...] of
    [parse_element] and of [parse_doc]. *)
Definition parse_children (children : list element) : M unit :=
  for_each children (fun c => guarded (tag c) (parse_element c)).

(** [parse_doc] up to its loop: size of the document, root transform and
    opacity. *)
Definition doc_header (root : element) : M unit :=
  _ ← modify (set_self_paths []);
  width ← lift (parse_float (default "0" (e_get root "width")));
  _ ← modify (set_self_width width);
  height ← lift (parse_float (default "0" (e_get root "height")));
  _ ← modify (set_self_height height);
  s ← get;
  _ ← (if decide (height = 0) then
         match e_get root "viewBox" with
         | None => lift (Raise TypeError)
         | Some viewBox =>
             l ← lift (mapM parse_float (parse_list viewBox));
             match l with
             | [x; y; w; h] =>
                 _ ← modify (set_self_transform
                        (if invert_y s then mkMatrix [1; 0; 0; -1; 0; 0]
                         else mkMatrix [1; 0; 0; 1; 0; 0]));
                 _ ← modify (set_self_height h);
                 modify (set_self_width w)
             | _ => lift (Raise ValueError)
             end
         end
       else
         modify (set_self_transform
           (if invert_y s then mkMatrix [1; 0; 0; -1; 0; height]
            else mkMatrix [1; 0; 0; 1; 0; 0])));
  modify (set_self_opacity 1).

(** [parse_doc] on the root element of the tree. *)
Definition parse_doc (root : element) : M unit :=
  _ ← doc_header root;
  parse_children (getchildren root).

End Externals.

End SvgPy.

(** ** svg.py: [endCallback] of [triangulate] *)

Module TessPy.

(** The primitive kinds that the GLU tessellator announces. *)
Definition GL_TRIANGLES : Z := 4.
Definition GL_TRIANGLE_STRIP : Z := 5.
Definition GL_TRIANGLE_FAN : Z := 6.

(** The [while self.curr_shape] loop of the fan branch of [endCallback]. *)
Fixpoint fan_loop (c p1 : point) (curr_shape tlist : list point) : list point :=
  match curr_shape with
  | [] => tlist
  | p2 :: rest => fan_loop c p2 rest (tlist ++ [c; p1; p2])
  end.

(** The loop of the strip branch. *)
Fixpoint strip_loop (p1 p2 : point) (curr_shape tlist : list point) : list point :=
  match curr_shape with
  | [] => tlist
  | p3 :: rest => strip_loop p2 p3 rest (tlist ++ [p1; p2; p3])
  end.

(** [endCallback] of [triangulate], from [self.tess_style],
    [self.curr_shape] and [tlist]: the new [tlist] or the exception of
    [pop(0)], and the warning printed. *)
Definition end_callback (tess_style : Z) (curr_shape tlist : list point)
  : result (list point) * list event :=
  if (tess_style =? GL_TRIANGLE_FAN)%Z then
    match curr_shape with
    | c :: p1 :: rest => (Ok (fan_loop c p1 rest tlist), [])
    | _ => (Raise IndexError, [])
    end
  else if (tess_style =? GL_TRIANGLE_STRIP)%Z then
    match curr_shape with
    | p1 :: p2 :: rest => (Ok (strip_loop p1 p2 rest tlist), [])
    | _ => (Raise IndexError, [])
    end
  else if (tess_style =? GL_TRIANGLES)%Z then (Ok (tlist ++ curr_shape), [])
  else (Ok tlist,
        [Warning ("Unrecognised tesselation style: " +:+ pretty tess_style)]).

End TessPy.

(** ** Runs of the interpreter *)

Module Runs.
Import SvgPy.

(** The numbers of a [points] attribute, two by two. *)
Definition flat (vals : list point) : list R :=
  concat ((fun p : point => [p.1; p.2]) <$> vals).

(** The object after [line_to] on every point of [vals]. *)
Definition drawn (vals : list point) (s : SVG) : SVG :=
  match last vals with
  | Some (x, y) => set_self_loop (self_loop s ++ vals) (set_self_y y (set_self_x x s))
  | None => s
  end.

(** What a turn of the [while pathdata] loop may do on [pd] when it pops:
    it raises, or it returns strictly fewer tokens. *)
Definition pops (pd : list string) (out : result (list string) * SVG) : Prop :=
  match out with
  | (Ok pd', _) => (length pd' < length pd)%nat
  | (Raise _, _) => True
  | (Loops, _) => False
  end.

(** The turns of the loop on [pd] with opcode [o]: when the first token is
    no letter and [o] is a closing opcode, the loop is empty. *)
Definition closing_on_empty (o : string) (pd : list string) (s : SVG) : Prop :=
  match pd with
  | t :: _ =>
      is_substring t ascii_letters = false -> is_substring o "zZ" = true ->
      self_loop s = []
  | [] => True
  end.

(** The characters of the tokens, in order. *)
Definition token_chars (tokens : list string) : list ascii :=
  concat (String.list_ascii_of_string <$> tokens).

End Runs.

(** ** The binary64 reading of the arithmetic

    The same code over the binary64 numbers of the kernel: [+], [-], [*],
    [/] and [sqrt] are the correctly rounded operations of IEEE 754, as in
    Python.  A number written in decimal denotes the binary64 number nearest
    to it, which is what [float] returns for that text.  The values of a
    [Matrix] are taken to be floats, as they are when they come from an
    attribute; the integers of the default lists convert without error. *)

Module Binary64.
Import (notations) PrimFloat.

(** Python's [a / b] on floats: a zero divisor of either sign raises, a NaN
    divisor does not. *)
Definition py_div (a b : PrimFloat.float) : result PrimFloat.float :=
  if (b =? 0)%float then Raise ZeroDivisionError else Ok (a / b)%float.

(** [math.sqrt]: a negative number raises, NaN goes through. *)
Definition py_sqrt (a : PrimFloat.float) : result PrimFloat.float :=
  if (a <? 0)%float then Raise ValueError else Ok (PrimFloat.sqrt a).

(** [x ** 2], taken as the correctly rounded square; when the square of a
    finite [x] is beyond the largest float Python raises [OverflowError]. *)
Definition square (x : PrimFloat.float) : result PrimFloat.float :=
  let y := (x * x)%float in
  if PrimFloat.is_infinity y && negb (PrimFloat.is_infinity x)
  then Raise OverflowError else Ok y.

(** [Matrix.inverse] on the list of values. *)
Definition inverse (values : list PrimFloat.float) : result (list PrimFloat.float) :=
  match values with
  | v0 :: v1 :: v2 :: v3 :: rest =>
      let d := (v0 * v3 - v1 * v2)%float in
      q0 ← py_div v3 d;
      q1 ← py_div (- v1)%float d;
      q2 ← py_div (- v2)%float d;
      q3 ← py_div v0 d;
      match rest with
      | v4 :: v5 :: _ =>
          q4 ← py_div (v2 * v5 - v3 * v4)%float d;
          q5 ← py_div (v1 * v4 - v0 * v5)%float d;
          Ok [q0; q1; q2; q3; q4; q5]
      | _ => Raise IndexError
      end
  | _ => Raise IndexError
  end.

(** [Matrix.__mul__] on the lists of values. *)
Definition mul (values other : list PrimFloat.float) : result (list PrimFloat.float) :=
  match values with
  | [a; b; c; d; e; f] =>
      match other with
      | [u; v; w; x; y; z] =>
          Ok [a * u + c * v; b * u + d * v; a * w + c * x;
              b * w + d * x; a * y + c * z + e; b * y + d * z + f]%float
      | _ => Raise ValueError
      end
  | _ => Raise ValueError
  end.

(** The entries of [l1] and [l2] differ by at most [eps], one by one. *)
Definition within (eps : PrimFloat.float) (l1 l2 : list PrimFloat.float) : bool :=
  bool_decide (length l1 = length l2) &&
  forallb (fun pq => (PrimFloat.abs (pq.1 - pq.2) <=? eps)%float) (zip l1 l2).

(** The radicand of [arc_to] after [if r2 < 0: r2 = 0]. *)
Definition clamp_radicand (r2 : PrimFloat.float) : PrimFloat.float :=
  if (r2 <? 0)%float then 0%float else r2.

(** The argument that the local function [angle] of [arc_to] gives to
    [math.acos]. *)
Definition acos_argument (u v : PrimFloat.float * PrimFloat.float)
  : result PrimFloat.float :=
  let p := (u.1 * v.1 + u.2 * v.2)%float in
  u0 ← square u.1; u1 ← square u.2;
  v0 ← square v.1; v1 ← square v.2;
  n ← py_sqrt ((u0 + u1) * (v0 + v1))%float;
  py_div p n.

(** [math.acos] returns on [[-1, 1]] and on NaN; on every other argument it
    raises [ValueError]. *)
Definition acos_returns (a : PrimFloat.float) : bool :=
  negb (a <? -1)%float && negb (1 <? a)%float.

(** The call [angle(u, v)] as far as its exception goes: it returns or it
    raises. *)
Definition angle (u v : PrimFloat.float * PrimFloat.float) : result unit :=
  a ← acos_argument u v;
  if acos_returns a then Ok tt else Raise ValueError.


End Binary64.

(** ** Definitions that follow the wording of the specification *)

Module Spec.
Import PyStr.

(** "Each entry is split on the first [:]": the text before the first
    separator and the remainder after it; nothing without a separator. *)
Fixpoint split_first (sep : ascii) (s : string) : option (string * string) :=
  match s with
  | EmptyString => None
  | String a r =>
      if Ascii.eqb a sep then Some (EmptyString, r)
      else match split_first sep r with
           | Some (k, v) => Some (String a k, v)
           | None => None
           end
  end.

(** "The last occurrence of a duplicate key wins": the value that the
    entries give to [key], entries without a colon being ignored. *)
Fixpoint last_value (key : string) (entries : list string) : option string :=
  match entries with
  | [] => None
  | item :: rest =>
      match last_value key rest with
      | Some v => Some v
      | None =>
          match split_first ":" item with
          | Some (k, v) => if decide (k = key) then Some v else None
          | None => None
          end
      end
  end.

End Spec.

(** ** Sample documents *)

Module Samples.
Import SvgPy.

(** A fresh object with the default resolutions. *)
Definition fresh : SVG := new_SVG BEZIER_POINTS CIRCLE_POINTS false.

(** Stand-ins for the tessellator and the gradient classes. *)
Definition no_triangulate : list loop -> M (list point) := fun _ => mret [].
Definition no_gradient : bool -> element -> M unit := fun _ _ => mret tt.

(** An element without paint, opacity, transform or style attributes. *)
Definition plain (e : element) : Prop :=
  e_get e "fill" = None /\ e_get e "stroke" = None /\
  e_get e "opacity" = None /\ e_get e "fill-opacity" = None /\
  e_get e "stroke-opacity" = None /\ e_get e "transform" = None /\
  e_get e "style" = None.

(** [<rect/>]: no [x], [y], [width] or [height]. *)
Definition bad_rect : element := Element "rect" ∅ None [].

(** [<line x1="0" y1="0" x2="10" y2="0" stroke="#000000" fill="none"/>]. *)
Definition good_line : element :=
  Element "line" {[ "x1" := "0"; "y1" := "0"; "x2" := "10"; "y2" := "0";
                    "stroke" := "#000000"; "fill" := "none" ]} None [].

(** [<polygon points=""/>]. *)
Definition empty_polygon : element := Element "polygon" {[ "points" := "" ]} None [].

(** [<path d="Z"/>]. *)
Definition closing_path : element := Element "path" {[ "d" := "Z" ]} None [].

(** [<svg width="10" height="10">] around the given children. *)
Definition doc (children : list element) : element :=
  Element "svg" {[ "width" := "10"; "height" := "10" ]} None children.

End Samples.

(** ** More sample objects and elements *)

Module Cases.
Import SvgPy.

(** An object created with [bezier_points=0]. *)
Definition no_bezier : SVG := new_SVG 0 CIRCLE_POINTS false.

(** [<rect x="0" y="0" width="4" height="3"/>]. *)
Definition sized_rect : element :=
  Element "rect" {[ "x" := "0"; "y" := "0"; "width" := "4"; "height" := "3" ]} None [].

(** [<rect x="0" y="0" width="4" height="3" rx="0" ry="1"/>]. *)
Definition flat_rect : element :=
  Element "rect" {[ "x" := "0"; "y" := "0"; "width" := "4"; "height" := "3";
                    "rx" := "0"; "ry" := "1" ]} None [].

End Cases.

(** * Properties *)

Section MatrixFacts.
Import MatrixPy.
Import (notations) PrimFloat.

Lemma py_div_nonzero (a b : R) : b <> 0 -> py_div a b = Ok (a / b).
Proof. intros Hb. unfold py_div. destruct (decide (b = 0)); [contradiction | reflexivity]. Qed.

Lemma py_div_zero (a : R) : py_div a 0 = Raise ZeroDivisionError.
Proof. unfold py_div. destruct (decide (0 = 0)); [reflexivity | contradiction]. Qed.

Lemma inverse_nonzero (a b c d e f : R) :
  a * d - b * c <> 0 ->
  inverse (mkMatrix [a; b; c; d; e; f]) =
  Ok (mkMatrix [d / (a * d - b * c); - b / (a * d - b * c);
                - c / (a * d - b * c); a / (a * d - b * c);
                (c * f - d * e) / (a * d - b * c);
                (b * e - a * f) / (a * d - b * c)]).
Proof.
  intros Hd. unfold inverse. cbn [values].
  rewrite !py_div_nonzero by exact Hd. reflexivity.
Qed.

(** C2 (amended).  In exact arithmetic, for every transform
    [T = [a, b, c, d, e, f]] with [a*d - b*c] nonzero, [T.inverse()] returns
    and [T * T.inverse()] is exactly the identity [[1, 0, 0, 1, 0, 0]].  On
    binary64 numbers, [inverse()] returns the six rounded quotients when the
    determinant as the code computes it is not zero, and raises
    [ZeroDivisionError] when it is zero.  The product is then near the
    identity for some transforms and not for others: for
    [T = [2, 1, 1, 3, 5, 7]] its entries are within [2^-52] of those of the
    identity, and not all equal to them. *)
Theorem mul_inverse_identity (a b c d e f : R) :
  a * d - b * c <> 0 ->
  (exists Ti, inverse (mkMatrix [a; b; c; d; e; f]) = Ok Ti /\
              mul (mkMatrix [a; b; c; d; e; f]) Ti = Ok identity) /\
  (forall v0 v1 v2 v3 v4 v5 : PrimFloat.float,
     Binary64.inverse [v0; v1; v2; v3; v4; v5] =
     if (v0 * v3 - v1 * v2 =? 0)%float then Raise ZeroDivisionError
     else Ok [v3 / (v0 * v3 - v1 * v2); - v1 / (v0 * v3 - v1 * v2);
              - v2 / (v0 * v3 - v1 * v2); v0 / (v0 * v3 - v1 * v2);
              (v2 * v5 - v3 * v4) / (v0 * v3 - v1 * v2);
              (v1 * v4 - v0 * v5) / (v0 * v3 - v1 * v2)]%float) /\
  (exists Ti P,
     Binary64.inverse [2; 1; 1; 3; 5; 7]%float = Ok Ti /\
     Binary64.mul [2; 1; 1; 3; 5; 7]%float Ti = Ok P /\
     Binary64.within 0x1p-52 P [1; 0; 0; 1; 0; 0]%float = true /\
     Binary64.within 0 P [1; 0; 0; 1; 0; 0]%float = false).
Proof.
  intros Hd. split; [ | split].
  - eexists. split.
    + apply inverse_nonzero. exact Hd.
    + unfold mul, identity. cbn [values]. do 2 f_equal.
      repeat (apply (f_equal2 cons); [field; exact Hd | ]). reflexivity.
  - intros v0 v1 v2 v3 v4 v5. unfold Binary64.inverse, Binary64.py_div.
    destruct (v0 * v3 - v1 * v2 =? 0)%float; reflexivity.
  - do 2 eexists. split; [vm_compute; reflexivity | ].
    split; [vm_compute; reflexivity | ].
    split; vm_compute; reflexivity.
Qed.

Lemma mul_inverse_identity_witness :
  2 * 3 - 1 * 1 <> 0 /\
  exists Ti, inverse (mkMatrix [2; 1; 1; 3; 5; 7]) = Ok Ti /\
             mul (mkMatrix [2; 1; 1; 3; 5; 7]) Ti = Ok identity.
Proof.
  split; [lra | apply (mul_inverse_identity 2 1 1 3 5 7); lra].
Defined.

(** On binary64 numbers the product need not be near the identity, and
    [inverse()] need not return.  For [T = [3e-162, 0, 0, 3e-162, 0, 0]] the
    computed determinant is the subnormal [1e-323], not zero; [inverse()]
    returns and the first entry of [T * T.inverse()] is [0.91...], below
    [0.92].  For [T = [1 + 2^-52, 1, 1, 1 - 2^-52, 0, 0]], whose determinant
    is [- 2^-104], the computed determinant is zero and [inverse()] raises
    [ZeroDivisionError]. *)
#[warnings="-inexact-float"] Example inverse_product_off :
  ((3e-162 * 3e-162 - 0 * 0 =? 0)%float = false /\
   exists Ti p rest,
     Binary64.inverse [3e-162; 0; 0; 3e-162; 0; 0]%float = Ok Ti /\
     Binary64.mul [3e-162; 0; 0; 3e-162; 0; 0]%float Ti = Ok (p :: rest) /\
     (p <? 0.92)%float = true) /\
  Binary64.inverse [1 + 0x1p-52; 1; 1; 1 - 0x1p-52; 0; 0]%float
    = Raise ZeroDivisionError.
Proof.
  split; [split; [vm_compute; reflexivity | ] | vm_compute; reflexivity].
  do 3 eexists. split; [vm_compute; reflexivity | ].
  split; vm_compute; reflexivity.
Qed.

Example inverse_singular_example :
  inverse (mkMatrix [1; 2; 2; 4; 0; 0]) = Raise ZeroDivisionError /\
  ~ (exists Ti, inverse (mkMatrix [1; 2; 2; 4; 0; 0]) = Ok Ti).
Proof.
  assert (H : inverse (mkMatrix [1; 2; 2; 4; 0; 0]) = Raise ZeroDivisionError).
  { unfold inverse. cbn [values].
    replace (1 * 4 - 2 * 2) with 0 by lra. rewrite (py_div_zero 4). reflexivity. }
  split; [exact H | ]. intros [Ti HTi]. rewrite H in HTi. discriminate.
Qed.

(** C4 (amended).  For every matrix with at least four values whose
    determinant [a*d - b*c] is zero, [inverse()] raises
    [ZeroDivisionError]: no fallback value is returned. *)
Theorem inverse_singular_raises (a b c d : R) (rest : list R) :
  a * d - b * c = 0 ->
  inverse (mkMatrix (a :: b :: c :: d :: rest)) = Raise ZeroDivisionError.
Proof.
  intros Hd. unfold inverse. cbn [values]. rewrite Hd, (py_div_zero d). reflexivity.
Qed.

Lemma inverse_singular_raises_witness :
  1 * 4 - 2 * 2 = 0 /\
  inverse (mkMatrix [1; 2; 2; 4; 5; 6]) = Raise ZeroDivisionError.
Proof.
  split; [lra | apply (inverse_singular_raises 1 2 2 4 [5; 6]); lra].
Defined.

End MatrixFacts.

(** ** parse.py *)

Section ParseFacts.
Import PyStr ParsePy Spec.

(** C3.  [parse_color] looks at [c[0]] after [c.strip()] and before its
    [try] block: on every non-empty string of whitespace only it raises
    [IndexError], whatever the default, and prints nothing. *)
Theorem parse_color_blank_raises (c : string) (default : paint) :
  c <> EmptyString -> strip c = EmptyString ->
  parse_color (Some c) default = (Raise IndexError, []).
Proof.
  intros Hne Hblank. unfold parse_color.
  destruct c as [ | a r]; [contradiction | ]. cbn [is_empty].
  destruct (String.eqb_spec (String a r) "none") as [Hnone | _].
  - rewrite Hnone in Hblank. vm_compute in Hblank. discriminate.
  - rewrite Hblank. reflexivity.
Qed.

Lemma parse_color_blank_raises_witness :
  " " <> EmptyString /\ strip " " = EmptyString /\
  parse_color (Some " ") Sentinel = (Raise IndexError, []).
Proof.
  assert (Hne : " " <> EmptyString) by discriminate.
  assert (Hblank : strip " " = EmptyString) by reflexivity.
  split; [exact Hne | ]. split; [exact Hblank | ].
  exact (parse_color_blank_raises " " Sentinel Hne Hblank).
Defined.

Lemma bind_not_loops {A B : Type} (m : result A) (k : A -> result B) :
  m <> Loops -> (forall a, k a <> Loops) -> m ≫= k <> Loops.
Proof. intros Hm Hk. destruct m; cbn; [apply Hk | discriminate | contradiction]. Qed.

Lemma py_int_not_loops (base : Z) (x : string) : py_int base x <> Loops.
Proof.
  unfold py_int. cbv zeta.
  match goal with |- context [match ?o with Some _ => _ | None => _ end] =>
    destruct o end; discriminate.
Qed.

Lemma mapM_not_loops {A B : Type} (f : A -> result B) (l : list A) :
  (forall a, f a <> Loops) -> mapM f l <> Loops.
Proof.
  intros Hf. induction l as [ | a l IH]; cbn; [discriminate | ].
  apply bind_not_loops; [apply Hf | intros b].
  apply bind_not_loops; [exact IH | discriminate].
Qed.

Lemma color_body_not_loops (c : string) : color_body c <> Loops.
Proof.
  unfold color_body.
  repeat match goal with
         | |- (if ?g then _ else _) <> _ => destruct g
         | |- _ ≫= _ <> _ => apply bind_not_loops; [ | intros ?]
         | |- py_int _ _ <> _ => apply py_int_not_loops
         | |- mapM _ _ <> _ => apply mapM_not_loops; intros ?
         | |- match ?l with [] => _ | _ :: _ => _ end <> _ =>
             destruct l as [ | ? [ | ? [ | ? [ | ? ?]]]]
         | |- _ => discriminate
         end.
Qed.

(** Outside that case [parse_color] returns: every exception of the [try]
    block is turned into [None] and one printed line. *)
Lemma parse_color_returns (c : string) (default : paint) :
  strip c <> EmptyString ->
  exists p evs, parse_color (Some c) default = (Ok p, evs).
Proof.
  intros Hc. unfold parse_color.
  destruct (is_empty c); [eauto | ].
  destruct (String.eqb c "none"); [eauto | ].
  destruct (strip c) as [ | c0 rest]; [contradiction | ].
  destruct (color_body _) eqn:E; [eauto | eauto | ].
  exfalso. exact (color_body_not_loops _ E).
Qed.

Lemma count_zero (c : ascii) (s : string) :
  count c s = 0%nat ->
  contains c s = false /\ split_first c s = None.
Proof.
  induction s as [ | a r IH]; cbn; [auto | ].
  destruct (Ascii.eqb a c); [discriminate | ].
  intros H. destruct (IH H) as [-> ->]. auto.
Qed.

Lemma contains_count (c : ascii) (s : string) :
  contains c s = true <-> (1 <= count c s)%nat.
Proof.
  induction s as [ | a r IH]; cbn.
  - split; [discriminate | lia].
  - destruct (Ascii.eqb a c); [split; [lia | reflexivity] | exact IH].
Qed.

Lemma split_no_sep (c : ascii) (s : string) :
  count c s = 0%nat -> split c s = [s].
Proof.
  induction s as [ | a r IH]; cbn; [reflexivity | ].
  destruct (Ascii.eqb a c); [discriminate | ].
  intros H. rewrite (IH H). reflexivity.
Qed.

Lemma count_one (c : ascii) (s : string) :
  count c s = 1%nat ->
  exists k v, split c s = [k; v] /\ split_first c s = Some (k, v).
Proof.
  induction s as [ | a r IH]; cbn; [discriminate | ].
  destruct (Ascii.eqb a c).
  - intros H. exists EmptyString, r. rewrite split_no_sep by lia. auto.
  - intros H. destruct (IH H) as (k & v & -> & ->). eauto.
Qed.

Lemma split_length (c : ascii) (s : string) :
  length (split c s) = S (count c s).
Proof.
  induction s as [ | a r IH]; cbn; [reflexivity | ].
  destruct (Ascii.eqb a c); cbn; [rewrite IH; reflexivity | ].
  destruct (split c r); cbn in *; lia.
Qed.

(** An entry with two colons or more stops [parse_style] on the unpacking
    [key, value = item.split(':')]. *)
Lemma style_item_many_colons (sdict : gmap string string) (item : string) :
  (2 <= count ":" item)%nat -> style_item sdict item = Raise ValueError.
Proof.
  intros H. unfold style_item.
  assert (Hc : contains ":" item = true) by (apply contains_count; lia).
  rewrite Hc. pose proof (split_length ":" item) as Hl.
  destruct (split ":" item) as [ | ? [ | ? [ | ? ?]]]; cbn in Hl; try reflexivity; lia.
Qed.

Lemma style_items_spec (items : list string) :
  Forall (fun item => (count ":" item <= 1)%nat) items ->
  forall sdict : gmap string string,
  exists sdict', style_items sdict items = Ok sdict' /\
    forall key, sdict' !! key =
      match last_value key items with
      | Some v => Some v
      | None => sdict !! key
      end.
Proof.
  induction 1 as [ | item rest Hitem Hrest IH]; intros sdict; cbn.
  - eauto.
  - destruct (Nat.eq_dec (count ":" item) 0%nat) as [H0 | H0].
    + destruct (count_zero _ _ H0) as [Hc Hs].
      unfold style_item. rewrite Hc. cbn.
      destruct (IH sdict) as (sdict' & -> & Hl). eexists; split; [reflexivity | ].
      intros key. rewrite Hl, Hs. destruct (last_value key rest); reflexivity.
    + destruct (count_one ":" item ltac:(lia)) as (k & v & Hsp & Hs).
      unfold style_item.
      rewrite (proj2 (contains_count ":" item)) by lia. rewrite Hsp. cbn.
      destruct (IH (<[k := v]> sdict)) as (sdict' & -> & Hl).
      eexists; split; [reflexivity | ].
      intros key. rewrite Hl, Hs.
      destruct (last_value key rest); [reflexivity | ].
      destruct (decide (k = key)) as [-> | Hne].
      * apply lookup_insert_eq.
      * apply lookup_insert_ne. exact Hne.
Qed.

Lemma style_item_outcome (sdict : gmap string string) (item : string) :
  (exists sdict', style_item sdict item = Ok sdict') \/
  style_item sdict item = Raise ValueError.
Proof.
  unfold style_item. destruct (contains ":" item); [ | eauto].
  destruct (split ":" item) as [ | ? [ | ? [ | ? ?]]]; eauto.
Qed.

Lemma style_items_many_colons (items : list string) :
  Exists (fun item => (2 <= count ":" item)%nat) items ->
  forall sdict, style_items sdict items = Raise ValueError.
Proof.
  induction 1 as [item rest Hitem | item rest Hrest IH]; intros sdict; cbn.
  - rewrite style_item_many_colons by exact Hitem. reflexivity.
  - destruct (style_item_outcome sdict item) as [[sdict' ->] | ->]; cbn; auto.
Qed.

Lemma split_first_some (item : string) :
  (1 <= count ":" item)%nat -> exists k v, split_first ":" item = Some (k, v).
Proof.
  induction item as [ | a r IH]; cbn [count split_first]; [lia | ].
  destruct (Ascii.eqb a ":") eqn:E; [eauto | ].
  intros H. destruct (IH H) as (k & v & ->). eauto.
Qed.

(** C6 (code bug).  An entry with a second colon, as when the value holds
    a colon of its own, is not split at its first colon: the two-name
    unpacking of [item.split(':')] raises [ValueError] and [parse_style]
    returns no map at all, whatever the other entries are, although the
    entry does split at its first colon into a key and a remainder. *)
Theorem parse_style_colon_in_value (s item : string) :
  In item (split ";" s) -> (2 <= count ":" item)%nat ->
  parse_style s = Raise ValueError /\
  exists key value, split_first ":" item = Some (key, value).
Proof.
  intros Hin Hc. split.
  - apply style_items_many_colons. apply Exists_exists. exists item.
    split; [apply list_elem_of_In; exact Hin | exact Hc].
  - apply split_first_some. lia.
Qed.

Lemma parse_style_colon_in_value_witness :
  parse_style "fill:none;filter:url(data:x)" = Raise ValueError /\
  split_first ":" "filter:url(data:x)" = Some ("filter", "url(data:x)").
Proof.
  destruct (parse_style_colon_in_value "fill:none;filter:url(data:x)"
              "filter:url(data:x)") as [Hr _].
  - right. left. reflexivity.
  - vm_compute. lia.
  - split; [exact Hr | reflexivity].
Defined.

End ParseFacts.

(** ** svg.py: the merge pass of [end_path] *)

Section MergeFacts.
Import SvgPy.

Lemma far_self (p : point) : far p p = false.
Proof.
  unfold far. apply bool_decide_eq_false. unfold TOLERANCE.
  replace ((p.1 - p.1) ^ 2 + (p.2 - p.2) ^ 2) with 0 by ring. lra.
Qed.

Lemma merge_after_idempotent (pts : list point) :
  forall kept, merge_after kept (merge_after kept pts) = merge_after kept pts.
Proof.
  induction pts as [ | pt rest IH]; intros kept; cbn; [reflexivity | ].
  destruct (far pt kept) eqn:Hfar.
  - cbn. rewrite Hfar, IH. reflexivity.
  - apply IH.
Qed.

Lemma merge_loop_cons (p0 : point) (rest : list point) :
  merge_loop (p0 :: rest) = p0 :: merge_after p0 rest.
Proof. cbn. rewrite far_self. reflexivity. Qed.

Lemma merge_loop_idempotent (orig_loop : loop) :
  merge_loop (merge_loop orig_loop) = merge_loop orig_loop.
Proof.
  destruct orig_loop as [ | p0 rest]; [reflexivity | ].
  rewrite !merge_loop_cons, merge_after_idempotent. reflexivity.
Qed.

(** C9.  The merge pass of [end_path] is idempotent, on a single loop and
    on a whole path: run on its own result it removes no further point. *)
Theorem merge_pass_idempotent :
  (forall orig_loop : loop,
     merge_loop (merge_loop orig_loop) = merge_loop orig_loop) /\
  (forall path : list loop,
     merge_path (merge_path path) = merge_path path).
Proof.
  split; [exact merge_loop_idempotent | ].
  induction path as [ | l rest IH]; [reflexivity | ].
  destruct l as [ | p0 l]; [exact IH | ].
  change (merge_path ((p0 :: l) :: rest))
    with (merge_loop (p0 :: l) :: merge_path rest).
  rewrite merge_loop_cons.
  change (merge_path ((p0 :: merge_after p0 l) :: merge_path rest))
    with (merge_loop (p0 :: merge_after p0 l) :: merge_path (merge_path rest)).
  rewrite IH, merge_loop_cons, merge_after_idempotent. reflexivity.
Qed.

End MergeFacts.

(** ** svg.py: running methods *)

Lemma run_bind {A B : Type} (m : SvgPy.M A) (k : A -> SvgPy.M B) (s : SvgPy.SVG) :
  (m ≫= k) s =
  match m s with
  | (Ok a, s') => k a s'
  | (Raise e, s') => (Raise e, s')
  | (Loops, s') => (Loops, s')
  end.
Proof. reflexivity. Qed.

Lemma set_printed_same (s : SvgPy.SVG) :
  SvgPy.set_printed (SvgPy.printed s ++ []) s = s.
Proof. destruct s. unfold SvgPy.set_printed. cbn. rewrite app_nil_r. reflexivity. Qed.

Lemma color_silent (c : option string) (default p : paint) (s : SvgPy.SVG) :
  ParsePy.parse_color c default = (Ok p, []) -> SvgPy.color c default s = (Ok p, s).
Proof. intros H. unfold SvgPy.color. rewrite H, set_printed_same. reflexivity. Qed.

Lemma py_float_literal (s : string) (m e : Z) :
  PyStr.float_literal s = Some (m, e) -> PyStr.py_float s = Ok (PyStr.dec_value m e).
Proof. intros H. unfold PyStr.py_float. rewrite H. reflexivity. Qed.

Lemma dec_value_int (m : Z) : PyStr.dec_value m 0 = IZR m.
Proof. unfold PyStr.dec_value. cbn. rewrite Z.mul_1_r. reflexivity. Qed.

Lemma py_trunc_IZR (z : Z) : (0 <= z)%Z -> py_trunc (IZR z) = z.
Proof.
  intros Hz. unfold py_trunc.
  destruct (decide (0 <= IZR z)) as [_ | Hn]; [ | exfalso; apply Hn, IZR_le, Hz].
  unfold Int_part. rewrite <- (up_tech (IZR z) z); [lia | lra | ].
  rewrite plus_IZR. lra.
Qed.

Lemma decide_eq_false (a : R) :
  a <> 0 -> forall (A : Type) (x y : A), (if decide (a = 0) then x else y) = y.
Proof. intros H A x y. destruct (decide (a = 0)); [contradiction | reflexivity]. Qed.

Import PyStr ParsePy MatrixPy SvgPy Samples.

(** Unfolds the glue of [M], the attribute reads and the assignments. *)
Ltac mcbn :=
  cbn [mret M_ret get modify lift print fst snd
       bezier_points circle_points invert_y bezier_coefficients self_x self_y
       self_last_c self_loop self_path self_paths path_lookup self_transform
       self_opacity self_fill self_stroke path_id path_title path_description
       self_width self_height printed
       set_bezier_coefficients set_self_x set_self_y set_self_last_c
       set_self_loop set_self_path set_self_paths set_path_lookup
       set_self_transform set_self_opacity set_self_fill set_self_stroke
       set_path_id set_path_title set_path_description set_self_width
       set_self_height set_printed].

(** Runs a method as far as the state and the values at hand determine. *)
Ltac mrun :=
  repeat (first [ rewrite run_bind
                | match goal with
                  | |- context [color ?c ?d ?s] =>
                      rewrite (color_silent c d _ s) by (vm_compute; reflexivity)
                  end
                | progress mcbn ]).

(** Replaces a closed term without reals by its value. *)
Ltac evaluate t :=
  let v := eval vm_compute in t in
  replace t with v by (vm_compute; reflexivity).

(** Evaluates the attribute reads and tag tests of the element [e]. *)
Ltac eval_attrs e :=
  repeat match goal with
         | |- context [e_get e ?k] => evaluate (e_get e k)
         | |- context [endswith (tag e) ?k] => evaluate (endswith (tag e) k)
         end.

(** Evaluates [py_float] on the string literals of the goal. *)
Ltac eval_floats :=
  repeat match goal with
         | |- context [py_float ?s] =>
             let r := eval vm_compute in (float_literal s) in
             lazymatch r with
             | Some (?m, ?e) =>
                 rewrite (py_float_literal s m e) by (vm_compute; reflexivity)
             end
         end;
  rewrite ?dec_value_int.

Section InterpFacts.
Variable triangulate : list loop -> M (list point).
Variable register_gradient : bool -> element -> M unit.

#[local] Abbreviation parse_element' := (parse_element triangulate register_gradient).
#[local] Abbreviation parse_children' := (parse_children triangulate register_gradient).
#[local] Abbreviation parse_doc' := (parse_doc triangulate register_gradient).
#[local] Abbreviation draw_element' := (draw_element triangulate register_gradient).

Lemma close_path_empty (s : SVG) :
  self_loop s = [] -> close_path s = (Raise IndexError, s).
Proof. intros H. unfold close_path. mrun. rewrite H. reflexivity. Qed.

Lemma guarded_raise (t : string) (body : M unit) (s s' : SVG) (ex : exn) :
  body s = (Raise ex, s') ->
  guarded t body s = (Raise ex, set_printed (printed s' ++ [ElementException t]) s').
Proof. intros H. unfold guarded. rewrite H. reflexivity. Qed.

Lemma parse_children_cons (c : element) (rest : list element) :
  parse_children' (c :: rest) =
  (_ ← guarded (tag c) (parse_element' c); parse_children' rest).
Proof. reflexivity. Qed.

Lemma parse_element_unfold (e : element) :
  parse_element' e =
  ('(oldtransform, oldopacity) ← enter_element e;
   _ ← draw_element' e;
   _ ← parse_children' (getchildren e);
   modify (fun s => set_self_opacity oldopacity (set_self_transform oldtransform s))).
Proof. destruct e. reflexivity. Qed.

(** The loop over children stops at the first child whose parse raises:
    one line is printed for it and the exception goes on to the caller. *)
Lemma parse_children_raise (pre post : list element) (c : element) (ex : exn) :
  forall s s1 s2 : SVG,
  parse_children' pre s = (Ok tt, s1) ->
  parse_element' c s1 = (Raise ex, s2) ->
  parse_children' (pre ++ c :: post) s =
  (Raise ex, set_printed (printed s2 ++ [ElementException (tag c)]) s2).
Proof.
  induction pre as [ | p pre IH]; intros s s1 s2 Hpre Hc.
  - cbn in Hpre. injection Hpre as <-. cbn [app].
    rewrite parse_children_cons, run_bind, (guarded_raise _ _ _ _ _ Hc). reflexivity.
  - cbn [app]. rewrite parse_children_cons, run_bind in Hpre |- *.
    destruct (guarded (tag p) (parse_element' p) s) as [[[] | | ] s'] eqn:Hp;
      try discriminate.
    exact (IH _ _ _ Hpre Hc).
Qed.

(** A failure below an element leaves through that element too. *)
Lemma parse_element_reraises (e c : element) (pre post : list element) (ex : exn)
    (s sa s0 s1 s2 : SVG) (old : Matrix * R) :
  enter_element e s = (Ok old, sa) ->
  draw_element' e sa = (Ok tt, s0) ->
  getchildren e = pre ++ c :: post ->
  parse_children' pre s0 = (Ok tt, s1) ->
  parse_element' c s1 = (Raise ex, s2) ->
  parse_element' e s =
  (Raise ex, set_printed (printed s2 ++ [ElementException (tag c)]) s2).
Proof.
  intros He Hd Hch Hpre Hc. rewrite parse_element_unfold, run_bind, He.
  destruct old as [oldtransform oldopacity].
  rewrite run_bind, Hd, run_bind, Hch, (parse_children_raise _ _ _ _ _ _ _ Hpre Hc).
  reflexivity.
Qed.

(** C1 (amended).  When the parse of a child [c] of the root raises, after
    the children before it were parsed, [parse_doc] prints one line for [c]
    and raises the same exception: the children after [c] are not parsed,
    and the object is left as the failing parse left it. *)
Theorem parse_doc_reraises (root c : element) (pre post : list element) (ex : exn)
    (s s0 s1 s2 : SVG) :
  doc_header root s = (Ok tt, s0) ->
  getchildren root = pre ++ c :: post ->
  parse_children' pre s0 = (Ok tt, s1) ->
  parse_element' c s1 = (Raise ex, s2) ->
  parse_doc' root s =
  (Raise ex, set_printed (printed s2 ++ [ElementException (tag c)]) s2).
Proof.
  intros Hh Hch Hpre Hc. unfold parse_doc.
  rewrite run_bind, Hh, Hch. exact (parse_children_raise _ _ _ _ _ _ _ Hpre Hc).
Qed.

Lemma doc_header_doc (children : list element) :
  exists s0, doc_header (doc children) fresh = (Ok tt, s0) /\
    values (self_transform s0) = [1; 0; 0; 1; 0; 0] /\
    self_paths s0 = [] /\ printed s0 = [] /\ self_opacity s0 = 1.
Proof.
  unfold doc_header.
  evaluate (default "0" (e_get (doc children) "width")).
  evaluate (default "0" (e_get (doc children) "height")).
  unfold parse_float.
  evaluate (endswith "10" "px"). eval_floats.
  mrun. rewrite decide_eq_false by lra. mrun.
  eexists. split; [reflexivity | ]. mcbn. auto.
Qed.

Lemma enter_element_plain (e : element) (s : SVG) (a b c d e0 f : R) :
  plain e ->
  values (self_transform s) = [a; b; c; d; e0; f] ->
  exists s', enter_element e s = (Ok (self_transform s, self_opacity s), s') /\
    self_paths s' = self_paths s /\ printed s' = printed s.
Proof.
  intros (Hf & Hs & Ho & Hfo & Hso & Ht & Hst) Hv.
  unfold enter_element, attr_float_or_1.
  rewrite Hf, Hs, Ho, Hfo, Hso, Ht, Hst.
  mrun. unfold init, mul, identity. rewrite Hv. cbn [values]. mrun.
  eexists. split; [reflexivity | ]. mcbn. auto.
Qed.

Lemma draw_rect_no_x (e : element) (s : SVG) :
  e_get e "x" = None -> draw_rect triangulate e s = (Raise TypeError, s).
Proof. intros H. unfold draw_rect, attr_float. rewrite H. reflexivity. Qed.

Lemma parse_bad_rect (s : SVG) (a b c d e0 f : R) :
  values (self_transform s) = [a; b; c; d; e0; f] ->
  exists s', parse_element' bad_rect s = (Raise TypeError, s') /\
    self_paths s' = self_paths s /\ printed s' = printed s.
Proof.
  intros Hv.
  destruct (enter_element_plain bad_rect s a b c d e0 f) as (s' & He & Hp & Hpr);
    [repeat split; vm_compute; reflexivity | exact Hv | ].
  exists s'. rewrite parse_element_unfold, run_bind, He, run_bind.
  unfold draw_element. eval_attrs bad_rect.
  rewrite draw_rect_no_x by (vm_compute; reflexivity). auto.
Qed.

Lemma far_true (p q : point) :
  TOLERANCE < (p.1 - q.1) ^ 2 + (p.2 - q.2) ^ 2 -> far p q = true.
Proof. intros H. unfold far. apply bool_decide_eq_true. exact H. Qed.

Lemma parse_good_line (s : SVG) (a b c d e0 f : R) :
  values (self_transform s) = [a; b; c; d; e0; f] ->
  self_opacity s = 1 ->
  exists s' p, parse_element' good_line s = (Ok tt, s') /\
    self_paths s' = self_paths s ++ [p] /\ sp_path p = [[(0, 0); (10, 0)]].
Proof.
  intros Hv Ho. rewrite parse_element_unfold.
  unfold enter_element, attr_float_or_1. eval_attrs good_line.
  mrun. unfold init, mul, identity. rewrite Hv, Ho. cbn [values]. mrun.
  cbn [or_default scale_alpha stroke_or_fill].
  replace (1 * 1 * 1 * 255) with (IZR 255) by lra.
  rewrite py_trunc_IZR by lia. cbn [stroke_or_fill].
  unfold draw_element. eval_attrs good_line. cbn [orb].
  unfold draw_line, attr_float. eval_attrs good_line. cbn [py_float_opt]. eval_floats.
  mrun. unfold new_path, line_to, set_position. mrun.
  unfold end_path. mrun. cbn [app nonempty truthy merge_path merge_loop merge_after].
  rewrite far_self, far_true by (unfold TOLERANCE; cbn [fst snd]; lra).
  mrun. cbn [getchildren good_line]. unfold parse_children, for_each. mrun.
  do 2 eexists. split; [reflexivity | ]. mcbn. split; reflexivity.
Qed.

End InterpFacts.

Lemma parse_doc_reraises_witness :
  exists s0 s2,
    doc_header (doc [bad_rect; good_line]) fresh = (Ok tt, s0) /\
    getchildren (doc [bad_rect; good_line]) = [] ++ bad_rect :: [good_line] /\
    parse_children no_triangulate no_gradient [] s0 = (Ok tt, s0) /\
    parse_element no_triangulate no_gradient bad_rect s0 = (Raise TypeError, s2) /\
    parse_doc no_triangulate no_gradient (doc [bad_rect; good_line]) fresh =
    (Raise TypeError, set_printed (printed s2 ++ [ElementException (tag bad_rect)]) s2).
Proof.
  destruct (doc_header_doc [bad_rect; good_line]) as (s0 & Hh & Hv & _).
  destruct (parse_bad_rect no_triangulate no_gradient s0 _ _ _ _ _ _ Hv)
    as (s2 & Hc & _).
  exists s0, s2.
  refine (conj Hh (conj eq_refl (conj eq_refl (conj Hc _)))).
  exact (parse_doc_reraises no_triangulate no_gradient _ _ [] [good_line] _ _ _ _ _
           Hh eq_refl eq_refl Hc).
Defined.

(** A document of a malformed [rect] followed by a well-formed [line]:
    [parse_doc] raises and [self.paths] stays empty, although the [line]
    alone parses to one path. *)
Example containment_fails :
  fst (parse_doc no_triangulate no_gradient (doc [bad_rect; good_line]) fresh)
    = Raise TypeError /\
  self_paths (snd (parse_doc no_triangulate no_gradient
                     (doc [bad_rect; good_line]) fresh)) = [] /\
  exists s', parse_doc no_triangulate no_gradient (doc [good_line]) fresh = (Ok tt, s') /\
             length (self_paths s') = 1%nat.
Proof.
  destruct (doc_header_doc [bad_rect; good_line]) as (s0 & Hh & Hv & Hp & _).
  destruct (parse_bad_rect no_triangulate no_gradient s0 _ _ _ _ _ _ Hv)
    as (s2 & Hc & Hp2 & _).
  unfold parse_doc at 1 2. rewrite run_bind, Hh. cbn [getchildren doc].
  pose proof (parse_children_raise no_triangulate no_gradient [] [good_line] _ _ _ _ _
                eq_refl Hc) as Hr.
  cbn [app] in Hr. rewrite Hr.
  split; [reflexivity | ]. split; [cbn; congruence | ].
  destruct (doc_header_doc [good_line]) as (s0' & Hh' & Hv' & Hp' & _ & Ho').
  destruct (parse_good_line no_triangulate no_gradient s0' _ _ _ _ _ _ Hv' Ho')
    as (s' & p & He & Hps & _).
  exists s'. unfold parse_doc. rewrite run_bind, Hh'.
  cbn [getchildren doc]. unfold parse_children, for_each.
  rewrite run_bind. unfold guarded. rewrite He. split; [reflexivity | ].
  rewrite Hps, Hp'. reflexivity.
Qed.

(** ** svg.py: [close_path] on an empty loop *)

Section ClosePathFacts.
Variable triangulate : list loop -> M (list point).
Variable register_gradient : bool -> element -> M unit.

(** Two suffixes with different last characters exclude each other. *)
Lemma endswith_other (t : string) (a b : ascii) (p q : string) :
  a <> b ->
  String.prefix (String a p) (String.rev t) = true ->
  String.prefix (String b q) (String.rev t) = false.
Proof.
  intros Hab. destruct (String.rev t) as [ | c r]; cbn; [discriminate | ].
  destruct (ascii_dec a c) as [-> | ]; [ | discriminate].
  intros _. destruct (ascii_dec b c) as [-> | ]; [contradiction | reflexivity].
Qed.

Lemma polygon_dispatch (e : element) (s : SVG) :
  endswith (tag e) "polygon" = true ->
  draw_element triangulate register_gradient e s = draw_points triangulate e s.
Proof.
  intros H. unfold draw_element.
  assert (Hp : endswith (tag e) "path" = false)
    by (revert H; apply endswith_other; discriminate).
  assert (Hr : endswith (tag e) "rect" = false)
    by (revert H; apply endswith_other; discriminate).
  rewrite Hp, Hr, H, orb_true_r. reflexivity.
Qed.

(** A [polygon] whose [points] hold no number reaches [close_path] with the
    loop that [new_path] has just emptied. *)
Lemma draw_polygon_no_number (e : element) (pts : string) (s : SVG) :
  endswith (tag e) "polygon" = true ->
  e_get e "points" = Some pts ->
  parse_numbers pts = [] ->
  fst (draw_points triangulate e s) = Raise IndexError.
Proof.
  intros Ht He Hn. unfold draw_points. rewrite He, Hn, Ht.
  unfold new_path. mrun. cbn [points_loop]. mrun.
  rewrite close_path_empty by reflexivity. reflexivity.
Qed.

(** Path data whose first token is [Z] or [z] does the same. *)
Lemma draw_path_close_first (e : element) (d t : string) (rest : list string) (s : SVG) :
  e_get e "d" = Some d ->
  parse_list d = t :: rest ->
  t = "Z" \/ t = "z" ->
  fst (draw_path triangulate e s) = Raise IndexError.
Proof.
  intros He Hd Ht. unfold draw_path. rewrite He. cbn [default from_option]. unfold Datatypes.id.
  rewrite Hd. unfold new_path. mrun. cbn [length path_loop].
  destruct Ht as [-> | ->].
  - evaluate (is_substring "Z" ascii_letters). rewrite run_bind.
    unfold path_command. cbn [String.eqb Ascii.eqb Bool.eqb]. evaluate (is_substring "Z" "zZ").
    rewrite run_bind, close_path_empty by reflexivity. reflexivity.
  - evaluate (is_substring "z" ascii_letters). rewrite run_bind.
    unfold path_command. cbn [String.eqb Ascii.eqb Bool.eqb]. evaluate (is_substring "z" "zZ").
    rewrite run_bind, close_path_empty by reflexivity. reflexivity.
Qed.

(** C10.  [close_path] raises [IndexError] on an empty loop.  A [polygon]
    whose [points] attribute holds no number, and a [path] whose data start
    with [Z] or [z], reach it that way: once the attributes of the element
    are read, [parse_element] raises [IndexError], and so does the handler
    around it, which prints and re-raises. *)
Theorem close_path_empty_loop (e : element) (s : SVG) :
  (exists old s1, enter_element e s = (Ok old, s1)) ->
  (endswith (tag e) "polygon" = true /\
   exists pts, e_get e "points" = Some pts /\ parse_numbers pts = [])
  \/ (endswith (tag e) "path" = true /\
      exists d t rest, e_get e "d" = Some d /\ parse_list d = t :: rest /\
                       (t = "Z" \/ t = "z")) ->
  (forall s', self_loop s' = [] -> close_path s' = (Raise IndexError, s')) /\
  fst (parse_element triangulate register_gradient e s) = Raise IndexError /\
  fst (guarded (tag e) (parse_element triangulate register_gradient e) s)
    = Raise IndexError.
Proof.
  intros (old & s1 & He) Hshape.
  split; [exact close_path_empty | ].
  assert (Hd : fst (draw_element triangulate register_gradient e s1) = Raise IndexError).
  { destruct Hshape as [(Ht & pts & Hp & Hn) | (Ht & d & t & rest & Hg & Hl & Hz)].
    - rewrite polygon_dispatch by exact Ht.
      exact (draw_polygon_no_number e pts s1 Ht Hp Hn).
    - unfold draw_element. rewrite Ht.
      exact (draw_path_close_first e d t rest s1 Hg Hl Hz). }
  assert (Hp : fst (parse_element triangulate register_gradient e s) = Raise IndexError).
  { rewrite parse_element_unfold, run_bind, He. destruct old as [ot oo].
    rewrite run_bind.
    destruct (draw_element triangulate register_gradient e s1) as [r s2].
    cbn in Hd. rewrite Hd. reflexivity. }
  split; [exact Hp | ].
  unfold guarded.
  destruct (parse_element triangulate register_gradient e s) as [r s2].
  cbn in Hp. rewrite Hp. reflexivity.
Qed.

End ClosePathFacts.

Lemma plain_empty_polygon : plain empty_polygon.
Proof. repeat split; vm_compute; reflexivity. Qed.

Lemma plain_closing_path : plain closing_path.
Proof. repeat split; vm_compute; reflexivity. Qed.

Lemma close_path_empty_loop_witness :
  fst (parse_element no_triangulate no_gradient empty_polygon fresh) = Raise IndexError /\
  fst (guarded (tag closing_path)
         (parse_element no_triangulate no_gradient closing_path) fresh)
    = Raise IndexError.
Proof.
  split.
  - apply (close_path_empty_loop no_triangulate no_gradient empty_polygon fresh).
    + destruct (enter_element_plain empty_polygon fresh 1 0 0 1 0 0
                  plain_empty_polygon eq_refl) as (s1 & H & _).
      eauto.
    + left. split; [vm_compute; reflexivity | ].
      exists EmptyString. split; vm_compute; reflexivity.
  - apply (close_path_empty_loop no_triangulate no_gradient closing_path fresh).
    + destruct (enter_element_plain closing_path fresh 1 0 0 1 0 0
                  plain_closing_path eq_refl) as (s1 & H & _).
      eauto.
    + right. split; [vm_compute; reflexivity | ].
      exists "Z", "Z", []. repeat split; try (vm_compute; reflexivity). left. reflexivity.
Defined.

(** ** matrix.py: the [rotate(] branch of [Matrix.__init__] *)

Section RotateFacts.

Lemma drop_last_app_char (s : string) (c : ascii) :
  drop_last (String.app s (String c EmptyString)) = s.
Proof.
  unfold String.app. induction s as [ | a r IH]; [reflexivity | ].
  cbn [String.append drop_last]. rewrite IH.
  destruct r; reflexivity.
Qed.

Lemma rotate_slice (args : string) :
  slice_to_last 7 ("rotate(" +:+ args +:+ ")") = args.
Proof.
  unfold slice_to_last.
  change ("rotate(" +:+ args +:+ ")") with (String.app ("rotate(" +:+ args) ")").
  rewrite drop_last_app_char. reflexivity.
Qed.

Lemma rotate_prefixes (args : string) :
  startswith "matrix(" ("rotate(" +:+ args +:+ ")") = false /\
  startswith "translate(" ("rotate(" +:+ args +:+ ")") = false /\
  startswith "scale(" ("rotate(" +:+ args +:+ ")") = false /\
  startswith "rotate(" ("rotate(" +:+ args +:+ ")") = true.
Proof.
  repeat split; try reflexivity.
  unfold startswith, String.app. cbn.
  match goal with |- String.prefix _ ?s = true => destruct s; reflexivity end.
Qed.

(** C8.  For a string [rotate(...)] whose arguments scan to an angle and a
    pivot [(cx, cy)], or to an angle alone (pivot [(0, 0)]),
    [Matrix.__init__] stores, with [a] the angle in radians,
    [[cos a, sin a, -sin a, cos a, -cx cos a + cy sin a + cx,
      -cx sin a - cy cos a + cy]]. *)
Theorem init_rotate (args : string) (theta : R) (pivot : option (R * R)) :
  floats (parse_list args)
    = Ok (theta :: match pivot with Some (cx, cy) => [cx; cy] | None => [] end) ->
  init (ArgStr ("rotate(" +:+ args +:+ ")")) =
  Ok (mkMatrix
        (let a := theta * PI / 180 in
         let '(cx, cy) := default (0, 0) pivot in
         [cos a; sin a; - sin a; cos a;
          - cx * cos a + cy * sin a + cx;
          - cx * sin a - cy * cos a + cy])).
Proof.
  intros H. cbn [init]. unfold init_str.
  destruct (rotate_prefixes args) as (-> & -> & -> & ->).
  rewrite rotate_slice. unfold rotate_args. rewrite H.
  destruct pivot as [[cx cy] | ]; reflexivity.
Qed.

Lemma floats_90_1_2 : floats (parse_list "90,1,2") = Ok [90; 1; 2].
Proof.
  evaluate (parse_list "90,1,2"). unfold floats. cbn [mapM].
  eval_floats. reflexivity.
Qed.

Lemma floats_45 : floats (parse_list "45") = Ok [45].
Proof.
  evaluate (parse_list "45"). unfold floats. cbn [mapM].
  eval_floats. reflexivity.
Qed.

End RotateFacts.

Lemma init_rotate_witness :
  init (ArgStr "rotate(90,1,2)") =
    Ok (mkMatrix [cos (90 * PI / 180); sin (90 * PI / 180);
                  - sin (90 * PI / 180); cos (90 * PI / 180);
                  - 1 * cos (90 * PI / 180) + 2 * sin (90 * PI / 180) + 1;
                  - 1 * sin (90 * PI / 180) - 2 * cos (90 * PI / 180) + 2]) /\
  init (ArgStr "rotate(45)") =
    Ok (mkMatrix [cos (45 * PI / 180); sin (45 * PI / 180);
                  - sin (45 * PI / 180); cos (45 * PI / 180);
                  - 0 * cos (45 * PI / 180) + 0 * sin (45 * PI / 180) + 0;
                  - 0 * sin (45 * PI / 180) - 0 * cos (45 * PI / 180) + 0]).
Proof.
  split.
  - exact (init_rotate "90,1,2" 90 (Some (1, 2)) floats_90_1_2).
  - exact (init_rotate "45" 45 None floats_45).
Defined.

(** ** svg.py: cubics and the [S] shorthand *)

Section CurveFacts.

Lemma mapM_all_ok {A B : Type} (f : A -> result B) (g : A -> B) (l : list A) :
  (forall a, f a = Ok (g a)) -> mapM f l = Ok (g <$> l).
Proof.
  intros H. induction l as [ | a l IH]; [reflexivity | ].
  cbn. rewrite H. cbn. rewrite IH. reflexivity.
Qed.

Lemma range_last (n : Z) : (0 <= n)%Z -> last (range (n + 1)) = Some n.
Proof.
  intros Hn. unfold range. rewrite seqZ_app by lia.
  rewrite (seqZ_cons (0 + n) 1) by lia. rewrite (seqZ_nil _ (Z.pred 1)) by lia.
  apply last_snoc.
Qed.

Lemma bezier_point_end (p0 p1 p2 p3 : point) (n : Z) :
  (0 < n)%Z ->
  bezier_point p0 p1 p2 p3 (bernstein (IZR n / IZR n)) = p3.
Proof.
  intros Hn. assert (IZR n <> 0) by (apply not_0_IZR; lia).
  replace (IZR n / IZR n) with 1 by (field; assumption).
  unfold bezier_point, bernstein. destruct p3 as [x y]. cbn [fst snd].
  f_equal; ring.
Qed.

Lemma curve_to_result (s : SVG) (x1 y1 x2 y2 x y : R) :
  (0 < bezier_points s)%Z ->
  coefficients_ready s ->
  exists s', curve_to x1 y1 x2 y2 x y s = (Ok tt, s') /\
    self_x s' = x /\ self_y s' = y /\ self_last_c s' = Some (x2, y2) /\
    bezier_points s' = bezier_points s /\ coefficients_ready s'.
Proof.
  intros Hn Hready.
  assert (Hnz : IZR (bezier_points s) <> 0) by (apply not_0_IZR; lia).
  set (table := (fun i : Z => bernstein (IZR i / IZR (bezier_points s)))
                  <$> range (bezier_points s + 1)).
  assert (Hlast : last table = Some (bernstein (IZR (bezier_points s) / IZR (bezier_points s)))).
  { unfold table. rewrite fmap_last, range_last by lia. reflexivity. }
  assert (Hfill : exists s1, fill_bezier_coefficients s = (Ok tt, s1) /\
            bezier_coefficients s1 = table /\ self_x s1 = self_x s /\ self_y s1 = self_y s /\
            self_loop s1 = self_loop s /\ bezier_points s1 = bezier_points s).
  { unfold fill_bezier_coefficients. mrun.
    destruct Hready as [Hempty | Htable].
    - rewrite Hempty.
      rewrite (mapM_all_ok _ (fun i : Z => bernstein (IZR i / IZR (bezier_points s)))).
      + mrun. eexists. split; [reflexivity | ]. mcbn. auto.
      + intros i. rewrite py_div_nonzero by exact Hnz. reflexivity.
    - destruct (bezier_coefficients s) as [ | row rows] eqn:Hb.
      + exfalso. fold table in Htable. rewrite <- Htable in Hlast. discriminate.
      + mrun. exists s. rewrite Hb. repeat split; try reflexivity. exact Htable. }
  destruct Hfill as (s1 & Hf & Hb & Hx & Hy & Hl & Hbp).
  unfold curve_to. rewrite run_bind, Hf. mrun. rewrite Hb.
  rewrite fmap_last, Hlast. cbn [fmap option_fmap option_map].
  rewrite bezier_point_end by exact Hn. mrun.
  eexists. split; [reflexivity | ]. mcbn.
  repeat split; try assumption. right. mcbn. rewrite Hb, Hbp. reflexivity.
Qed.

Lemma keeps_bind {A B : Type} (m : M A) (k : A -> M B) :
  keeps_control m -> (forall a, keeps_control (k a)) -> keeps_control (m ≫= k).
Proof.
  intros Hm Hk s r s'. rewrite run_bind.
  destruct (m s) as [[a | e | ] s1] eqn:E; intros H.
  - rewrite (Hk a _ _ _ H). exact (Hm _ _ _ E).
  - injection H as <- <-. exact (Hm _ _ _ E).
  - injection H as <- <-. exact (Hm _ _ _ E).
Qed.

Lemma keeps_lift {A : Type} (r : result A) : keeps_control (lift r).
Proof. intros s r' s' H. injection H as <- <-. reflexivity. Qed.

Lemma keeps_ret {A : Type} (a : A) : keeps_control (mret a).
Proof. intros s r' s' H. injection H as <- <-. reflexivity. Qed.

Lemma keeps_get : keeps_control get.
Proof. intros s r' s' H. injection H as <- <-. reflexivity. Qed.

Lemma keeps_modify (f : SVG -> SVG) :
  (forall s, self_last_c (f s) = self_last_c s) -> keeps_control (modify f).
Proof. intros Hf s r' s' H. injection H as <- <-. apply Hf. Qed.

Lemma keeps_for_each {A : Type} (l : list A) (body : A -> M unit) :
  (forall a, keeps_control (body a)) -> keeps_control (for_each l body).
Proof.
  intros Hb. induction l as [ | a l IH].
  - apply keeps_ret.
  - change (for_each (a :: l) body) with (body a ≫= fun _ => for_each l body).
    apply keeps_bind; [apply Hb | intros _; exact IH].
Qed.

Lemma keeps_set_position (x y : R) : keeps_control (set_position x y).
Proof. apply keeps_modify. reflexivity. Qed.

Lemma keeps_close_path : keeps_control close_path.
Proof.
  unfold close_path. apply keeps_bind; [apply keeps_get | intros s].
  destruct (self_loop s); [apply keeps_lift | apply keeps_modify; reflexivity].
Qed.

Lemma keeps_arc_to (rx ry phi : R) (large_arc sweep : Z) (x y : R) :
  keeps_control (arc_to rx ry phi large_arc sweep x y).
Proof.
  unfold arc_to. apply keeps_bind; [apply keeps_get | intros s].
  apply keeps_bind; [apply keeps_lift | intros [[[[cx cy] psi] delta] n]].
  apply keeps_for_each. intros i.
  apply keeps_bind; [apply keeps_lift | intros step]. apply keeps_set_position.
Qed.

End CurveFacts.

Lemma pnext_tokens (a b : string) (rest : list string) :
  pnext (a :: b :: rest) = (x ← py_float a; y ← py_float b; Ok (x, y, rest)).
Proof.
  unfold pnext, pop_float, pop. cbn. destruct (py_float a); cbn; try reflexivity.
  destruct (py_float b); reflexivity.
Qed.

Lemma path_loop_step (fuel : nat) (opcode t : string) (rest : list string) :
  path_loop (S fuel) opcode (t :: rest) =
  (let '(opcode, pathdata) :=
     if is_substring t ascii_letters then (t, rest) else (opcode, t :: rest) in
   pathdata ← path_command opcode pathdata;
   path_loop fuel opcode pathdata).
Proof. reflexivity. Qed.

Lemma path_loop_done (fuel : nat) (opcode : string) :
  path_loop fuel opcode [] = mret tt.
Proof. destruct fuel; reflexivity. Qed.

(** Solves [keeps_control] goals over the commands that are not cubics. *)
Ltac keeps :=
  repeat first
    [ apply keeps_lift | apply keeps_ret | apply keeps_get
    | apply keeps_set_position | apply keeps_close_path | apply keeps_arc_to
    | apply keeps_modify; reflexivity
    | apply keeps_bind; [ | intros ? ]
    | match goal with
      | |- keeps_control (let '(_, _) := ?p in _) => destruct p
      end ].

Ltac run_tokens :=
  repeat first
    [ rewrite pnext_tokens
    | progress eval_floats
    | progress cbn [mbind result_bind mret result_ret]
    | progress mrun ].

(** Runs one turn of [path_loop] on a concrete token list, up to the call
    of the drawing method. *)
Ltac path_turn :=
  rewrite path_loop_step;
  match goal with
  | |- context [is_substring ?t ascii_letters] =>
      evaluate (is_substring t ascii_letters)
  end;
  cbn iota; rewrite run_bind; unfold path_command at 1;
  cbn [String.eqb Ascii.eqb Bool.eqb];
  run_tokens.

Section SmoothFacts.

Lemma keeps_path_command (opcode : string) (pathdata : list string) :
  opcode <> "C" -> opcode <> "c" -> opcode <> "S" -> opcode <> "s" ->
  keeps_control (path_command opcode pathdata).
Proof.
  intros HC Hc HS Hs. unfold path_command, line_to, print.
  repeat match goal with
         | |- keeps_control (if String.eqb ?o ?c then _ else _) =>
             destruct (String.eqb_spec o c) as [ | _]; [try contradiction | ]
         | |- keeps_control (if is_substring ?o ?c then _ else _) =>
             destruct (is_substring o c)
         end; keeps.
Qed.

Lemma smooth_control_value (s : SVG) (cx cy : R) :
  self_last_c s = Some (cx, cy) ->
  smooth_control s = (Ok (2 * self_x s - cx, 2 * self_y s - cy), s).
Proof. intros H. unfold smooth_control. mrun. rewrite H. reflexivity. Qed.

Lemma smooth_control_unset (s : SVG) :
  self_last_c s = None -> smooth_control s = (Raise AttributeError, s).
Proof. intros H. unfold smooth_control. mrun. rewrite H. reflexivity. Qed.

Example smooth_after_line :
  exists s,
    path_loop 13 "" (parse_list "M0 0C1 1 2 2 3 3L10 0") (snd (new_path fresh)) = (Ok tt, s) /\
    self_x s = 10 /\ self_y s = 0 /\
    exists x1 y1, smooth_control s = (Ok (x1, y1), s) /\ x1 = 18 /\ y1 = -2.
Proof.
  evaluate (parse_list "M0 0C1 1 2 2 3 3L10 0").
  unfold new_path. mrun.
  path_turn. unfold set_position. mrun.
  path_turn.
  match goal with
  | |- context [curve_to ?a ?b ?c ?d ?e ?f ?s] =>
      destruct (curve_to_result s a b c d e f) as (s1 & Hc & Hx & Hy & Hl & _);
      [ mcbn; unfold fresh, new_SVG, BEZIER_POINTS; mcbn; lia
      | left; reflexivity
      | rewrite Hc ]
  end.
  mrun. path_turn. unfold line_to, set_position. mrun.
  rewrite ?path_loop_done. mrun.
  eexists. split; [reflexivity | ]. mcbn.
  split; [reflexivity | ]. split; [reflexivity | ].
  exists (2 * 10 - 2), (2 * 0 - 2).
  split; [ | split; lra].
  rewrite (smooth_control_value _ 2 2) by (mcbn; exact Hl). reflexivity.
Qed.

Example smooth_without_cubic :
  fst (path_loop 7 "" (parse_list "M0 0S1 1 2 2") (snd (new_path fresh)))
    = Raise AttributeError.
Proof.
  evaluate (parse_list "M0 0S1 1 2 2").
  unfold new_path. mrun.
  path_turn. unfold set_position. mrun.
  path_turn. rewrite smooth_control_unset by reflexivity. reflexivity.
Qed.

(** Right after a cubic with second control point [(x2, y2)] that ends at
    [(x, y)], an [S] or [s] opcode draws its cubic with first control point
    [(2x - x2, 2y - y2)], the reflection of [(x2, y2)] through the current
    point; a command that is not a cubic leaves [(x2, y2)] in place. *)
Lemma smooth_control_reflects (s : SVG) (x1 y1 x2 y2 x y : R) :
  (0 < bezier_points s)%Z ->
  coefficients_ready s ->
  exists s1, curve_to x1 y1 x2 y2 x y s = (Ok tt, s1) /\
    self_x s1 = x /\ self_y s1 = y /\
    smooth_control s1 = (Ok (2 * x - x2, 2 * y - y2), s1) /\
    (forall pathdata a b c d r1 r2,
       pnext pathdata = Ok (a, b, r1) -> pnext r1 = Ok (c, d, r2) ->
       path_command "S" pathdata s1 =
         (_ ← curve_to (2 * x - x2) (2 * y - y2) a b c d; mret r2) s1 /\
       path_command "s" pathdata s1 =
         (_ ← curve_to (2 * x - x2) (2 * y - y2) (x + a) (y + b) (x + c) (y + d);
          mret r2) s1) /\
    (forall opcode pathdata rest s2,
       opcode <> "C" -> opcode <> "c" -> opcode <> "S" -> opcode <> "s" ->
       path_command opcode pathdata s1 = (Ok rest, s2) ->
       smooth_control s2 = (Ok (2 * self_x s2 - x2, 2 * self_y s2 - y2), s2)).
Proof.
  intros Hn Hready.
  destruct (curve_to_result s x1 y1 x2 y2 x y Hn Hready)
    as (s1 & Hc & Hx & Hy & Hl & _).
  assert (Hs : smooth_control s1 = (Ok (2 * x - x2, 2 * y - y2), s1)).
  { rewrite (smooth_control_value s1 x2 y2 Hl), Hx, Hy. reflexivity. }
  exists s1. repeat split; try assumption.
  - unfold path_command. cbn [String.eqb Ascii.eqb Bool.eqb].
    rewrite run_bind, Hs. mrun. rewrite H. mrun. rewrite H0. reflexivity.
  - unfold path_command. cbn [String.eqb Ascii.eqb Bool.eqb].
    mrun. rewrite Hs. mrun. rewrite H. mrun. rewrite H0, Hx, Hy. reflexivity.
  - intros opcode pathdata rest s2 HC Hc' HS Hs' Hrun.
    apply smooth_control_value.
    rewrite (keeps_path_command opcode pathdata HC Hc' HS Hs' _ _ _ Hrun). exact Hl.
Qed.

(** C5 (code bug).  The [S] and [s] branches never look at what the
    previous command was: they read [last_cx, last_cy], which only
    [curve_to] assigns and nothing resets.  Before any cubic the attributes
    do not exist and the opcode raises [AttributeError]; a command that is
    not a cubic leaves them as they are, so an [S] after it reflects the
    second control point of an older cubic instead of using the current
    point.  In [M0 0 C1 1 2 2 3 3 L10 0] an [S] would start from the control
    point [(18, -2)], not from the current point [(10, 0)]; in
    [M0 0 S1 1 2 2] the [S] raises. *)
Theorem smooth_control_stale :
  (forall s : SVG,
     self_last_c s = None -> smooth_control s = (Raise AttributeError, s)) /\
  (forall (opcode : string) (pathdata : list string),
     opcode <> "C" -> opcode <> "c" -> opcode <> "S" -> opcode <> "s" ->
     forall s r s', path_command opcode pathdata s = (r, s') ->
                    self_last_c s' = self_last_c s) /\
  (exists s,
     path_loop 13 "" (parse_list "M0 0C1 1 2 2 3 3L10 0") (snd (new_path fresh))
       = (Ok tt, s) /\
     (self_x s, self_y s) = (10, 0) /\
     smooth_control s = (Ok (18, -2), s)) /\
  fst (path_loop 7 "" (parse_list "M0 0S1 1 2 2") (snd (new_path fresh)))
    = Raise AttributeError.
Proof.
  split; [exact smooth_control_unset | ].
  split; [exact keeps_path_command | ].
  split; [ | exact smooth_without_cubic].
  destruct smooth_after_line as (s & Hrun & Hx & Hy & x1 & y1 & Hs & -> & ->).
  exists s. split; [exact Hrun | ]. split; [rewrite Hx, Hy; reflexivity | ].
  exact Hs.
Qed.
End SmoothFacts.

(** ** svg.py: [arc_to] *)

Section ArcFacts.

Lemma py_sqrt_nonneg (a : R) : 0 <= a -> py_sqrt a = Ok (sqrt a).
Proof. intros H. unfold py_sqrt. destruct (decide (a < 0)); [lra | reflexivity]. Qed.

Lemma py_acos_domain (a : R) : -1 <= a <= 1 -> py_acos a = Ok (acos a).
Proof.
  intros [H1 H2]. unfold py_acos.
  destruct (decide (a < -1)); [lra | ]. destruct (decide (1 < a)); [lra | reflexivity].
Qed.

Lemma clamp_radicand_nonneg (r2 : R) : 0 <= clamp_radicand r2.
Proof. unfold clamp_radicand. destruct (decide (r2 < 0)); lra. Qed.

Lemma clamp_radicand_negative (r2 : R) : r2 < 0 -> clamp_radicand r2 = 0.
Proof. intros H. unfold clamp_radicand. destruct (decide (r2 < 0)); [reflexivity | lra]. Qed.

(** Cauchy-Schwarz in the plane keeps the argument of [acos] in range. *)
Lemma angle_ok (u v : point) :
  0 < u.1 ^ 2 + u.2 ^ 2 -> 0 < v.1 ^ 2 + v.2 ^ 2 -> exists a, angle u v = Ok a.
Proof.
  destruct u as [u1 u2], v as [v1 v2]. cbn [fst snd]. intros Hu Hv.
  unfold angle. cbn [fst snd].
  set (P := (u1 ^ 2 + u2 ^ 2) * (v1 ^ 2 + v2 ^ 2)).
  set (d := u1 * v1 + u2 * v2).
  assert (HP : 0 < P) by (unfold P; apply Rmult_lt_0_compat; assumption).
  rewrite py_sqrt_nonneg by lra. cbn [mbind result_bind].
  assert (Hn : 0 < sqrt P) by (apply sqrt_lt_R0; exact HP).
  rewrite py_div_nonzero by lra. cbn [mbind result_bind].
  assert (Hsq : sqrt P * sqrt P = P) by (apply sqrt_sqrt; lra).
  assert (Hd : d * d <= P).
  { assert (He : P - d * d = (u1 * v2 - u2 * v1) ^ 2) by (unfold P, d; ring).
    pose proof (pow2_ge_0 (u1 * v2 - u2 * v1)). lra. }
  assert (Hq : -1 <= d / sqrt P <= 1).
  { assert (Hb : - sqrt P <= d <= sqrt P) by (split; nra).
    split.
    - apply Rmult_le_reg_r with (sqrt P); [exact Hn | ].
      replace (d / sqrt P * sqrt P) with d by (field; lra). lra.
    - apply Rmult_le_reg_r with (sqrt P); [exact Hn | ].
      replace (d / sqrt P * sqrt P) with d by (field; lra). lra. }
  rewrite py_acos_domain by exact Hq. cbn [mbind result_bind]. eauto.
Qed.

(** The vectors from the centre to the two end points are not null. *)
Lemma radius_vector_nonzero (rx ry r x_ y_ e : R) :
  rx <> 0 -> ry <> 0 -> 0 < x_ ^ 2 + y_ ^ 2 -> e * e = 1 ->
  0 < ((e * x_ - r * rx * y_ / ry) / rx) ^ 2
      + ((e * y_ - - r * ry * x_ / rx) / ry) ^ 2.
Proof.
  intros Hrx Hry Hxy He.
  set (A := (e * x_ - r * rx * y_ / ry) / rx).
  set (B := (e * y_ - - r * ry * x_ / rx) / ry).
  destruct (Rlt_dec 0 (A ^ 2 + B ^ 2)) as [ | Hn]; [assumption | exfalso].
  assert (HA : A = 0) by (pose proof (pow2_ge_0 A); pose proof (pow2_ge_0 B); nra).
  assert (HB : B = 0) by (pose proof (pow2_ge_0 A); pose proof (pow2_ge_0 B); nra).
  assert (H1 : e * x_ * ry = r * rx * y_).
  { replace (e * x_ * ry) with (A * rx * ry + r * rx * y_) by (unfold A; field; auto).
    rewrite HA. ring. }
  assert (H2 : e * y_ * rx = - r * ry * x_).
  { replace (e * y_ * rx) with (B * ry * rx + - r * ry * x_) by (unfold B; field; auto).
    rewrite HB. ring. }
  assert (Hx : x_ * (rx * ry * (1 + r ^ 2)) = 0).
  { replace (x_ * (rx * ry * (1 + r ^ 2)))
      with ((e * e) * x_ * ry * rx + r * rx * (r * ry * x_)) by (rewrite He; ring).
    replace (e * e * x_ * ry * rx) with (e * rx * (e * x_ * ry)) by ring.
    rewrite H1.
    replace (e * rx * (r * rx * y_)) with (r * rx * (e * y_ * rx)) by ring.
    rewrite H2. ring. }
  assert (Hk : rx * ry * (1 + r ^ 2) <> 0).
  { apply Rmult_integral_contrapositive_currified.
    - apply Rmult_integral_contrapositive_currified; assumption.
    - pose proof (pow2_ge_0 r). lra. }
  assert (Hx0 : x_ = 0).
  { destruct (Rmult_integral _ _ Hx); [assumption | contradiction]. }
  assert (Hy0 : y_ = 0).
  { rewrite Hx0 in H2.
    assert (Hy : y_ * (e * rx) = 0) by (rewrite <- (Rmult_0_r (- r * ry)), <- H2; ring).
    destruct (Rmult_integral _ _ Hy) as [ | Hz]; [assumption | ].
    exfalso. destruct (Rmult_integral _ _ Hz) as [He0 | ]; [ | contradiction].
    rewrite He0 in He. lra. }
  rewrite Hx0, Hy0 in Hxy. lra.
Qed.

Lemma arc_parameters_ok (circle : Z) (x1 y1 rx ry phi : R) (large_arc sweep : Z)
    (x2 y2 : R) :
  rx <> 0 -> ry <> 0 -> (x1, y1) <> (x2, y2) ->
  exists cx cy psi delta n,
    arc_parameters circle x1 y1 rx ry phi large_arc sweep x2 y2
      = Ok (cx, cy, psi, delta, n) /\ (1 <= n)%Z.
Proof.
  intros Hrx Hry Hchord. unfold arc_parameters.
  set (cp := cos phi). set (sp := sin phi).
  set (dx := 1 / 2 * (x1 - x2)). set (dy := 1 / 2 * (y1 - y2)).
  cbv zeta.
  set (x_ := cp * dx + sp * dy). set (y_ := - sp * dx + cp * dy).
  assert (Hunit : sp ^ 2 + cp ^ 2 = 1).
  { unfold sp, cp. pose proof (sin2_cos2 phi) as H. unfold Rsqr in H. lra. }
  assert (Hd : 0 < dx ^ 2 + dy ^ 2).
  { destruct (Req_dec dx 0) as [Hx | Hx]; [ | pose proof (pow2_ge_0 dy); nra].
    destruct (Req_dec dy 0) as [Hy | Hy]; [ | pose proof (pow2_ge_0 dx); nra].
    exfalso. apply Hchord. unfold dx in Hx. unfold dy in Hy. f_equal; lra. }
  assert (Hxy : 0 < x_ ^ 2 + y_ ^ 2).
  { replace (x_ ^ 2 + y_ ^ 2) with ((sp ^ 2 + cp ^ 2) * (dx ^ 2 + dy ^ 2))
      by (unfold x_, y_; ring).
    rewrite Hunit. lra. }
  assert (HD : 0 < (rx * y_) ^ 2 + (ry * x_) ^ 2).
  { destruct (Req_dec x_ 0) as [Hx | Hx].
    - assert (y_ <> 0) by (intros Hy; rewrite Hx, Hy in Hxy; lra).
      assert (rx * y_ <> 0) by (apply Rmult_integral_contrapositive_currified; assumption).
      pose proof (pow2_ge_0 (ry * x_)). pose proof (pow_lt (rx * y_) 2).
      pose proof (pow2_ge_0 (rx * y_)). nra.
    - assert (ry * x_ <> 0) by (apply Rmult_integral_contrapositive_currified; assumption).
      pose proof (pow2_ge_0 (rx * y_)). pose proof (pow2_ge_0 (ry * x_)). nra. }
  rewrite py_div_nonzero by lra. cbn [mbind result_bind].
  rewrite py_sqrt_nonneg by apply clamp_radicand_nonneg. cbn [mbind result_bind].
  set (r := if decide (large_arc = sweep) then - sqrt _ else sqrt _).
  repeat (rewrite py_div_nonzero by assumption; cbn [mbind result_bind]).
  destruct (angle_ok (1, 0) ((x_ - r * rx * y_ / ry) / rx, (y_ - - r * ry * x_ / rx) / ry))
    as (psi & ->).
  { cbn [fst snd]. lra. }
  { cbn [fst snd]. pose proof (radius_vector_nonzero rx ry r x_ y_ 1 Hrx Hry Hxy) as H.
    rewrite !Rmult_1_l in H. apply H. lra. }
  cbn [mbind result_bind].
  repeat (rewrite py_div_nonzero by assumption; cbn [mbind result_bind]).
  destruct (angle_ok ((x_ - r * rx * y_ / ry) / rx, (y_ - - r * ry * x_ / rx) / ry)
                     ((- x_ - r * rx * y_ / ry) / rx, (- y_ - - r * ry * x_ / rx) / ry))
    as (delta & ->).
  { cbn [fst snd]. pose proof (radius_vector_nonzero rx ry r x_ y_ 1 Hrx Hry Hxy) as H.
    rewrite !Rmult_1_l in H. apply H. lra. }
  { cbn [fst snd]. pose proof (radius_vector_nonzero rx ry r x_ y_ (-1) Hrx Hry Hxy) as H.
    replace (-1 * x_) with (- x_) in H by ring.
    replace (-1 * y_) with (- y_) in H by ring. apply H. lra. }
  cbn [mbind result_bind].
  do 5 eexists. split; [reflexivity | ]. lia.
Qed.

Lemma for_each_ok {A : Type} (l : list A) (body : A -> M unit) :
  (forall a s, In a l -> exists s', body a s = (Ok tt, s')) ->
  forall s, exists s', for_each l body s = (Ok tt, s').
Proof.
  induction l as [ | a l IH]; intros Hb s.
  - exists s. reflexivity.
  - change (for_each (a :: l) body) with (body a ≫= fun _ => for_each l body).
    rewrite run_bind. destruct (Hb a s (or_introl eq_refl)) as (s1 & ->).
    apply IH. intros a' s' Hin. apply Hb. right. exact Hin.
Qed.

(** In exact arithmetic the clamp makes the radicand nonnegative, so
    [math.sqrt] returns, and for nonzero radii and an end point different
    from the current point [arc_to] returns: no divisor is zero and, by the
    Cauchy-Schwarz inequality, the arguments of [math.acos] lie in
    [[-1, 1]].  Only rounding can make [arc_to] fail on such input. *)
Lemma arc_to_exact_arithmetic (s : SVG) (rx ry phi : R) (large_arc sweep : Z) (x y : R) :
  rx <> 0 -> ry <> 0 -> (self_x s, self_y s) <> (x, y) ->
  (forall r2 : R,
     (0 <= clamp_radicand r2) /\
     (r2 < 0 -> clamp_radicand r2 = 0) /\
     py_sqrt (clamp_radicand r2) = Ok (sqrt (clamp_radicand r2))) /\
  exists s', arc_to rx ry phi large_arc sweep x y s = (Ok tt, s').
Proof.
  intros Hrx Hry Hchord. split.
  - intros r2. split; [apply clamp_radicand_nonneg | ].
    split; [apply clamp_radicand_negative | ].
    apply py_sqrt_nonneg, clamp_radicand_nonneg.
  - unfold arc_to. mrun.
    destruct (arc_parameters_ok (circle_points s) (self_x s) (self_y s) rx ry phi
                large_arc sweep x y Hrx Hry Hchord)
      as (cx & cy & psi & delta & n & -> & Hn).
    mrun. apply for_each_ok. intros i s0 _.
    rewrite run_bind. mrun. rewrite py_div_nonzero by (apply not_0_IZR; lia).
    unfold line_to, set_position. mrun. eauto.
Qed.

End ArcFacts.

Section ArcRounding.
Import (notations) PrimFloat.



End ArcRounding.

(** ** svg.py: the fuel of [path_loop] *)

Section FuelFacts.

(** A run that returns or raises does the same with more fuel. *)
Lemma path_loop_more_fuel (fuel : nat) :
  forall (opcode : string) (pathdata : list string) (s s' : SVG) (r : result unit),
  path_loop fuel opcode pathdata s = (r, s') -> r <> Loops ->
  forall fuel', (fuel <= fuel')%nat -> path_loop fuel' opcode pathdata s = (r, s').
Proof.
  induction fuel as [ | fuel IH]; intros opcode pathdata s s' r Hrun Hr fuel' Hle.
  - destruct pathdata as [ | t rest].
    + rewrite path_loop_done in Hrun |- *. exact Hrun.
    + cbn in Hrun. injection Hrun as <- _. contradiction.
  - destruct pathdata as [ | t rest]; [rewrite path_loop_done in Hrun |- *; exact Hrun | ].
    destruct fuel' as [ | fuel']; [lia | ].
    rewrite path_loop_step in Hrun |- *.
    destruct (is_substring t ascii_letters); cbn iota in Hrun |- *;
      rewrite run_bind in Hrun |- *;
      match goal with
      | |- context [path_command ?o ?p s] =>
          destruct (path_command o p s) as [[pd | e | ] s1]
      end;
      try exact Hrun; apply (IH _ _ _ _ _ Hrun Hr); lia.
Qed.

(** After an unrecognised opcode a number is never popped: the loop prints
    its warning at every turn and does not end, whatever the fuel. *)
Lemma unknown_opcode_never_ends (fuel : nat) :
  forall s : SVG, fst (path_loop fuel "Q" ["1"] s) = Loops.
Proof.
  induction fuel as [ | fuel IH]; intros s; [reflexivity | ].
  rewrite path_loop_step.
  evaluate (is_substring "1" ascii_letters). cbn iota.
  rewrite run_bind. unfold path_command at 1.
  cbn [String.eqb Ascii.eqb Bool.eqb]. evaluate (is_substring "Q" "zZ").
  unfold print. mrun. apply IH.
Qed.

End FuelFacts.

(** * Further properties *)

(** ** matrix.py: composition, inverse and the constructor *)

Section MatrixAlgebra.

(** Proves the equality of two lists of real expressions entry by entry. *)
Ltac list_ring := repeat (apply (f_equal2 cons); [ring | ]); reflexivity.

(** X2.  On a six-value matrix the default matrix of [Matrix()] is a unit
    of [__mul__] on both sides: the product returns the matrix itself. *)
Theorem mul_identity_unit (m : Matrix) :
  length (values m) = 6%nat ->
  mul identity m = Ok m /\ mul m identity = Ok m.
Proof.
  destruct m as [[ | a1 [ | b1 [ | c1 [ | d1 [ | e1 [ | f1 [ | ? ?]]]]]]]]; try discriminate.
  intros _. unfold mul, identity. cbn [values].
  split; do 2 f_equal; list_ring.
Qed.

Lemma mul_identity_unit_witness :
  mul identity (mkMatrix [2; 0; 0; 3; 5; 7]) = Ok (mkMatrix [2; 0; 0; 3; 5; 7]).
Proof.
  exact (proj1 (mul_identity_unit (mkMatrix [2; 0; 0; 3; 5; 7]) eq_refl)).
Defined.

Lemma drop_app_length (pre rest : string) :
  drop (String.length pre) (pre +:+ rest) = rest.
Proof. unfold String.app. induction pre as [ | a pre IH]; [reflexivity | exact IH]. Qed.

Lemma drop_last_app (pre rest : string) :
  rest <> EmptyString -> drop_last (pre +:+ rest) = pre +:+ drop_last rest.
Proof.
  intros Hr. induction pre as [ | a pre IH]; [reflexivity | ].
  change (String a pre +:+ rest) with (String a (pre +:+ rest)).
  change (String a pre +:+ drop_last rest) with (String a (pre +:+ drop_last rest)).
  rewrite <- IH. destruct (pre +:+ rest) eqn:E; [ | reflexivity].
  destruct pre; [contradiction | discriminate].
Qed.

Lemma slice_call (pre args : string) :
  slice_to_last (String.length pre) (pre +:+ args +:+ ")") = args.
Proof.
  unfold slice_to_last. rewrite drop_last_app.
  - rewrite drop_app_length. apply drop_last_app_char.
  - destruct args; discriminate.
Qed.

Lemma startswith_app (pre rest : string) : startswith pre (pre +:+ rest) = true.
Proof.
  unfold startswith, String.app. induction pre as [ | a pre IH]; cbn.
  - destruct rest; reflexivity.
  - destruct (ascii_dec a a); [exact IH | contradiction].
Qed.

(** X5.  When the arguments scan to two numbers [u] and [v],
    [Matrix("translate(...)")] maps [(x, y)] to [(x + u, y + v)] and
    [Matrix("scale(...)")] maps it to [(u x, v y)]. *)
Theorem init_translate_scale (args : string) (u v : R) (p : R * R) :
  floats (parse_list args) = Ok [u; v] ->
  (exists m, init (ArgStr ("translate(" +:+ args +:+ ")")) = Ok m /\
             call m p = Ok (p.1 + u, p.2 + v)) /\
  (exists m, init (ArgStr ("scale(" +:+ args +:+ ")")) = Ok m /\
             call m p = Ok (u * p.1, v * p.2)).
Proof.
  intros H. split.
  - cbn [init]. unfold init_str.
    replace (startswith "matrix(" ("translate(" +:+ args +:+ ")")) with false by reflexivity.
    rewrite (startswith_app "translate(").
    rewrite (slice_call "translate(" args : slice_to_last 10 _ = _). rewrite H.
    eexists. split; [reflexivity | ].
    unfold call. cbn [values]. do 2 f_equal; ring.
  - cbn [init]. unfold init_str.
    replace (startswith "matrix(" ("scale(" +:+ args +:+ ")")) with false by reflexivity.
    replace (startswith "translate(" ("scale(" +:+ args +:+ ")")) with false by reflexivity.
    rewrite (startswith_app "scale(").
    rewrite (slice_call "scale(" args : slice_to_last 6 _ = _). rewrite H.
    eexists. split; [reflexivity | ].
    unfold call. cbn [values]. do 2 f_equal; ring.
Qed.

(** X6.  What [Matrix.__init__] does with the number of arguments:
    [translate(] and [scale(] raise [ValueError] unless there are exactly
    two; [rotate(] raises [IndexError] without any and otherwise, unless
    there are exactly three, rotates about the origin by the first;
    [matrix(] stores whatever list it is given, of any length. *)
Theorem init_arity (args : string) (l : list R) :
  floats (parse_list args) = Ok l ->
  (length l <> 2%nat ->
   init (ArgStr ("translate(" +:+ args +:+ ")")) = Raise ValueError /\
   init (ArgStr ("scale(" +:+ args +:+ ")")) = Raise ValueError) /\
  (l = [] -> init (ArgStr ("rotate(" +:+ args +:+ ")")) = Raise IndexError) /\
  (forall theta rest, l = theta :: rest -> length rest <> 2%nat ->
   init (ArgStr ("rotate(" +:+ args +:+ ")")) = Ok (rotation theta 0 0)) /\
  init (ArgStr ("matrix(" +:+ args +:+ ")")) = Ok (mkMatrix l).
Proof.
  intros H. repeat split.
  - cbn [init]. unfold init_str.
    replace (startswith "matrix(" ("translate(" +:+ args +:+ ")")) with false by reflexivity.
    rewrite (startswith_app "translate(").
    rewrite (slice_call "translate(" args : slice_to_last 10 _ = _). rewrite H.
    destruct l as [ | ? [ | ? [ | ? ?]]]; cbn in *; try reflexivity. contradiction.
  - cbn [init]. unfold init_str.
    replace (startswith "matrix(" ("scale(" +:+ args +:+ ")")) with false by reflexivity.
    replace (startswith "translate(" ("scale(" +:+ args +:+ ")")) with false by reflexivity.
    rewrite (startswith_app "scale(").
    rewrite (slice_call "scale(" args : slice_to_last 6 _ = _). rewrite H.
    destruct l as [ | ? [ | ? [ | ? ?]]]; cbn in *; try reflexivity. contradiction.
  - intros ->. cbn [init]. unfold init_str.
    destruct (rotate_prefixes args) as (-> & -> & -> & ->).
    rewrite rotate_slice. unfold rotate_args. rewrite H. reflexivity.
  - intros theta rest -> Hr. cbn [init]. unfold init_str.
    destruct (rotate_prefixes args) as (-> & -> & -> & ->).
    rewrite rotate_slice. unfold rotate_args. rewrite H.
    destruct rest as [ | ? [ | ? [ | ? ?]]]; cbn in *; try reflexivity. contradiction.
  - cbn [init]. unfold init_str. rewrite (startswith_app "matrix(").
    rewrite (slice_call "matrix(" args : slice_to_last 7 _ = _). rewrite H. reflexivity.
Qed.

(** X7.  A matrix that does not hold six values: [__mul__] raises
    [ValueError] when either factor has another length, [inverse] raises
    [IndexError] with fewer than four values and [__call__] with fewer than
    six. *)
Theorem matrix_length_errors (m other : Matrix) :
  (length (values m) <> 6%nat \/ length (values other) <> 6%nat ->
   mul m other = Raise ValueError) /\
  ((length (values m) < 4)%nat -> inverse m = Raise IndexError) /\
  ((length (values m) < 6)%nat -> forall p, call m p = Raise IndexError).
Proof.
  destruct m as [[ | a [ | b [ | c [ | d [ | e [ | f [ | ? ?]]]]]]]];
  destruct other as [[ | a' [ | b' [ | c' [ | d' [ | e' [ | f' [ | ? ?]]]]]]]];
  repeat split; cbn; intros; try reflexivity; try lia;
  match goal with H : _ \/ _ |- _ => destruct H; contradiction end.
Qed.

End MatrixAlgebra.

Lemma floats_5_10 : floats (parse_list "5,10") = Ok [5; 10].
Proof.
  evaluate (parse_list "5,10"). unfold floats. cbn [mapM].
  eval_floats. reflexivity.
Qed.

Lemma init_translate_scale_witness :
  (exists m, init (ArgStr "translate(5,10)") = Ok m /\
             call m (1, 2) = Ok (1 + 5, 2 + 10)) /\
  (exists m, init (ArgStr "scale(5,10)") = Ok m /\
             call m (1, 2) = Ok (5 * 1, 10 * 2)).
Proof. exact (init_translate_scale "5,10" 5 10 (1, 2) floats_5_10). Defined.

Lemma init_arity_witness :
  init (ArgStr "matrix(5,10)") = Ok (mkMatrix [5; 10]) /\
  init (ArgStr "rotate(5,10)") = Ok (rotation 5 0 0).
Proof.
  destruct (init_arity "5,10" [5; 10] floats_5_10) as (_ & _ & Hr & Hm).
  split; [exact Hm | ].
  apply (Hr 5 [10]); [reflexivity | cbn; lia].
Defined.

(** ** parse.py: styles and colours *)

Section ParseMore.

(** X9.  [parse_style] raises [ValueError] exactly when some entry between
    semicolons holds two colons or more.  In every other case it returns a
    dictionary, which gives to each key the value of the last entry with
    that key, an entry being split at its colon and entries without a colon
    being ignored. *)
Theorem parse_style_outcome (s : string) :
  (parse_style s = Raise ValueError <->
   Exists (fun item => (2 <= count ":" item)%nat) (split ";" s)) /\
  (~ Exists (fun item => (2 <= count ":" item)%nat) (split ";" s) ->
   exists sdict, parse_style s = Ok sdict /\
     forall key, sdict !! key = Spec.last_value key (split ";" s)).
Proof.
  assert (Hok : ~ Exists (fun item => (2 <= count ":" item)%nat) (split ";" s) ->
                exists sdict, parse_style s = Ok sdict /\
                  forall key, sdict !! key = Spec.last_value key (split ";" s)).
  { intros Hnex. apply not_Exists_Forall in Hnex; [ | apply _].
    assert (Hall : Forall (fun item => (count ":" item <= 1)%nat) (split ";" s)).
    { eapply Forall_impl; [exact Hnex | ]. cbn. intros item Hi. lia. }
    destruct (style_items_spec _ Hall ∅) as (sdict & Hs & Hl).
    exists sdict. split; [exact Hs | ].
    intros key. rewrite Hl. destruct (Spec.last_value key _); [reflexivity | ].
    apply lookup_empty. }
  split; [ | exact Hok]. split.
  - intros Hraise.
    destruct (decide (Exists (fun item => (2 <= count ":" item)%nat) (split ";" s)))
      as [Hex | Hnex]; [exact Hex | ].
    exfalso. destruct (Hok Hnex) as (sdict & Hs & _).
    rewrite Hs in Hraise. discriminate.
  - intros Hex. apply style_items_many_colons. exact Hex.
Qed.

Lemma color_body_shape (c : string) (p : paint) :
  color_body c = Ok p ->
  (exists id, p = GradientRef id) \/ (exists r g b, p = Color r g b 255).
Proof.
  unfold color_body.
  repeat match goal with
         | |- (if ?g then _ else _) = _ -> _ => destruct g
         | |- (?m ≫= _) = _ -> _ => destruct m; cbn [mbind result_bind]
         | |- match ?l with [] => _ | _ :: _ => _ end = _ -> _ =>
             destruct l as [ | ? [ | ? [ | ? [ | ? ?]]]]
         end;
  intros H; try discriminate; injection H as <-; eauto.
Qed.

(** X10.  On a string that is not blank [parse_color] never raises: it
    returns [None], a gradient id or a colour with alpha 255 and prints
    nothing, or it prints the exception of its [try] block and returns
    [None]. *)
Theorem parse_color_contained (c : string) (default : paint) :
  strip c <> EmptyString ->
  exists p evs, parse_color (Some c) default = (Ok p, evs) /\
    ((evs = [] /\
      (p = NoPaint \/ (exists id, p = GradientRef id) \/
       exists r g b, p = Color r g b 255)) \/
     (p = NoPaint /\ exists e, evs = [ColorException e])).
Proof.
  intros Hc. unfold parse_color.
  destruct c as [ | a r]; [contradiction | ]. cbn [is_empty].
  destruct (String.eqb (String a r) "none"); [eauto 10 | ].
  destruct (strip (String a r)) as [ | c0 rest]; [contradiction | ].
  destruct (color_body _) as [p | e | ] eqn:E.
  - destruct (color_body_shape _ _ E) as [Hg | Hk]; eauto 10.
  - eauto 10.
  - exfalso. exact (color_body_not_loops _ E).
Qed.

Lemma parse_color_contained_witness :
  strip "red" <> EmptyString /\
  exists p evs, parse_color (Some "red") Sentinel = (Ok p, evs).
Proof.
  assert (H : strip "red" <> EmptyString) by (vm_compute; discriminate).
  split; [exact H | ].
  destruct (parse_color_contained "red" Sentinel H) as (p & evs & Hp & _).
  exists p, evs. exact Hp.
Defined.

Lemma rstrip_end (s : string) (c : ascii) :
  is_space c = false ->
  rstrip (s +:+ String c EmptyString) = s +:+ String c EmptyString.
Proof.
  intros Hc. induction s as [ | a s IH].
  - change ("" +:+ String c "") with (String c ""). cbn [rstrip]. rewrite Hc. reflexivity.
  - change (String a s +:+ String c "") with (String a (s +:+ String c "")).
    cbn [rstrip]. rewrite IH.
    destruct (s +:+ String c "") eqn:E; [ | reflexivity].
    destruct s; discriminate.
Qed.

(** X12.  [parse_color("url(#id)")] is the gradient id between [url(#]
    and the closing parenthesis, whatever the id, and prints nothing. *)
Theorem parse_color_url (id : string) (default : paint) :
  parse_color (Some ("url(#" +:+ id +:+ ")")) default = (Ok (GradientRef id), []).
Proof.
  unfold parse_color.
  change ("url(#" +:+ id +:+ ")") with (String "u" ("rl(#" +:+ id +:+ ")")).
  cbn [is_empty String.eqb Ascii.eqb Bool.eqb].
  assert (Hs : strip (String "u" ("rl(#" +:+ id +:+ ")")) = String "u" ("rl(#" +:+ id +:+ ")")).
  { unfold strip. cbn [lstrip]. evaluate (is_space "u"). cbn iota.
    change (String "u" ("rl(#" +:+ id +:+ ")")) with (("url(#" +:+ id) +:+ ")").
    apply rstrip_end. reflexivity. }
  rewrite Hs. cbn [Ascii.eqb Bool.eqb]. unfold color_body.
  change (String "u" ("rl(#" +:+ id +:+ ")")) with ("url(#" +:+ id +:+ ")").
  rewrite (startswith_app "url(#").
  rewrite (slice_call "url(#" id : slice_to_last 5 _ = _). reflexivity.
Qed.

Lemma hex_char_facts (h : ascii) (v : Z) :
  digit_val h = Some v ->
  is_space h = false /\ h <> "u"%char /\ h <> "r"%char /\ (0 <= v < 16)%Z /\
  In h (String.list_ascii_of_string "0123456789abcdefABCDEF").
Proof.
  destruct h as [[] [] [] [] [] [] [] []]; intros H;
    try (vm_compute in H; discriminate H);
    (assert (Hv : Some v = Some v) by reflexivity; rewrite <- H in Hv at 1;
     vm_compute in Hv; injection Hv as <-);
    (split; [reflexivity | ]); (split; [discriminate | ]); (split; [discriminate | ]);
    (split; [lia | cbn; tauto]).
Qed.

Lemma hex_pairs_checked :
  forallb (fun h1 =>
    forallb (fun h2 =>
      match py_int 16 (String h1 (String h2 EmptyString)), digit_val h1, digit_val h2 with
      | Ok z, Some a, Some b => (z =? 16 * a + b)%Z
      | _, _, _ => false
      end) (String.list_ascii_of_string "0123456789abcdefABCDEF"))
    (String.list_ascii_of_string "0123456789abcdefABCDEF") = true.
Proof. vm_compute. reflexivity. Qed.

Lemma hex_singles_checked :
  forallb (fun h =>
    match py_int 16 (String h EmptyString), digit_val h with
    | Ok z, Some a => (z =? a)%Z
    | _, _ => false
    end) (String.list_ascii_of_string "0123456789abcdefABCDEF") = true.
Proof. vm_compute. reflexivity. Qed.

Lemma py_int_hex_pair (h1 h2 : ascii) (v1 v2 : Z) :
  digit_val h1 = Some v1 -> digit_val h2 = Some v2 ->
  py_int 16 (String h1 (String h2 EmptyString)) = Ok (16 * v1 + v2)%Z.
Proof.
  intros H1 H2.
  destruct (hex_char_facts h1 v1 H1) as (_ & _ & _ & _ & Hin1).
  destruct (hex_char_facts h2 v2 H2) as (_ & _ & _ & _ & Hin2).
  pose proof hex_pairs_checked as Hc.
  rewrite forallb_forall in Hc. specialize (Hc h1 Hin1).
  rewrite forallb_forall in Hc. specialize (Hc h2 Hin2).
  rewrite H1, H2 in Hc.
  destruct (py_int 16 _) as [z | | ]; try discriminate.
  apply Z.eqb_eq in Hc. rewrite Hc. reflexivity.
Qed.

Lemma py_int_hex_single (h : ascii) (v : Z) :
  digit_val h = Some v -> py_int 16 (String h EmptyString) = Ok v.
Proof.
  intros H1.
  destruct (hex_char_facts h v H1) as (_ & _ & _ & _ & Hin1).
  pose proof hex_singles_checked as Hc.
  rewrite forallb_forall in Hc. specialize (Hc h Hin1). rewrite H1 in Hc.
  destruct (py_int 16 _) as [z | | ]; try discriminate.
  apply Z.eqb_eq in Hc. rewrite Hc. reflexivity.
Qed.

Lemma prefix_other_head (a b : ascii) (p r : string) :
  a <> b -> String.prefix (String a p) (String b r) = false.
Proof. intros H. cbn. destruct (ascii_dec a b); [contradiction | reflexivity]. Qed.

Lemma color_hex6 (h1 h2 h3 h4 h5 h6 : ascii) (v1 v2 v3 v4 v5 v6 : Z)
    (default : paint) :
  digit_val h1 = Some v1 -> digit_val h2 = Some v2 -> digit_val h3 = Some v3 ->
  digit_val h4 = Some v4 -> digit_val h5 = Some v5 -> digit_val h6 = Some v6 ->
  parse_color
    (Some (String "#" (String h1 (String h2 (String h3 (String h4 (String h5
             (String h6 EmptyString)))))))) default
  = (Ok (Color (16 * v1 + v2) (16 * v3 + v4) (16 * v5 + v6) 255), []).
Proof.
  intros H1 H2 H3 H4 H5 H6.
  destruct (hex_char_facts h1 v1 H1) as (_ & Hu & Hr & _ & _).
  destruct (hex_char_facts h6 v6 H6) as (S6 & _ & _ & _ & _).
  unfold parse_color. cbn [is_empty String.eqb Ascii.eqb Bool.eqb].
  replace (strip (String "#" (String h1 (String h2 (String h3 (String h4 (String h5
             (String h6 EmptyString))))))))
    with (String "#" (String h1 (String h2 (String h3 (String h4 (String h5
             (String h6 EmptyString))))))).
  2: { unfold strip. cbn [lstrip]. evaluate (is_space "#"). cbn iota.
       symmetry.
       exact (rstrip_end (String "#" (String h1 (String h2 (String h3 (String h4
                (String h5 EmptyString)))))) h6 S6). }
  cbn [Ascii.eqb Bool.eqb]. unfold color_body, startswith.
  rewrite (prefix_other_head "u" h1) by (intros E; apply Hu; symmetry; exact E).
  rewrite (prefix_other_head "r" h1) by (intros E; apply Hr; symmetry; exact E).
  cbn [String.length Nat.eqb slice take drop Nat.sub].
  rewrite (py_int_hex_pair h1 h2 v1 v2 H1 H2), (py_int_hex_pair h3 h4 v3 v4 H3 H4),
    (py_int_hex_pair h5 h6 v5 v6 H5 H6).
  reflexivity.
Qed.

Lemma color_hex3 (h1 h2 h3 : ascii) (v1 v2 v3 : Z) (default : paint) :
  digit_val h1 = Some v1 -> digit_val h2 = Some v2 -> digit_val h3 = Some v3 ->
  parse_color (Some (String "#" (String h1 (String h2 (String h3 EmptyString)))))
    default
  = (Ok (Color (v1 * 17) (v2 * 17) (v3 * 17) 255), []).
Proof.
  intros H1 H2 H3.
  destruct (hex_char_facts h1 v1 H1) as (_ & Hu & Hr & _ & _).
  destruct (hex_char_facts h3 v3 H3) as (S3 & _ & _ & _ & _).
  unfold parse_color. cbn [is_empty String.eqb Ascii.eqb Bool.eqb].
  replace (strip (String "#" (String h1 (String h2 (String h3 EmptyString)))))
    with (String "#" (String h1 (String h2 (String h3 EmptyString)))).
  2: { unfold strip. cbn [lstrip]. evaluate (is_space "#"). cbn iota.
       symmetry.
       exact (rstrip_end (String "#" (String h1 (String h2 EmptyString))) h3 S3). }
  cbn [Ascii.eqb Bool.eqb]. unfold color_body, startswith.
  rewrite (prefix_other_head "u" h1) by (intros E; apply Hu; symmetry; exact E).
  rewrite (prefix_other_head "r" h1) by (intros E; apply Hr; symmetry; exact E).
  cbn [String.length Nat.eqb slice take drop Nat.sub].
  rewrite (py_int_hex_single h1 v1 H1), (py_int_hex_single h2 v2 H2),
    (py_int_hex_single h3 v3 H3).
  reflexivity.
Qed.

(** X11.  Hexadecimal colours.  [#] and six hexadecimal digits give the
    three bytes that the pairs of digits spell, each between 0 and 255, and
    alpha 255.  [#] and three digits give the colour of the six-digit form
    in which every digit is doubled.  Nothing is printed. *)
Theorem parse_color_hex (h1 h2 h3 h4 h5 h6 : ascii) (v1 v2 v3 v4 v5 v6 : Z)
    (default : paint) :
  digit_val h1 = Some v1 -> digit_val h2 = Some v2 -> digit_val h3 = Some v3 ->
  digit_val h4 = Some v4 -> digit_val h5 = Some v5 -> digit_val h6 = Some v6 ->
  (parse_color
     (Some (String "#" (String h1 (String h2 (String h3 (String h4 (String h5
              (String h6 EmptyString)))))))) default
   = (Ok (Color (16 * v1 + v2) (16 * v3 + v4) (16 * v5 + v6) 255), []) /\
   (0 <= 16 * v1 + v2 <= 255)%Z /\ (0 <= 16 * v3 + v4 <= 255)%Z /\
   (0 <= 16 * v5 + v6 <= 255)%Z) /\
  parse_color (Some (String "#" (String h1 (String h2 (String h3 EmptyString)))))
    default
  = parse_color
      (Some (String "#" (String h1 (String h1 (String h2 (String h2 (String h3
               (String h3 EmptyString)))))))) default.
Proof.
  intros H1 H2 H3 H4 H5 H6.
  destruct (hex_char_facts h1 v1 H1) as (_ & _ & _ & B1 & _).
  destruct (hex_char_facts h2 v2 H2) as (_ & _ & _ & B2 & _).
  destruct (hex_char_facts h3 v3 H3) as (_ & _ & _ & B3 & _).
  destruct (hex_char_facts h4 v4 H4) as (_ & _ & _ & B4 & _).
  destruct (hex_char_facts h5 v5 H5) as (_ & _ & _ & B5 & _).
  destruct (hex_char_facts h6 v6 H6) as (_ & _ & _ & B6 & _).
  split.
  - split; [exact (color_hex6 _ _ _ _ _ _ _ _ _ _ _ _ default H1 H2 H3 H4 H5 H6) | lia].
  - rewrite (color_hex3 h1 h2 h3 v1 v2 v3 default H1 H2 H3).
    rewrite (color_hex6 h1 h1 h2 h2 h3 h3 v1 v1 v2 v2 v3 v3 default H1 H1 H2 H2 H3 H3).
    do 3 f_equal; f_equal; lia.
Qed.

Lemma parse_color_hex_witness :
  parse_color (Some "#ff0080") Sentinel = (Ok (Color 255 0 128 255), []) /\
  parse_color (Some "#ff0") Sentinel = parse_color (Some "#ffff00") Sentinel.
Proof.
  destruct (parse_color_hex "f" "f" "0" "0" "8" "0" 15 15 0 0 8 0 Sentinel
              eq_refl eq_refl eq_refl eq_refl eq_refl eq_refl) as [[H6 _] H3].
  split; [exact H6 | exact H3].
Defined.

End ParseMore.

(** ** parse.py: the scanners *)

Section ScanFacts.
Import Runs.

Lemma list_rev_app (a b : string) :
  String.list_ascii_of_string (String.rev_app a b)
  = rev (String.list_ascii_of_string a) ++ String.list_ascii_of_string b.
Proof.
  revert b. induction a as [ | c a IH]; intros b; [reflexivity | ].
  cbn [String.rev_app String.list_ascii_of_string rev]. rewrite IH.
  cbn [String.list_ascii_of_string]. rewrite <- app_assoc. reflexivity.
Qed.

Lemma rev_nonempty (cur : string) : cur <> "" -> String.rev cur <> "".
Proof.
  intros H E. apply H. apply (f_equal String.list_ascii_of_string) in E.
  unfold String.rev in E. rewrite list_rev_app, app_nil_r in E. cbn in E.
  destruct cur as [ | c cur]; [reflexivity | ].
  cbn in E. destruct (rev (String.list_ascii_of_string cur)); discriminate.
Qed.

Lemma finished_chars (st : scan_state) (cur : string) :
  (st <> Idle -> cur <> "") ->
  Forall (fun t => t <> "") (finished st cur) /\
  token_chars (finished st cur) `sublist_of` String.list_ascii_of_string (String.rev cur).
Proof.
  intros Hc.
  assert (Hone : st <> Idle ->
            Forall (fun t => t <> "") [String.rev cur] /\
            token_chars [String.rev cur]
              `sublist_of` String.list_ascii_of_string (String.rev cur)).
  { intros Hst. split.
    - constructor; [apply rev_nonempty, Hc, Hst | constructor].
    - unfold token_chars. cbn. rewrite app_nil_r. reflexivity. }
  destruct st; cbn [finished];
    try (apply Hone; discriminate);
    (split; [constructor | apply sublist_nil_l]).
Qed.

Lemma scan_chars (letters : bool) (s : string) :
  forall (st : scan_state) (cur : string),
  (st <> Idle -> cur <> "") ->
  Forall (fun t => t <> "") (scan letters st cur s) /\
  token_chars (scan letters st cur s)
    `sublist_of` (String.list_ascii_of_string (String.rev cur)
                  ++ String.list_ascii_of_string s).
Proof.
  induction s as [ | c r IH]; intros st cur Hc.
  - cbn [scan String.list_ascii_of_string]. rewrite app_nil_r.
    apply finished_chars, Hc.
  - cbn [scan].
    assert (Hrev : forall t : string,
              String.list_ascii_of_string (String.rev (String c t))
              = String.list_ascii_of_string (String.rev t) ++ [c]).
    { intros t. unfold String.rev. rewrite !list_rev_app. cbn. rewrite !app_nil_r.
      reflexivity. }
    destruct (extend st c) as [st' | ].
    + destruct (IH st' (String c cur)) as [F S]; [discriminate | ].
      split; [exact F | ]. rewrite Hrev, <- app_assoc in S. exact S.
    + destruct (finished_chars st cur Hc) as [F0 S0].
      assert (Htail : forall tokens : list string,
                Forall (fun t => t <> "") tokens ->
                token_chars tokens `sublist_of` (c :: String.list_ascii_of_string r) ->
                Forall (fun t => t <> "") (finished st cur ++ tokens) /\
                token_chars (finished st cur ++ tokens)
                  `sublist_of` (String.list_ascii_of_string (String.rev cur)
                                ++ String.list_ascii_of_string (String c r))).
      { intros tokens F S. split; [apply Forall_app; split; assumption | ].
        unfold token_chars. rewrite fmap_app, concat_app.
        apply sublist_app; assumption. }
      apply Htail.
      * destruct (letters && is_letter c).
        { constructor; [discriminate | ].
          apply (IH Idle EmptyString). intros H. contradiction. }
        destruct (is_digit c); [apply (IH IntPart (String c EmptyString)); discriminate | ].
        destruct (Ascii.eqb c "-");
          [apply (IH Minus (String c EmptyString)); discriminate | ].
        apply (IH Idle EmptyString). intros H. contradiction.
      * destruct (letters && is_letter c).
        { unfold token_chars. cbn [fmap list_fmap concat String.list_ascii_of_string app].
          apply sublist_skip. apply (IH Idle EmptyString). intros H. contradiction. }
        destruct (is_digit c).
        { destruct (IH IntPart (String c EmptyString)) as [_ S]; [discriminate | ].
          exact S. }
        destruct (Ascii.eqb c "-").
        { destruct (IH Minus (String c EmptyString)) as [_ S]; [discriminate | ].
          exact S. }
        apply sublist_cons. apply (IH Idle EmptyString). intros H. contradiction.
Qed.

(** X8.  The tokens of [parse_list], and of the scanner of [points],
    are never empty and, read one after the other, spell a subsequence of the
    input: the scanners drop characters, they never add or reorder any. *)
Theorem parse_list_tokens (s : string) :
  (Forall (fun t => t <> "") (parse_list s) /\
   token_chars (parse_list s) `sublist_of` String.list_ascii_of_string s) /\
  (Forall (fun t => t <> "") (parse_numbers s) /\
   token_chars (parse_numbers s) `sublist_of` String.list_ascii_of_string s).
Proof.
  split; apply (scan_chars _ s Idle EmptyString); intros H; contradiction.
Qed.

End ScanFacts.

(** ** svg.py: lengths, points, cubics, arcs, merging, shapes, path data,
    frames and the document head *)

Section FloatFacts.

Lemma rev_app_app (s1 s2 acc : string) :
  String.rev_app (s1 +:+ s2) acc = String.rev_app s2 (String.rev_app s1 acc).
Proof.
  revert acc. induction s1 as [ | a r IH]; intros acc; [reflexivity | ].
  change (String a r +:+ s2) with (String a (r +:+ s2)). cbn [String.rev_app].
  apply IH.
Qed.

Lemma app_px (s : string) : s +:+ "px" = (s +:+ "p") +:+ "x".
Proof.
  induction s as [ | a r IH]; [reflexivity | ].
  change (String a r +:+ "px") with (String a (r +:+ "px")).
  change ((String a r +:+ "p") +:+ "x") with (String a ((r +:+ "p") +:+ "x")).
  rewrite IH. reflexivity.
Qed.

(** X13.  [parse_float] reads a length with the suffix [px] as [float]
    reads the text before the suffix: same number, same exception. *)
Theorem parse_float_px (s : string) :
  parse_float (s +:+ "px") = py_float s.
Proof.
  unfold parse_float.
  assert (E : endswith (s +:+ "px") "px" = true).
  { unfold endswith, String.rev. rewrite rev_app_app. cbn.
    destruct (String.rev_app s ""); reflexivity. }
  rewrite E, app_px, !drop_last_app_char. reflexivity.
Qed.

End FloatFacts.

Section PointsFacts.
Import Runs.

Lemma drawn_cons (x y : R) (vals : list point) (s : SVG) :
  drawn vals (set_self_loop (self_loop s ++ [(x, y)]) (set_self_y y (set_self_x x s)))
  = drawn ((x, y) :: vals) s.
Proof.
  unfold drawn. destruct vals as [ | v vals']; [reflexivity | ].
  change (last ((x, y) :: v :: vals')) with (last (v :: vals')).
  destruct (last (v :: vals')) as [[lx ly] | ] eqn:El.
  - mcbn. rewrite <- app_assoc. reflexivity.
  - apply last_None in El. discriminate.
Qed.

Lemma points_loop_run (vals : list point) :
  forall (toks : list string) (odd : list R) (s : SVG),
  mapM py_float toks = Ok (flat vals ++ odd) ->
  (length odd <= 1)%nat ->
  points_loop toks s =
  (match odd with [] => Ok tt | _ => Raise IndexError end, drawn vals s).
Proof.
  induction vals as [ | [x y] vals IH]; intros toks odd s H Hodd.
  - destruct toks as [ | a [ | b toks]].
    + cbn in H. injection H as <-. reflexivity.
    + cbn in H. destruct (py_float a) as [xa | | ] eqn:Ea; cbn in H; try discriminate.
      injection H as <-. cbn [points_loop]. rewrite run_bind. unfold lift at 1.
      rewrite Ea. reflexivity.
    + exfalso. cbn in H. destruct (py_float a); cbn in H; try discriminate.
      destruct (py_float b); cbn in H; try discriminate.
      destruct (mapM py_float toks); cbn in H; try discriminate.
      injection H as <-. cbn in Hodd. lia.
  - destruct toks as [ | a [ | b toks]]; cbn in H; try discriminate.
    + destruct (py_float a); discriminate.
    + destruct (py_float a) as [xa | | ] eqn:Ea; cbn in H; try discriminate.
      destruct (py_float b) as [yb | | ] eqn:Eb; cbn in H; try discriminate.
      destruct (mapM py_float toks) as [rest | | ] eqn:Er; cbn in H; try discriminate.
      injection H as -> -> ->.
      cbn [points_loop]. rewrite run_bind. unfold lift at 1. rewrite Ea.
      rewrite run_bind. unfold lift at 1. rewrite Eb.
      rewrite run_bind. unfold line_to, set_position. mrun.
      rewrite (IH toks odd _ Er Hodd). rewrite drawn_cons. reflexivity.
Qed.

Lemma flat_length (vals : list point) :
  length (flat vals) = (2 * length vals)%nat.
Proof.
  induction vals as [ | v vals IHv]; [reflexivity | ].
  unfold flat in IHv |- *. cbn [fmap list_fmap concat app length]. rewrite IHv. lia.
Qed.

(** X14.  The loop of [polyline] and [polygon] on tokens that are all
    numbers adds one point per pair of numbers to the loop; with an even
    count it returns, with an odd count it raises [IndexError] after the
    points of the complete pairs were added. *)
Theorem points_loop_parity (toks : list string) (nums : list R) (s : SVG) :
  mapM py_float toks = Ok nums ->
  exists vals : list point,
    length vals = Nat.div2 (length nums) /\
    self_loop (snd (points_loop toks s)) = self_loop s ++ vals /\
    fst (points_loop toks s) =
      (if Nat.even (length nums) then Ok tt else Raise IndexError).
Proof.
  intros H.
  assert (Hsplit : exists vals odd, nums = flat vals ++ odd /\ (length odd <= 1)%nat).
  { clear H.
    assert (Hn : forall (n : nat) (l : list R), (length l <= n)%nat ->
              exists vals odd, l = flat vals ++ odd /\ (length odd <= 1)%nat).
    { induction n as [ | n IH]; intros l Hl.
      - destruct l; [ | cbn in Hl; lia].
        exists [], []. split; [reflexivity | cbn; lia].
      - destruct l as [ | a [ | b l]].
        + exists [], []. split; [reflexivity | cbn; lia].
        + exists [], [a]. split; [reflexivity | cbn; lia].
        + destruct (IH l) as (vals & odd & -> & Ho); [cbn in Hl; lia | ].
          exists ((a, b) :: vals), odd. split; [reflexivity | exact Ho]. }
    exact (Hn (length nums) nums (le_n _)). }
  destruct Hsplit as (vals & odd & -> & Ho).
  rewrite (points_loop_run vals toks odd s H Ho). cbn [fst snd].
  pose proof (flat_length vals) as Hlen.
  exists vals. rewrite length_app, Hlen.
  split; [ | split].
  - destruct odd as [ | o [ | ]]; cbn [length] in Ho |- *; try lia.
    + rewrite Nat.add_0_r. symmetry. apply (Nat.div2_double (length vals)).
    + replace (2 * length vals + 1)%nat with (S (2 * length vals)) by lia.
      symmetry. apply Nat.div2_succ_double.
  - unfold drawn. destruct (last vals) as [[lx ly] | ] eqn:El; [reflexivity | ].
    apply last_None in El. rewrite El, app_nil_r. reflexivity.
  - destruct odd as [ | o [ | ]]; cbn [length] in Ho |- *; try lia.
    + rewrite Nat.add_0_r, Nat.even_mul. reflexivity.
    + rewrite Nat.even_add, Nat.even_mul. reflexivity.
Qed.

End PointsFacts.

Lemma three_numbers : mapM py_float ["1"; "2"; "3"] = Ok [1; 2; 3].
Proof. cbn [mapM]. eval_floats. reflexivity. Qed.

Lemma points_loop_parity_witness :
  fst (points_loop ["1"; "2"; "3"] fresh) = Raise IndexError.
Proof.
  destruct (points_loop_parity ["1"; "2"; "3"] [1; 2; 3] fresh three_numbers)
    as (vals & _ & _ & H).
  exact H.
Defined.

Section CurveMore.

Lemma range_cons (n : Z) : (0 < n)%Z -> range n = 0%Z :: seqZ 1 (n - 1).
Proof.
  intros Hn. unfold range. rewrite (seqZ_cons 0 n) by lia.
  replace (Z.succ 0) with 1%Z by lia. replace (Z.pred n) with (n - 1)%Z by lia.
  reflexivity.
Qed.

Lemma bezier_point_start (p0 p1 p2 p3 : point) (n : Z) :
  bezier_point p0 p1 p2 p3 (bernstein (IZR 0 / IZR n)) = p0.
Proof.
  replace (IZR 0 / IZR n) with 0 by (unfold Rdiv; ring).
  unfold bezier_point, bernstein. destruct p0 as [x y]. cbn [fst snd].
  f_equal; ring.
Qed.

(** X15.  With a positive [bezier_points], [curve_to] appends
    [bezier_points + 1] samples to the loop: the first is the current point
    and the last is the end point, which becomes the current point. *)
Theorem curve_to_samples (s : SVG) (x1 y1 x2 y2 x y : R) :
  (0 < bezier_points s)%Z ->
  coefficients_ready s ->
  exists (pts : list point) (s' : SVG),
    curve_to x1 y1 x2 y2 x y s = (Ok tt, s') /\
    self_loop s' = self_loop s ++ pts /\
    length pts = Z.to_nat (bezier_points s + 1) /\
    head pts = Some (self_x s, self_y s) /\
    last pts = Some (x, y) /\
    (self_x s', self_y s') = (x, y).
Proof.
  intros Hn Hready.
  assert (Hnz : IZR (bezier_points s) <> 0) by (apply not_0_IZR; lia).
  set (n := bezier_points s) in *.
  set (table := (fun i : Z => bernstein (IZR i / IZR n)) <$> range (n + 1)).
  assert (Hlast : last table = Some (bernstein (IZR n / IZR n))).
  { unfold table. rewrite fmap_last, range_last by lia. reflexivity. }
  assert (Hfill : exists s1, fill_bezier_coefficients s = (Ok tt, s1) /\
            bezier_coefficients s1 = table /\ self_x s1 = self_x s /\ self_y s1 = self_y s /\
            self_loop s1 = self_loop s).
  { unfold fill_bezier_coefficients. mrun.
    destruct Hready as [Hempty | Htable].
    - rewrite Hempty. fold n.
      rewrite (mapM_all_ok _ (fun i : Z => bernstein (IZR i / IZR n))).
      + mrun. eexists. split; [reflexivity | ]. mcbn. auto.
      + intros i. rewrite py_div_nonzero by exact Hnz. reflexivity.
    - destruct (bezier_coefficients s) as [ | row rows] eqn:Hb.
      + exfalso. fold n table in Htable. rewrite <- Htable in Hlast. discriminate.
      + mrun. exists s. rewrite Hb. repeat split; try reflexivity. exact Htable. }
  destruct Hfill as (s1 & Hf & Hb & Hx & Hy & Hl).
  unfold curve_to. rewrite run_bind, Hf. mrun. rewrite Hb, Hx, Hy, Hl.
  set (pts := bezier_point (self_x s, self_y s) (x1, y1) (x2, y2) (x, y) <$> table).
  assert (Hpl : last pts = Some (x, y)).
  { unfold pts. rewrite fmap_last, Hlast. cbn [fmap option_fmap option_map].
    rewrite bezier_point_end by exact Hn. reflexivity. }
  exists pts. eexists. split.
  { match goal with
    | |- context [match ?o with Some _ => _ | None => _ end] =>
        replace o with (@Some point (x, y)) by (symmetry; exact Hpl)
    end.
    mrun. reflexivity. }
  mcbn.
  split; [reflexivity | ].
  split.
  { unfold pts, table. rewrite !length_fmap. unfold range. apply length_seqZ. }
  split.
  { unfold pts, table. rewrite range_cons by lia. cbn [fmap list_fmap head].
    rewrite bezier_point_start. reflexivity. }
  split; [exact Hpl | reflexivity].
Qed.

(** X16.  With no table of coefficients yet, [curve_to] raises
    [ZeroDivisionError] when [bezier_points] is zero, the object being left
    untouched, and [UnboundLocalError] when it is negative, after
    [last_cx, last_cy] were assigned and no point was added. *)
Theorem curve_to_degenerate (s : SVG) (x1 y1 x2 y2 x y : R) :
  bezier_coefficients s = [] ->
  (bezier_points s = 0%Z ->
   curve_to x1 y1 x2 y2 x y s = (Raise ZeroDivisionError, s)) /\
  ((bezier_points s < 0)%Z ->
   exists s', curve_to x1 y1 x2 y2 x y s = (Raise UnboundLocalError, s') /\
              self_last_c s' = Some (x2, y2) /\ self_loop s' = self_loop s).
Proof.
  intros Hb. split; intros Hn.
  - unfold curve_to, fill_bezier_coefficients. mrun. rewrite Hb, Hn.
    unfold range. change (0 + 1)%Z with 1%Z. rewrite (seqZ_cons 0 1) by lia.
    cbn [mapM]. rewrite (py_div_zero (IZR 0)). reflexivity.
  - unfold curve_to, fill_bezier_coefficients. mrun. rewrite Hb.
    unfold range. rewrite seqZ_nil by lia. cbn [mapM]. mrun.
    eexists. split; [reflexivity | ]. mcbn. split; [reflexivity | apply app_nil_r].
Qed.

End CurveMore.

Lemma curve_to_samples_witness :
  (0 < bezier_points fresh)%Z /\ coefficients_ready fresh /\
  exists pts s', curve_to 1 1 2 2 3 3 fresh = (Ok tt, s') /\
    head pts = Some (self_x fresh, self_y fresh) /\ last pts = Some (3, 3).
Proof.
  assert (Hn : (0 < bezier_points fresh)%Z) by (vm_compute; reflexivity).
  assert (Hr : coefficients_ready fresh) by (left; reflexivity).
  split; [exact Hn | ]. split; [exact Hr | ].
  destruct (curve_to_samples fresh 1 1 2 2 3 3 Hn Hr)
    as (pts & s' & Hc & _ & _ & Hh & Hl & _).
  exists pts, s'. auto.
Defined.

Lemma curve_to_degenerate_witness :
  curve_to 1 1 2 2 3 3 Cases.no_bezier = (Raise ZeroDivisionError, Cases.no_bezier).
Proof.
  exact (proj1 (curve_to_degenerate Cases.no_bezier 1 1 2 2 3 3 eq_refl) eq_refl).
Defined.

Section ArcMore.

Lemma arc_parameters_zero (circle : Z) (x1 y1 rx ry phi : R) (large_arc sweep : Z)
    (x2 y2 : R) :
  rx = 0 \/ ry = 0 \/ (x1, y1) = (x2, y2) ->
  arc_parameters circle x1 y1 rx ry phi large_arc sweep x2 y2 = Raise ZeroDivisionError.
Proof.
  intros H. unfold arc_parameters.
  set (cp := cos phi). set (sp := sin phi).
  set (dx := 1 / 2 * (x1 - x2)). set (dy := 1 / 2 * (y1 - y2)).
  cbv zeta.
  set (x_ := cp * dx + sp * dy). set (y_ := - sp * dx + cp * dy).
  set (D := (rx * y_) ^ 2 + (ry * x_) ^ 2).
  assert (Hz : forall a b : R, b = 0 -> py_div a b = Raise ZeroDivisionError)
    by (intros a b ->; apply py_div_zero).
  destruct (Req_dec D 0) as [HD | HD].
  { match goal with |- (py_div ?a D ≫= _) = _ => rewrite (Hz a D HD) end.
    reflexivity. }
  match goal with
  | |- (py_div ?a D ≫= _) = _ => rewrite (py_div_nonzero a D) by exact HD
  end.
  cbn [mbind result_bind].
  rewrite py_sqrt_nonneg by apply clamp_radicand_nonneg. cbn [mbind result_bind].
  destruct (Req_dec ry 0) as [Hry | Hry].
  { match goal with |- (py_div ?a ry ≫= _) = _ => rewrite (Hz a ry Hry) end.
    reflexivity. }
  match goal with
  | |- (py_div ?a ry ≫= _) = _ => rewrite (py_div_nonzero a ry) by exact Hry
  end.
  cbn [mbind result_bind].
  destruct (Req_dec rx 0) as [Hrx | Hrx].
  { match goal with |- (py_div ?a rx ≫= _) = _ => rewrite (Hz a rx Hrx) end.
    reflexivity. }
  exfalso. destruct H as [H | [H | H]]; [contradiction | contradiction | ].
  injection H as Hx Hy. apply HD. unfold D, x_, y_, dx, dy. rewrite Hx, Hy. ring.
Qed.

Lemma arc_to_zero (s : SVG) (rx ry phi : R) (large_arc sweep : Z) (x y : R) :
  rx = 0 \/ ry = 0 \/ (self_x s, self_y s) = (x, y) ->
  arc_to rx ry phi large_arc sweep x y s = (Raise ZeroDivisionError, s).
Proof.
  intros H. unfold arc_to. mrun. rewrite arc_parameters_zero by exact H. reflexivity.
Qed.

(** X17.  With a radius that is zero, or an end point that is the current
    point, [arc_to] raises [ZeroDivisionError] and leaves the object
    untouched: no point is added. *)
Theorem arc_to_zero_division (s : SVG) (rx ry phi : R) (large_arc sweep : Z) (x y : R) :
  rx = 0 \/ ry = 0 \/ (self_x s, self_y s) = (x, y) ->
  arc_to rx ry phi large_arc sweep x y s = (Raise ZeroDivisionError, s).
Proof. exact (arc_to_zero s rx ry phi large_arc sweep x y). Qed.

Lemma arc_to_zero_division_witness :
  arc_to 0 1 0 0 1 10 0 fresh = (Raise ZeroDivisionError, fresh).
Proof. apply (arc_to_zero_division fresh 0 1 0 0 1 10 0). left. reflexivity. Defined.

End ArcMore.

Section MergeMore.

Lemma merge_after_sublist (pts : list point) :
  forall kept, merge_after kept pts `sublist_of` pts.
Proof.
  induction pts as [ | pt rest IH]; intros kept; cbn [merge_after]; [constructor | ].
  destruct (far pt kept).
  - apply sublist_skip, IH.
  - apply sublist_cons, IH.
Qed.

Lemma merge_after_spaced (pts : list point) :
  forall (kept : point) (i : nat) (p q : point),
  (kept :: merge_after kept pts) !! i = Some p ->
  (kept :: merge_after kept pts) !! S i = Some q ->
  TOLERANCE < (q.1 - p.1) ^ 2 + (q.2 - p.2) ^ 2.
Proof.
  induction pts as [ | pt rest IH]; intros kept i p q Hp Hq; cbn [merge_after] in *.
  - destruct i; discriminate.
  - destruct (far pt kept) eqn:Hfar.
    + destruct i as [ | i].
      * cbn in Hp, Hq. injection Hp as <-. injection Hq as <-.
        unfold far in Hfar. apply bool_decide_eq_true in Hfar. exact Hfar.
      * exact (IH pt i p q Hp Hq).
    + exact (IH kept i p q Hp Hq).
Qed.

(** X18.  The merge pass of [end_path] yields one loop per non-empty
    loop of the path.  Every loop it yields starts with the first point of
    its original, keeps a subsequence of the points after it, and any two
    consecutive points of it are more than [TOLERANCE] apart in squared
    distance. *)
Theorem merge_pass_spacing (path : list loop) :
  Forall (fun l : loop =>
            exists (p0 : point) (rest kept : list point),
              In (p0 :: rest) path /\ l = p0 :: kept /\ kept `sublist_of` rest /\
              forall (i : nat) (p q : point),
                l !! i = Some p -> l !! S i = Some q ->
                TOLERANCE < (q.1 - p.1) ^ 2 + (q.2 - p.2) ^ 2)
         (merge_path path) /\
  length (merge_path path) = length (List.filter nonempty path).
Proof.
  induction path as [ | l path [IH1 IH2]]; [split; [constructor | reflexivity] | ].
  destruct l as [ | p0 rest].
  - cbn [merge_path List.filter nonempty]. split; [ | exact IH2].
    eapply Forall_impl; [exact IH1 | ].
    intros l (q0 & r & k & Hin & Hl & Hs & Hsp).
    exists q0, r, k. split; [right; exact Hin | auto].
  - change (merge_path ((p0 :: rest) :: path))
      with (merge_loop (p0 :: rest) :: merge_path path).
    rewrite merge_loop_cons. cbn [List.filter nonempty length]. split; [ | f_equal; exact IH2].
    constructor.
    + exists p0, rest, (merge_after p0 rest).
      split; [left; reflexivity | ]. split; [reflexivity | ].
      split; [apply merge_after_sublist | apply merge_after_spaced].
    + eapply Forall_impl; [exact IH1 | ].
      intros l (q0 & r & k & Hin & Hl & Hs & Hsp).
      exists q0, r, k. split; [right; exact Hin | auto].
Qed.

End MergeMore.

Section EndPathFacts.
Variable triangulate : list loop -> M (list point).

(** X19.  [end_path] always records exactly one [SvgPath], even for a
    path without any point, since the loop appended first makes [self.path]
    non-empty: the object is appended to [self.paths], stored in
    [path_lookup] under the current id (replacing an earlier entry of that
    id), printed, and [self.path] is emptied.  Its outline is the merged path
    when the stroke is truthy and none otherwise; its polygon is the result
    of [triangulate] when the fill is truthy and none otherwise.
    [triangulate] is taken to return and to leave the attributes read here
    unchanged. *)
Theorem end_path_records (s : SVG) :
  (forall (l : list loop) (s0 : SVG), exists tlist, triangulate l s0 = (Ok tlist, s0)) ->
  exists (po : SvgPath) (s' : SVG),
    end_path triangulate s = (Ok tt, s') /\
    self_paths s' = self_paths s ++ [po] /\
    path_lookup s' = <[path_id s := po]> (path_lookup s) /\
    self_path s' = [] /\
    sp_path po = (if truthy (self_stroke s)
                  then merge_path (self_path s ++ [self_loop s]) else []) /\
    (truthy (self_fill s) = false -> sp_polygon po = None) /\
    (truthy (self_fill s) = true ->
     exists tlist,
       triangulate (merge_path (self_path s ++ [self_loop s]))
         (set_self_path (self_path s ++ [self_loop s]) s)
       = (Ok tlist, set_self_path (self_path s ++ [self_loop s]) s) /\
       sp_polygon po = Some tlist) /\
    (sp_stroke po, sp_fill po, sp_transform po, sp_id po)
      = (self_stroke s, self_fill s, self_transform s, path_id s) /\
    printed s' = printed s ++ [PathPrinted (sp_path po)].
Proof.
  intros Hpure. unfold end_path. mrun.
  assert (Hne : nonempty (self_path s ++ [self_loop s]) = true)
    by (destruct (self_path s); reflexivity).
  rewrite Hne.
  destruct (truthy (self_fill s)) eqn:Hfill.
  - destruct (Hpure (merge_path (self_path s ++ [self_loop s]))
                (set_self_path (self_path s ++ [self_loop s]) s)) as (tlist & Htri).
    mrun. unfold set_self_path in Htri |- *. rewrite Htri. unfold print. mrun.
    do 2 eexists. split; [reflexivity | ]. mcbn.
    repeat split; try reflexivity; try discriminate.
    + intros _. exists tlist. split; reflexivity.
    + destruct (self_transform s). reflexivity.
  - unfold print. mrun.
    do 2 eexists. split; [reflexivity | ]. mcbn.
    repeat split; try reflexivity; try discriminate.
    destruct (self_transform s). reflexivity.
Qed.

End EndPathFacts.

Lemma end_path_records_witness :
  exists po s',
    end_path no_triangulate fresh = (Ok tt, s') /\
    self_paths s' = self_paths fresh ++ [po] /\
    path_lookup s' = <[path_id fresh := po]> (path_lookup fresh).
Proof.
  destruct (end_path_records no_triangulate fresh) as (po & s' & He & Hp & Hl & _).
  { intros l s0. exists []. reflexivity. }
  exists po, s'. auto.
Defined.

Section ShapeFacts.
Import Runs.
Variable triangulate : list loop -> M (list point).

Lemma for_each_line_to {A : Type} (f : A -> point) (body : A -> M unit) (l : list A) :
  forall s : SVG,
  (forall a s0, In a l -> body a s0 = line_to (f a).1 (f a).2 s0) ->
  for_each l body s = (Ok tt, drawn (f <$> l) s).
Proof.
  induction l as [ | a l IH]; intros s Hb; [reflexivity | ].
  change (for_each (a :: l) body) with (body a ≫= fun _ => for_each l body).
  rewrite run_bind, (Hb a s (or_introl eq_refl)).
  unfold line_to, set_position. mrun.
  rewrite IH by (intros a' s0 Hin; apply Hb; right; exact Hin).
  cbn [fmap list_fmap]. destruct (f a) as [x y]. cbn [fst snd].
  rewrite drawn_cons. reflexivity.
Qed.

Lemma drawn_fields (vals : list point) (s : SVG) :
  self_loop (drawn vals s) = self_loop s ++ vals /\
  self_path (drawn vals s) = self_path s /\
  self_fill (drawn vals s) = self_fill s /\
  self_stroke (drawn vals s) = self_stroke s /\
  self_paths (drawn vals s) = self_paths s.
Proof.
  unfold drawn. destruct (last vals) as [[lx ly] | ] eqn:El; mcbn.
  - repeat split; reflexivity.
  - apply last_None in El. rewrite El, app_nil_r. repeat split; reflexivity.
Qed.

Lemma close_path_nonempty (s : SVG) (p0 : point) (l : list point) :
  self_loop s = p0 :: l ->
  close_path s =
  (Ok tt, set_self_loop [] (set_self_path (self_path s ++ [(p0 :: l) ++ [p0]]) s)).
Proof. intros H. unfold close_path. mrun. rewrite H. mrun. reflexivity. Qed.

(** X20.  The [circle] and [ellipse] branches: with [circle_points]
    zero or negative they raise [IndexError] (the loop to close is empty);
    with a positive [circle_points] they reach [end_path] with one closed
    loop of [circle_points] vertices, the first being [(cx + rx, cy)] and
    repeated at the end. *)
Theorem draw_round_vertices (cx cy rx ry : R) (s : SVG) :
  ((circle_points s <= 0)%Z ->
   fst (draw_round triangulate cx cy rx ry s) = Raise IndexError) /\
  ((0 < circle_points s)%Z ->
   exists (pts : list point) (s1 : SVG),
     draw_round triangulate cx cy rx ry s = end_path triangulate s1 /\
     self_path s1 = [pts ++ [(cx + rx, cy)]] /\ self_loop s1 = [] /\
     (self_fill s1, self_stroke s1, self_paths s1)
       = (self_fill s, self_stroke s, self_paths s) /\
     length pts = Z.to_nat (circle_points s) /\
     head pts = Some (cx + rx, cy)).
Proof.
  split; intros Hn.
  - unfold draw_round, new_path. mrun. unfold range. rewrite seqZ_nil by lia.
    cbn [for_each]. mrun. rewrite close_path_empty by reflexivity. reflexivity.
  - assert (Hnz : IZR (circle_points s) <> 0) by (apply not_0_IZR; lia).
    set (n := circle_points s) in *.
    set (vertex := (fun i : Z =>
           (cx + rx * cos (2 * IZR i * PI / IZR n),
            cy + ry * sin (2 * IZR i * PI / IZR n))) : Z -> point).
    unfold draw_round, new_path. mrun. fold n.
    rewrite (for_each_line_to vertex).
    2: { intros i s0 _. rewrite run_bind. unfold lift.
         rewrite py_div_nonzero by exact Hnz. reflexivity. }
    match goal with |- context [drawn _ ?st] => set (s0 := st) end.
    destruct (drawn_fields (vertex <$> range n) s0) as (Hl & Hp & Hf & Hs & Hps).
    cbn in Hl, Hp, Hf, Hs, Hps.
    assert (Hhead : head (vertex <$> range n) = Some (cx + rx, cy)).
    { rewrite range_cons by lia. cbn [fmap list_fmap head]. unfold vertex.
      replace (2 * IZR 0 * PI / IZR n) with 0 by (unfold Rdiv; ring).
      rewrite cos_0, sin_0. do 2 f_equal; ring. }
    exists (vertex <$> range n). eexists.
    split.
    { rewrite run_bind.
      remember (vertex <$> range n) as vs eqn:Ev.
      destruct vs as [ | p0 pts]; [discriminate | ].
      injection Hhead as ->.
      rewrite (close_path_nonempty _ (cx + rx, cy) pts Hl). rewrite Ev. reflexivity. }
    mcbn. rewrite Hp, Hf, Hs, Hps.
    split; [reflexivity | ]. split; [reflexivity | ]. split; [reflexivity | ].
    split.
    { rewrite length_fmap. unfold range. apply length_seqZ. }
    exact Hhead.
Qed.

(** X21.  A [rect] without [rx] and [ry] reaches [end_path] with an empty
    path and the loop of its four corners, which ends at the first corner
    again, the fill, the stroke and the paths recorded so far being those of
    the call. *)
Theorem draw_rect_corners (e : element) (x y w h : R) (s : SVG) :
  attr_float e "x" = Ok x -> attr_float e "y" = Ok y ->
  attr_float e "width" = Ok w -> attr_float e "height" = Ok h ->
  e_get e "rx" = None -> e_get e "ry" = None ->
  exists s1 : SVG,
    draw_rect triangulate e s = end_path triangulate s1 /\
    self_path s1 = [] /\
    self_loop s1 = [(x, y); (x + w, y); (x + w, y + h); (x, y + h); (x, y)] /\
    (self_fill s1, self_stroke s1, self_paths s1)
      = (self_fill s, self_stroke s, self_paths s).
Proof.
  intros Hx Hy Hw Hh Hrx Hry.
  unfold draw_rect. rewrite run_bind. unfold lift at 1. rewrite Hx.
  rewrite run_bind. unfold lift at 1. rewrite Hy.
  rewrite run_bind. unfold lift at 1. rewrite Hh.
  rewrite run_bind. unfold lift at 1. rewrite Hw.
  rewrite Hrx, Hry. unfold new_path, line_to, set_position. mrun.
  eexists. split; [reflexivity | ]. mcbn. repeat split; reflexivity.
Qed.

End ShapeFacts.

Lemma sized_rect_attrs :
  attr_float Cases.sized_rect "x" = Ok 0 /\ attr_float Cases.sized_rect "y" = Ok 0 /\
  attr_float Cases.sized_rect "width" = Ok 4 /\
  attr_float Cases.sized_rect "height" = Ok 3.
Proof.
  unfold attr_float. eval_attrs Cases.sized_rect. cbn [py_float_opt]. eval_floats.
  repeat split; reflexivity.
Qed.

Lemma draw_rect_corners_witness :
  exists s1,
    draw_rect no_triangulate Cases.sized_rect fresh = end_path no_triangulate s1 /\
    self_loop s1 = [(0, 0); (0 + 4, 0); (0 + 4, 0 + 3); (0, 0 + 3); (0, 0)].
Proof.
  destruct sized_rect_attrs as (Hx & Hy & Hw & Hh).
  destruct (draw_rect_corners no_triangulate Cases.sized_rect 0 0 4 3 fresh
              Hx Hy Hw Hh eq_refl eq_refl) as (s1 & Hd & _ & Hl & _).
  exists s1. split; [exact Hd | exact Hl].
Defined.

Section LoopFacts.
Import Runs.

Lemma py_float_not_loops (t : string) : py_float t <> Loops.
Proof. unfold py_float. destruct (float_literal t) as [[m e] | ]; discriminate. Qed.

Lemma bind_pop_float (pd0 pd : list string) (k : R * list string -> M (list string))
    (s : SVG) :
  (length pd <= length pd0)%nat ->
  (forall v rest, (length rest < length pd)%nat -> pops pd0 (k (v, rest) s)) ->
  pops pd0 ((lift (pop_float pd) ≫= k) s).
Proof.
  intros Hle Hk. rewrite run_bind. unfold lift, pop_float, pop.
  destruct pd as [ | t rest]; [exact I | ].
  cbn [mbind result_bind].
  pose proof (py_float_not_loops t) as Hnl.
  destruct (py_float t) as [v | e | ]; cbn [mbind result_bind];
    [ | exact I | contradiction].
  apply Hk. cbn. lia.
Qed.

Lemma bind_pop_int (pd0 pd : list string) (k : Z * list string -> M (list string))
    (s : SVG) :
  (length pd <= length pd0)%nat ->
  (forall v rest, (length rest < length pd)%nat -> pops pd0 (k (v, rest) s)) ->
  pops pd0 ((lift (pop_int pd) ≫= k) s).
Proof.
  intros Hle Hk. rewrite run_bind. unfold lift, pop_int, pop.
  destruct pd as [ | t rest]; [exact I | ].
  cbn [mbind result_bind].
  pose proof (py_int_not_loops 10 t) as Hnl.
  destruct (py_int 10 t) as [v | e | ]; cbn [mbind result_bind];
    [ | exact I | contradiction].
  apply Hk. cbn. lia.
Qed.

Lemma bind_pnext (pd0 pd : list string) (k : R * R * list string -> M (list string))
    (s : SVG) :
  (length pd <= length pd0)%nat ->
  (forall x y rest, (length rest < length pd)%nat -> pops pd0 (k (x, y, rest) s)) ->
  pops pd0 ((lift (pnext pd) ≫= k) s).
Proof.
  intros Hle Hk. rewrite run_bind. unfold lift, pnext, pop_float, pop.
  destruct pd as [ | a rest]; [exact I | ].
  cbn [mbind result_bind].
  pose proof (py_float_not_loops a) as Hna.
  destruct (py_float a) as [x | e | ]; cbn [mbind result_bind];
    [ | exact I | contradiction].
  destruct rest as [ | b rest]; [exact I | ].
  cbn [mbind result_bind].
  pose proof (py_float_not_loops b) as Hnb.
  destruct (py_float b) as [y | e | ]; cbn [mbind result_bind];
    [ | exact I | contradiction].
  apply Hk. cbn. lia.
Qed.

Lemma bind_draw (pd0 rest : list string) (m : M unit) (s : SVG) :
  (length rest < length pd0)%nat ->
  fst (m s) <> Loops ->
  pops pd0 ((m ≫= fun _ => mret rest) s).
Proof.
  intros Hlen Hm. rewrite run_bind.
  destruct (m s) as [[[] | e | ] s1]; cbn in Hm |- *; [exact Hlen | exact I | contradiction].
Qed.

Lemma set_position_not_loops (x y : R) (s : SVG) : fst (set_position x y s) <> Loops.
Proof. discriminate. Qed.

Lemma curve_to_not_loops (x1 y1 x2 y2 x y : R) (s : SVG) :
  fst (curve_to x1 y1 x2 y2 x y s) <> Loops.
Proof.
  unfold curve_to. rewrite run_bind. unfold fill_bezier_coefficients at 1.
  rewrite run_bind. cbn [get].
  destruct (bezier_coefficients s) as [ | row rows] eqn:Hb.
  - rewrite run_bind. unfold lift at 1.
    match goal with |- context [mapM ?f ?l] =>
      pose proof (mapM_not_loops f l) as Hm; destruct (mapM f l) as [rows | e | ]
    end.
    + mrun.
      match goal with
      | |- context [match ?o with Some _ => _ | None => _ end] =>
          destruct o as [[px py] | ]
      end; mcbn; discriminate.
    + discriminate.
    + exfalso. apply Hm; [ | reflexivity].
      intros i. unfold py_div. destruct (decide (IZR (bezier_points s) = 0)); discriminate.
  - mrun.
    match goal with
    | |- context [match ?o with Some _ => _ | None => _ end] =>
        destruct o as [[px py] | ]
    end; mcbn; discriminate.
Qed.

Lemma py_div_not_loops (a b : R) : py_div a b <> Loops.
Proof. unfold py_div. destruct (decide (b = 0)); discriminate. Qed.

Lemma py_sqrt_not_loops (a : R) : py_sqrt a <> Loops.
Proof. unfold py_sqrt. destruct (decide (a < 0)); discriminate. Qed.

Lemma py_acos_not_loops (a : R) : py_acos a <> Loops.
Proof.
  unfold py_acos. destruct (decide (a < -1)); [discriminate | ].
  destruct (decide (1 < a)); discriminate.
Qed.

Lemma angle_not_loops (u v : point) : angle u v <> Loops.
Proof.
  unfold angle.
  apply bind_not_loops; [apply py_sqrt_not_loops | intros n].
  apply bind_not_loops; [apply py_div_not_loops | intros q].
  apply bind_not_loops; [apply py_acos_not_loops | intros a]. discriminate.
Qed.

Lemma arc_parameters_not_loops (circle : Z) (x1 y1 rx ry phi : R) (large_arc sweep : Z)
    (x2 y2 : R) :
  arc_parameters circle x1 y1 rx ry phi large_arc sweep x2 y2 <> Loops.
Proof.
  unfold arc_parameters. cbv zeta.
  repeat first
    [ apply bind_not_loops;
      [ first [apply py_div_not_loops | apply py_sqrt_not_loops | apply angle_not_loops]
      | intros ? ]
    | discriminate ].
Qed.

Lemma for_each_not_loops {A : Type} (l : list A) (body : A -> M unit) :
  (forall a s, fst (body a s) <> Loops) ->
  forall s, fst (for_each l body s) <> Loops.
Proof.
  intros Hb. induction l as [ | a l IH]; intros s; [discriminate | ].
  change (for_each (a :: l) body) with (body a ≫= fun _ => for_each l body).
  rewrite run_bind. specialize (Hb a s).
  destruct (body a s) as [[[] | e | ] s1]; cbn in Hb |- *;
    [apply IH | discriminate | contradiction].
Qed.

Lemma arc_to_not_loops (rx ry phi : R) (large_arc sweep : Z) (x y : R) (s : SVG) :
  fst (arc_to rx ry phi large_arc sweep x y s) <> Loops.
Proof.
  unfold arc_to. rewrite run_bind. cbn [get]. rewrite run_bind. unfold lift at 1.
  match goal with |- context [arc_parameters ?c ?a ?b ?d ?e ?f ?g ?h ?i ?j] =>
    pose proof (arc_parameters_not_loops c a b d e f g h i j) as Hp;
    destruct (arc_parameters c a b d e f g h i j) as [[[[[cx cy] psi] delta] n] | e0 | ]
  end; [ | discriminate | contradiction].
  apply for_each_not_loops. intros i s0. rewrite run_bind. unfold lift at 1.
  pose proof (py_div_not_loops (IZR i * delta) (IZR n)) as Hd.
  destruct (py_div (IZR i * delta) (IZR n)); [discriminate | discriminate | contradiction].
Qed.

Lemma close_path_not_loops (s : SVG) : fst (close_path s) <> Loops.
Proof.
  unfold close_path. rewrite run_bind. cbn [get].
  destruct (self_loop s); discriminate.
Qed.

Lemma bind_smooth (pd0 : list string) (k : point -> M (list string)) (s : SVG) :
  (forall p, pops pd0 (k p s)) ->
  pops pd0 ((smooth_control ≫= k) s).
Proof.
  intros Hk. rewrite run_bind. unfold smooth_control. rewrite run_bind. cbn [get].
  destruct (self_last_c s) as [[cx cy] | ]; [apply Hk | exact I].
Qed.

Ltac popping :=
  intros pd s; unfold path_command;
  cbn [String.eqb Ascii.eqb Bool.eqb is_substring String.prefix orb];
  repeat first
    [ apply bind_pnext; [cbn [length]; lia | intros ? ? ? ?]
    | apply bind_pop_float; [cbn [length]; lia | intros ? ? ?]
    | apply bind_pop_int; [cbn [length]; lia | intros ? ? ?]
    | apply bind_smooth; intros [? ?]
    | apply bind_draw;
      [ cbn [length]; lia
      | first [ apply set_position_not_loops | apply curve_to_not_loops
              | apply arc_to_not_loops ] ]
    | rewrite run_bind; cbn [get] ].

(** The three kinds of opcode: one that pops its arguments, one that closes
    the loop, one that is not recognised. *)
Lemma opcode_kinds (o : string) :
  (is_substring o "zZ" = false /\
   forall pd s, pops pd (path_command o pd s)) \/
  (is_substring o "zZ" = true /\
   forall pd s, path_command o pd s = (close_path ≫= fun _ => mret pd) s) \/
  (is_substring o "zZ" = false /\
   forall pd s, exists s', path_command o pd s = (Ok pd, s')).
Proof.
  assert (Hpop : forall c : string,
            String.eqb o c = true -> is_substring c "zZ" = false ->
            (forall pd s, pops pd (path_command c pd s)) ->
            (is_substring o "zZ" = false /\
             forall pd s, pops pd (path_command o pd s))).
  { intros c Hc Hz Hp. apply String.eqb_eq in Hc. subst c. auto. }
  destruct (String.eqb o "M") eqn:E1.
  { left. apply (Hpop "M" E1); [reflexivity | popping]. }
  destruct (String.eqb o "m") eqn:E2.
  { left. apply (Hpop "m" E2); [reflexivity | popping]. }
  destruct (String.eqb o "C") eqn:E3.
  { left. apply (Hpop "C" E3); [reflexivity | popping]. }
  destruct (String.eqb o "c") eqn:E4.
  { left. apply (Hpop "c" E4); [reflexivity | popping]. }
  destruct (String.eqb o "S") eqn:E5.
  { left. apply (Hpop "S" E5); [reflexivity | popping]. }
  destruct (String.eqb o "s") eqn:E6.
  { left. apply (Hpop "s" E6); [reflexivity | popping]. }
  destruct (String.eqb o "A") eqn:E7.
  { left. apply (Hpop "A" E7); [reflexivity | popping]. }
  destruct (is_substring o "zZ") eqn:EZ.
  { right. left. split; [reflexivity | ]. intros pd s. unfold path_command.
    rewrite E1, E2, E3, E4, E5, E6, E7, EZ. reflexivity. }
  destruct (String.eqb o "L") eqn:E8.
  { left. apply (Hpop "L" E8); [reflexivity | popping]. }
  destruct (String.eqb o "l") eqn:E9.
  { left. apply (Hpop "l" E9); [reflexivity | popping]. }
  destruct (String.eqb o "H") eqn:E10.
  { left. apply (Hpop "H" E10); [reflexivity | popping]. }
  destruct (String.eqb o "h") eqn:E11.
  { left. apply (Hpop "h" E11); [reflexivity | popping]. }
  destruct (String.eqb o "V") eqn:E12.
  { left. apply (Hpop "V" E12); [reflexivity | popping]. }
  destruct (String.eqb o "v") eqn:E13.
  { left. apply (Hpop "v" E13); [reflexivity | popping]. }
  right. right. split; [reflexivity | ]. intros pd s. unfold path_command.
  rewrite E1, E2, E3, E4, E5, E6, E7, EZ, E8, E9, E10, E11, E12, E13.
  unfold print. mrun. eexists. reflexivity.
Qed.

(** After an unrecognised opcode, a token that is no letter is never popped. *)
Lemma unknown_opcode_loops (o t : string) (rest : list string) :
  (forall pd s, exists s', path_command o pd s = (Ok pd, s')) ->
  is_substring t ascii_letters = false ->
  forall (fuel : nat) (s : SVG), fst (path_loop fuel o (t :: rest) s) = Loops.
Proof.
  intros Hu Ht. induction fuel as [ | fuel IH]; intros s; [reflexivity | ].
  rewrite path_loop_step, Ht. cbn iota. rewrite run_bind.
  destruct (Hu (t :: rest) s) as (s' & ->). apply IH.
Qed.

Lemma path_loop_stuck (fuel : nat) (o t : string) (rest : list string) (s : SVG) :
  (forall o' pd' s', 
     (let '(o1, pd1) := if is_substring t ascii_letters then (t, rest) else (o, t :: rest) in
      o' = o1 /\ path_command o1 pd1 s = (Ok pd', s')) ->
     forall fuel', fst (path_loop fuel' o' pd' s') = Loops) ->
  fst (path_loop (S fuel) o (t :: rest) s) = Loops ->
  forall fuel', fst (path_loop fuel' o (t :: rest) s) = Loops.
Proof.
  intros Hnext Hrun [ | fuel']; [reflexivity | ].
  rewrite path_loop_step in Hrun |- *.
  destruct (is_substring t ascii_letters); cbn iota in Hrun, Hnext |- *;
    rewrite run_bind in Hrun |- *;
    match goal with
    | |- context [path_command ?o1 ?p1 s] =>
        destruct (path_command o1 p1 s) as [[pd' | e | ] s'] eqn:E
    end;
    try exact Hrun; apply (Hnext _ pd' s'); split; reflexivity.
Qed.

Lemma path_loop_adequate (fuel : nat) :
  forall (o : string) (pd : list string) (s : SVG),
  (length pd <= fuel)%nat ->
  closing_on_empty o pd s ->
  fst (path_loop fuel o pd s) = Loops ->
  forall fuel', fst (path_loop fuel' o pd s) = Loops.
Proof.
  induction fuel as [ | fuel IH]; intros o pd s Hlen Hinv Hrun.
  - destruct pd; [discriminate | cbn in Hlen; lia].
  - destruct pd as [ | t rest]; [rewrite path_loop_done in Hrun; discriminate | ].
    cbn [length] in Hlen.
    destruct (is_substring t ascii_letters) eqn:Ht.
    + (* the token is the opcode of this turn *)
      apply (path_loop_stuck fuel); [ | exact Hrun].
      rewrite Ht. intros o' pd' s' [-> Hc].
      rewrite path_loop_step, Ht in Hrun. cbn iota in Hrun.
      rewrite run_bind, Hc in Hrun.
      destruct (opcode_kinds t) as [(Hz & Hp) | [(Hz & Hp) | (Hz & Hp)]].
      * specialize (Hp rest s). rewrite Hc in Hp. cbn in Hp.
        apply (IH t pd' s'); [lia | | exact Hrun].
        destruct pd'; [exact I | ]. intros _ Hz'. congruence.
      * rewrite Hp, run_bind in Hc.
        destruct (self_loop s) as [ | p0 l] eqn:Hl.
        { rewrite close_path_empty in Hc by exact Hl. discriminate. }
        rewrite (close_path_nonempty s p0 l Hl) in Hc. injection Hc as <- <-.
        apply (IH t rest _); [lia | | exact Hrun].
        destruct rest; [exact I | ]. intros _ _. reflexivity.
      * destruct (Hp rest s) as (s1 & Hc'). rewrite Hc' in Hc. injection Hc as <- <-.
        apply (IH t rest s1); [lia | | exact Hrun].
        destruct rest; [exact I | ]. intros _ Hz'. congruence.
    + (* the opcode of the turn before is used again *)
      destruct (opcode_kinds o) as [(Hz & Hp) | [(Hz & Hp) | (Hz & Hp)]].
      * apply (path_loop_stuck fuel); [ | exact Hrun].
        rewrite Ht. intros o' pd' s' [-> Hc].
        rewrite path_loop_step, Ht in Hrun. cbn iota in Hrun.
        rewrite run_bind, Hc in Hrun.
        specialize (Hp (t :: rest) s). rewrite Hc in Hp. cbn in Hp.
        apply (IH o pd' s'); [lia | | exact Hrun].
        destruct pd'; [exact I | ]. intros _ Hz'. congruence.
      * exfalso. rewrite path_loop_step, Ht in Hrun. cbn iota in Hrun.
        rewrite run_bind, Hp, run_bind in Hrun.
        rewrite close_path_empty in Hrun by (apply Hinv; [exact Ht | exact Hz]).
        discriminate.
      * intros fuel'. apply unknown_opcode_loops; assumption.
Qed.

(** X24.  The [while pathdata] loop of the [path] branch, started after
    [new_path] with the empty opcode: either it returns or raises within as
    many turns as there are tokens, and then does the same with any larger
    bound, or it never ends (an unrecognised opcode followed by a number,
    which is never popped).  So the bound that [draw_path] gives the loop
    decides between the two. *)
Theorem path_data_ends_or_hangs (pd : list string) (s : SVG) :
  (exists (r : result unit) (s' : SVG),
     r <> Loops /\
     forall fuel, (length pd <= fuel)%nat ->
       (new_path ≫= fun _ => path_loop fuel "" pd) s = (r, s')) \/
  (forall fuel, fst ((new_path ≫= fun _ => path_loop fuel "" pd) s) = Loops).
Proof.
  unfold new_path. 
  set (s0 := set_self_loop [] (set_self_path [] (set_self_y 0 (set_self_x 0 s)))).
  assert (Hrun : forall fuel,
            (modify (fun s => set_self_loop [] (set_self_path [] (set_self_y 0 (set_self_x 0 s))))
               ≫= fun _ => path_loop fuel "" pd) s = path_loop fuel "" pd s0)
    by reflexivity.
  destruct (path_loop (length pd) "" pd s0) as [r s'] eqn:E.
  destruct r as [[] | e | ].
  - left. exists (Ok tt), s'. split; [discriminate | ]. intros fuel Hf.
    rewrite Hrun. apply (path_loop_more_fuel _ _ _ _ _ _ E); [discriminate | exact Hf].
  - left. exists (Raise e), s'. split; [discriminate | ]. intros fuel Hf.
    rewrite Hrun. apply (path_loop_more_fuel _ _ _ _ _ _ E); [discriminate | exact Hf].
  - right. intros fuel. rewrite Hrun.
    apply (path_loop_adequate (length pd)); [lia | | rewrite E; reflexivity].
    destruct pd; [exact I | ]. intros _ _. reflexivity.
Qed.

(** X23.  Path data whose first token is a number raise [IndexError]:
    the opcode is still the empty string, which is [in 'zZ'], so the first
    turn calls [close_path] on the loop that [new_path] has just emptied. *)
Theorem path_data_number_first (t : string) (rest : list string) (s : SVG) :
  is_substring t ascii_letters = false ->
  forall fuel,
    fst ((new_path ≫= fun _ => path_loop (S fuel) "" (t :: rest)) s) = Raise IndexError.
Proof.
  intros Ht fuel. unfold new_path. rewrite run_bind. mcbn.
  rewrite path_loop_step, Ht. cbn iota. rewrite run_bind.
  unfold path_command. cbn [String.eqb]. evaluate (is_substring "" "zZ"). cbn iota.
  rewrite run_bind, close_path_empty by reflexivity. reflexivity.
Qed.

End LoopFacts.

Lemma path_data_number_first_witness :
  fst ((new_path ≫= fun _ => path_loop 1 "" ["1"]) fresh) = Raise IndexError.
Proof. exact (path_data_number_first "1" [] fresh eq_refl 0). Defined.

Section FrameFacts.
Variable triangulate : list loop -> M (list point).
Variable register_gradient : bool -> element -> M unit.

Lemma bind_ok {A B : Type} (m : M A) (k : A -> M B) (s s' : SVG) (b : B) :
  (m ≫= k) s = (Ok b, s') ->
  exists a s1, m s = (Ok a, s1) /\ k a s1 = (Ok b, s').
Proof.
  rewrite run_bind. destruct (m s) as [[a | e | ] s1]; intros H; try discriminate.
  exists a, s1. split; [reflexivity | exact H].
Qed.

Lemma color_frame (c : option string) (d : paint) (s s1 : SVG) (r : result paint) :
  color c d s = (r, s1) ->
  self_transform s1 = self_transform s /\ self_opacity s1 = self_opacity s.
Proof.
  unfold color. destruct (parse_color c d) as [r' evs]. intros H.
  injection H as _ <-. split; reflexivity.
Qed.

(** [enter_element] returns the transform and the opacity it found. *)
Lemma enter_element_old (e : element) (s s1 : SVG) (ot : Matrix) (oo : R) :
  enter_element e s = (Ok (ot, oo), s1) ->
  ot = self_transform s /\ oo = self_opacity s.
Proof.
  unfold enter_element. intros H.
  apply bind_ok in H as (fill & sa & Hc1 & H). apply color_frame in Hc1 as [T1 O1].
  apply bind_ok in H as ([] & sb & Hm1 & H). injection Hm1 as <-.
  apply bind_ok in H as (stroke & sc & Hc2 & H). apply color_frame in Hc2 as [T2 O2].
  apply bind_ok in H as ([] & sd & Hm2 & H). injection Hm2 as <-.
  apply bind_ok in H as (s2 & se & Hg & H). injection Hg as <- <-.
  apply bind_ok in H as (o & sf & Hl1 & H). unfold lift in Hl1. injection Hl1 as _ <-.
  apply bind_ok in H as ([] & sg & Hm3 & H). injection Hm3 as <-.
  apply bind_ok in H as (fo & sh & Hl2 & H). unfold lift in Hl2. injection Hl2 as _ <-.
  apply bind_ok in H as (so & si & Hl3 & H). unfold lift in Hl3. injection Hl3 as _ <-.
  apply bind_ok in H as ([] & sj & Hm4 & H). injection Hm4 as <-.
  apply bind_ok in H as (s3 & sk & Hg2 & H). injection Hg2 as <- <-.
  apply bind_ok in H as (own & sl & Hl4 & H). unfold lift in Hl4. injection Hl4 as _ <-.
  apply bind_ok in H as (t & sm & Hl5 & H). unfold lift in Hl5. injection Hl5 as _ <-.
  apply bind_ok in H as ([] & sn & Hm5 & H). injection Hm5 as <-.
  apply bind_ok in H as ([fo' so'] & sp & Hst & H).
  apply bind_ok in H as ([] & sq & Hm6 & H). injection Hm6 as <-.
  injection H as <- <- _.
  mcbn. rewrite T2, O2. mcbn. rewrite T1, O1. split; reflexivity.
Qed.

(** X25.  When [parse_element] returns, [self.transform] and
    [self.opacity] are what they were at the call: the element's own
    transform and opacity apply to it and its children only. *)
Theorem parse_element_restores (e : element) (s s' : SVG) :
  parse_element triangulate register_gradient e s = (Ok tt, s') ->
  self_transform s' = self_transform s /\ self_opacity s' = self_opacity s.
Proof.
  rewrite parse_element_unfold. intros H.
  apply bind_ok in H as ([ot oo] & s1 & He & H).
  apply enter_element_old in He as [-> ->].
  apply bind_ok in H as ([] & s2 & _ & H).
  apply bind_ok in H as ([] & s3 & _ & H).
  injection H as <-. split; reflexivity.
Qed.

End FrameFacts.

Lemma parse_element_restores_witness :
  exists s',
    parse_element no_triangulate no_gradient good_line fresh = (Ok tt, s') /\
    self_transform s' = self_transform fresh /\ self_opacity s' = self_opacity fresh.
Proof.
  destruct (parse_good_line no_triangulate no_gradient fresh 1 0 0 1 0 0 eq_refl eq_refl)
    as (s' & p & He & _).
  exists s'. split; [exact He | ].
  exact (parse_element_restores no_triangulate no_gradient good_line fresh s' He).
Defined.

Section DocFacts.

(** X26.  The head of [parse_doc], given a [width] and [height] that
    parse.  With a nonzero height the size is taken from the attributes and,
    under [invert_y], the root transform maps [(x, y)] to [(x, height - y)].
    With a height of zero the size is the last two numbers of [viewBox], the
    first two are ignored, and under [invert_y] the root transform maps
    [(x, y)] to [(x, -y)], without the shift by the height; without a
    [viewBox] the call raises [TypeError].  The opacity starts at 1 and the
    list of paths empty. *)
Theorem doc_header_size (root : element) (w h : R) (s : SVG) :
  parse_float (default "0" (e_get root "width")) = Ok w ->
  parse_float (default "0" (e_get root "height")) = Ok h ->
  (h <> 0 ->
   exists s', doc_header root s = (Ok tt, s') /\
     (self_width s', self_height s', self_opacity s') = (w, h, 1) /\
     self_paths s' = [] /\
     forall p : point,
       call (self_transform s') p = Ok (if invert_y s then (p.1, h - p.2) else p)) /\
  (h = 0 ->
   (e_get root "viewBox" = None -> fst (doc_header root s) = Raise TypeError) /\
   forall (viewBox : string) (x y vw vh : R),
     e_get root "viewBox" = Some viewBox ->
     mapM parse_float (parse_list viewBox) = Ok [x; y; vw; vh] ->
     exists s', doc_header root s = (Ok tt, s') /\
       (self_width s', self_height s', self_opacity s') = (vw, vh, 1) /\
       self_paths s' = [] /\
       forall p : point,
         call (self_transform s') p = Ok (if invert_y s then (p.1, - p.2) else p)).
Proof.
  intros Hw Hh. split.
  - intros Hnz. unfold doc_header. mrun. unfold lift at 1. rewrite Hw. mrun.
    unfold lift at 1. rewrite Hh. mrun.
    destruct (decide (h = 0)) as [Hz | _]; [contradiction | ]. mrun.
    eexists. split; [reflexivity | ]. mcbn. split; [reflexivity | ].
    split; [reflexivity | ]. intros [px py].
    destruct (invert_y s); unfold call; cbn [values fst snd lookup list_lookup];
      cbn; do 2 f_equal; ring.
  - intros Hz. split.
    + intros Hv. unfold doc_header. mrun. unfold lift at 1. rewrite Hw. mrun.
      unfold lift at 1. rewrite Hh. mrun.
      destruct (decide (h = 0)) as [_ | Hn]; [ | contradiction]. rewrite Hv. reflexivity.
    + intros viewBox x y vw vh Hv Hl. unfold doc_header. mrun.
      unfold lift at 1. rewrite Hw. mrun. unfold lift at 1. rewrite Hh. mrun.
      destruct (decide (h = 0)) as [_ | Hn]; [ | contradiction]. rewrite Hv.
      rewrite run_bind. unfold lift at 1. rewrite Hl. mrun.
      eexists. split; [reflexivity | ]. mcbn. split; [reflexivity | ].
      split; [reflexivity | ]. intros [px py].
      destruct (invert_y s); unfold call; cbn [values fst snd lookup list_lookup];
        cbn; do 2 f_equal; ring.
Qed.

End DocFacts.

Lemma doc_size_attrs :
  parse_float (default "0" (e_get (doc []) "width")) = Ok 10 /\
  parse_float (default "0" (e_get (doc []) "height")) = Ok 10.
Proof.
  evaluate (default "0" (e_get (doc []) "width")).
  evaluate (default "0" (e_get (doc []) "height")).
  unfold parse_float. evaluate (endswith "10" "px"). eval_floats.
  split; reflexivity.
Qed.

Lemma doc_header_size_witness :
  exists s', doc_header (doc []) fresh = (Ok tt, s') /\
    (self_width s', self_height s', self_opacity s') = (10, 10, 1).
Proof.
  destruct doc_size_attrs as (Hw & Hh).
  destruct (doc_header_size (doc []) 10 10 fresh Hw Hh) as [Hsized _].
  destruct Hsized as (s' & H1 & H2 & _); [lra | ].
  exists s'. split; [exact H1 | exact H2].
Defined.

Section RoundedFacts.
Variable triangulate : list loop -> M (list point).

(** X22.  A [rect] with both [rx] and [ry]: the radii are capped at half
    the width and half the height, and when a capped radius is zero (as for
    [rx="0"], or a width of zero) the first arc raises
    [ZeroDivisionError]: the rectangle is not drawn. *)
Theorem draw_rect_zero_radius (e : element) (x y w h rx ry : R) (srx sry : string)
    (s : SVG) :
  attr_float e "x" = Ok x -> attr_float e "y" = Ok y ->
  attr_float e "width" = Ok w -> attr_float e "height" = Ok h ->
  e_get e "rx" = Some srx -> e_get e "ry" = Some sry ->
  py_float srx = Ok rx -> py_float sry = Ok ry ->
  py_min rx (w / 2) = 0 \/ py_min ry (h / 2) = 0 ->
  fst (draw_rect triangulate e s) = Raise ZeroDivisionError.
Proof.
  intros Hx Hy Hw Hh Hrx Hry Frx Fry Hq.
  unfold draw_rect. rewrite run_bind. unfold lift at 1. rewrite Hx.
  rewrite run_bind. unfold lift at 1. rewrite Hy.
  rewrite run_bind. unfold lift at 1. rewrite Hh.
  rewrite run_bind. unfold lift at 1. rewrite Hw.
  rewrite Hrx, Hry. cbn [py_float_opt].
  rewrite run_bind. unfold lift at 1. rewrite Frx.
  rewrite run_bind. unfold lift at 1. rewrite Fry.
  rewrite run_bind. unfold new_path at 1. mcbn.
  rewrite run_bind. unfold set_position at 1. mcbn.
  rewrite run_bind. unfold line_to at 1, set_position at 1. mcbn.
  rewrite run_bind, arc_to_zero; [reflexivity | ].
  destruct Hq as [Hq | Hq]; [left | right; left]; exact Hq.
Qed.

End RoundedFacts.

Lemma flat_rect_attrs :
  attr_float Cases.flat_rect "x" = Ok 0 /\ attr_float Cases.flat_rect "y" = Ok 0 /\
  attr_float Cases.flat_rect "width" = Ok 4 /\
  attr_float Cases.flat_rect "height" = Ok 3 /\
  py_float "0" = Ok 0 /\ py_float "1" = Ok 1.
Proof.
  unfold attr_float. eval_attrs Cases.flat_rect. cbn [py_float_opt]. eval_floats.
  repeat split; reflexivity.
Qed.

Lemma draw_rect_zero_radius_witness :
  fst (draw_rect no_triangulate Cases.flat_rect fresh) = Raise ZeroDivisionError.
Proof.
  destruct flat_rect_attrs as (Hx & Hy & Hw & Hh & H0 & H1).
  apply (draw_rect_zero_radius no_triangulate Cases.flat_rect 0 0 4 3 0 1 "0" "1" fresh
           Hx Hy Hw Hh eq_refl eq_refl H0 H1).
  left. unfold py_min. destruct (decide (4 / 2 < 0)); [lra | reflexivity].
Defined.

(** ** svg.py: [endCallback] *)

Section TessFacts.
Import TessPy.

Lemma fan_loop_closed (rest : list point) :
  forall (c p1 : point) (tlist : list point),
  fan_loop c p1 rest tlist
  = tlist ++ concat (zip_with (fun a b => [c; a; b]) (p1 :: rest) rest).
Proof.
  induction rest as [ | p2 rest IH]; intros c p1 tlist.
  - cbn. rewrite app_nil_r. reflexivity.
  - cbn [fan_loop]. rewrite IH. cbn [zip_with concat]. rewrite <- app_assoc. reflexivity.
Qed.

Lemma strip_loop_closed (rest : list point) :
  forall (p1 p2 : point) (tlist : list point),
  strip_loop p1 p2 rest tlist
  = tlist ++ concat (zip_with (fun a bc => [a; bc.1; bc.2])
                       (p1 :: p2 :: rest) (zip (p2 :: rest) rest)).
Proof.
  induction rest as [ | p3 rest IH]; intros p1 p2 tlist.
  - cbn. rewrite app_nil_r. reflexivity.
  - cbn [strip_loop]. rewrite IH. cbn [zip_with concat fst snd].
    rewrite <- app_assoc. reflexivity.
Qed.

Lemma concat_triples_length {A B : Type} (f : A -> B -> list point) (l : list A)
    (k : list B) :
  (forall a b, length (f a b) = 3%nat) ->
  length (concat (zip_with f l k)) = (3 * Nat.min (length l) (length k))%nat.
Proof.
  intros Hf. revert k. induction l as [ | a l IH]; intros [ | b k]; cbn [zip_with concat];
    try reflexivity.
  rewrite length_app, Hf, IH. cbn [length]. lia.
Qed.

(** X27.  [endCallback] on a shape of at least two vertices: a fan
    yields the triangles [(v0, v_i, v_i+1)], a strip the triangles
    [(v_i, v_i+1, v_i+2)], a list of triangles is appended as it is; fan and
    strip add three points per vertex after the second.  On fewer than two
    vertices fan and strip raise [IndexError]. *)
Theorem end_callback_triangles (v0 v1 : point) (rest tlist : list point) :
  let shape := v0 :: v1 :: rest in
  end_callback GL_TRIANGLE_FAN shape tlist
    = (Ok (tlist ++ concat (zip_with (fun a b => [v0; a; b]) (v1 :: rest) rest)), []) /\
  end_callback GL_TRIANGLE_STRIP shape tlist
    = (Ok (tlist ++ concat (zip_with (fun a bc => [a; bc.1; bc.2]) shape
                              (zip (v1 :: rest) rest))), []) /\
  end_callback GL_TRIANGLES shape tlist = (Ok (tlist ++ shape), []) /\
  (forall style out,
     style = GL_TRIANGLE_FAN \/ style = GL_TRIANGLE_STRIP ->
     end_callback style shape tlist = (Ok out, []) ->
     length out = (length tlist + 3 * length rest)%nat) /\
  (forall style, style = GL_TRIANGLE_FAN \/ style = GL_TRIANGLE_STRIP ->
     end_callback style [] tlist = (Raise IndexError, []) /\
     end_callback style [v0] tlist = (Raise IndexError, [])).
Proof.
  intros shape.
  assert (Hfan : end_callback GL_TRIANGLE_FAN shape tlist
            = (Ok (tlist ++ concat (zip_with (fun a b => [v0; a; b]) (v1 :: rest) rest)), [])).
  { unfold end_callback, shape. cbn [Z.eqb GL_TRIANGLE_FAN Pos.eqb].
    rewrite fan_loop_closed. reflexivity. }
  assert (Hstrip : end_callback GL_TRIANGLE_STRIP shape tlist
            = (Ok (tlist ++ concat (zip_with (fun a bc => [a; bc.1; bc.2]) shape
                                      (zip (v1 :: rest) rest))), [])).
  { unfold end_callback, shape.
    cbn [Z.eqb GL_TRIANGLE_FAN GL_TRIANGLE_STRIP Pos.eqb].
    rewrite strip_loop_closed. reflexivity. }
  split; [exact Hfan | ]. split; [exact Hstrip | ]. split; [reflexivity | ].
  split.
  - intros style out [-> | ->] H.
    + rewrite Hfan in H.
      replace out
        with (tlist ++ concat (zip_with (fun a b => [v0; a; b]) (v1 :: rest) rest))
        by congruence.
      rewrite length_app, concat_triples_length by reflexivity. cbn [length]. lia.
    + rewrite Hstrip in H.
      replace out
        with (tlist ++ concat (zip_with (fun a bc => [a; bc.1; bc.2]) shape
                                 (zip (v1 :: rest) rest)))
        by congruence.
      rewrite length_app, concat_triples_length by reflexivity.
      unfold shape. rewrite length_zip_with. cbn [length]. lia.
  - intros style [-> | ->]; split; reflexivity.
Qed.

End TessFacts.
